(** * Sidequest: task lifecycle, messaging and rating handlers

    A shallow embedding of the server actions of [lib/actions] (tasks,
    messages, ratings) over the relational schema of
    [supabase/migrations/00001_initial_schema.sql].

    - A table is a finite map (tasks and profiles, keyed by primary key) or
      a list of rows in insertion order (messages, ratings, blocks).
    - A store statement is a function [Store -> Store * R]; it enforces the
      CHECK, UNIQUE, PRIMARY KEY and FOREIGN KEY constraints of the
      migration and reports a violation as an error value, as the client
      library does.
    - A server action is a sequence of awaited statements ([Action]); every
      [await] of the TypeScript source is one [Await] node, so that two
      actions can be run one after the other ([run]) or interleaved at
      their awaits ([race]).
    - A JavaScript string is a [string] whose characters stand for code
      units; [Date] values and SQL timestamps are integers (milliseconds);
      a date string is kept with what [new Date] and what PostgreSQL read
      in it; [price_cents] and [stars] are integers.
    - The row-security policies of the migration act inside the database,
      below the client library. The store statements carry the tables and
      their constraints, not the policies: a statement of the model reads
      and writes what the handler asks for. [Policy] transcribes the read
      policies of tasks and messages, and a property that holds of the
      deployed system only for a caller whom [tasks_read] shows the task
      takes that as a hypothesis. Under [tasks_update] the update sent by
      [acceptTask] matches no row for a caller who is neither the poster
      nor the acceptor of the stored row, and reports no error; the
      properties of [acceptTask] fixed on its results hold with and
      without the policy.
    - The rest of the server side follows the lifecycle handlers: the
      account, block and read actions of [lib/actions], the helpers of
      [lib/utils], the routing of [lib/supabase/middleware], the layout of
      the application and the sign-in callback. The session of a request
      (the user of [auth.getUser], the answer of
      [exchangeCodeForSession]) is an argument of the action, and so is
      the date formatter of the platform. *)

From Stdlib Require Import Ascii String.
From stdpp Require Import base option numbers list gmap strings sorting pretty.

Local Open Scope string_scope.
Local Open Scope Z_scope.

Abbreviation uuid := N (only parsing).
Abbreviation timestamp := Z (only parsing).

(** ** JavaScript strings *)

Module Js.

(** WhiteSpace and LineTerminator code units below 256:
    TAB, LF, VT, FF, CR, SP and NBSP. *)
Definition is_white_space (c : ascii) : bool :=
  let n := N_of_ascii c in
  ((9 <=? n) && (n <=? 13) || (n =? 32) || (n =? 160))%N.

Fixpoint trimStart (s : string) : string :=
  match s with
  | EmptyString => EmptyString
  | String c s' => if is_white_space c then trimStart s' else s
  end.

Fixpoint trimEnd (s : string) : string :=
  match s with
  | EmptyString => EmptyString
  | String c s' =>
      match trimEnd s' with
      | EmptyString => if is_white_space c then EmptyString else String c EmptyString
      | t => String c t
      end
  end.

(** [String.prototype.trim] *)
Definition trim (s : string) : string := trimEnd (trimStart s).

(** Truthiness of a string: [!s] holds for the empty string only. *)
Definition truthy (s : string) : bool :=
  match s with EmptyString => false | _ => true end.

(** [s.length] *)
Definition len (s : string) : Z := Z.of_nat (String.length s).

End Js.

(** ** Enumerations of the schema *)

Inductive TaskStatus := OPEN | ACCEPTED | COMPLETE | CANCELED.
Inductive TaskCategory := ERRAND | DELIVERY | MOVING | TUTORING | CLEANING | OTHER.
Inductive TimeWindow := NOW | TODAY | THIS_WEEK | SCHEDULED.
Inductive MessageType := TEXT | SYSTEM.

Global Instance TaskStatus_eq_dec : EqDecision TaskStatus.
Proof. solve_decision. Defined.
Global Instance TaskCategory_eq_dec : EqDecision TaskCategory.
Proof. solve_decision. Defined.
Global Instance TimeWindow_eq_dec : EqDecision TimeWindow.
Proof. solve_decision. Defined.
Global Instance MessageType_eq_dec : EqDecision MessageType.
Proof. solve_decision. Defined.

(** ** Rows *)

Module Profile.
Record t := mk {
  email : string;
  display_name : option string;
  accepted_rules : bool;
  created_at : timestamp
}.
End Profile.

(** The primary key [id] of a task is the key of the [tasks] map. *)
Module Task.
Record t := mk {
  poster_id : uuid;
  accepted_by_user_id : option uuid;
  status : TaskStatus;
  title : string;
  description : string;
  category : TaskCategory;
  location_text : string;
  time_window : TimeWindow;
  scheduled_at : option timestamp;
  price_cents : Z;
  created_at : timestamp;
  accepted_at : option timestamp;
  completed_at : option timestamp;
  canceled_at : option timestamp
}.

Definition set_title (v : string) (r : t) : t :=
  mk (poster_id r) (accepted_by_user_id r) (status r) v (description r)
     (category r) (location_text r) (time_window r) (scheduled_at r)
     (price_cents r) (created_at r) (accepted_at r) (completed_at r) (canceled_at r).

Definition set_description (v : string) (r : t) : t :=
  mk (poster_id r) (accepted_by_user_id r) (status r) (title r) v
     (category r) (location_text r) (time_window r) (scheduled_at r)
     (price_cents r) (created_at r) (accepted_at r) (completed_at r) (canceled_at r).

Definition set_price_cents (v : Z) (r : t) : t :=
  mk (poster_id r) (accepted_by_user_id r) (status r) (title r) (description r)
     (category r) (location_text r) (time_window r) (scheduled_at r)
     v (created_at r) (accepted_at r) (completed_at r) (canceled_at r).

Definition set_accepted_by_user_id (v : option uuid) (r : t) : t :=
  mk (poster_id r) v (status r) (title r) (description r)
     (category r) (location_text r) (time_window r) (scheduled_at r)
     (price_cents r) (created_at r) (accepted_at r) (completed_at r) (canceled_at r).

Definition set_status (v : TaskStatus) (r : t) : t :=
  mk (poster_id r) (accepted_by_user_id r) v (title r) (description r)
     (category r) (location_text r) (time_window r) (scheduled_at r)
     (price_cents r) (created_at r) (accepted_at r) (completed_at r) (canceled_at r).

Definition set_accepted_at (v : option timestamp) (r : t) : t :=
  mk (poster_id r) (accepted_by_user_id r) (status r) (title r) (description r)
     (category r) (location_text r) (time_window r) (scheduled_at r)
     (price_cents r) (created_at r) v (completed_at r) (canceled_at r).

Definition set_completed_at (v : option timestamp) (r : t) : t :=
  mk (poster_id r) (accepted_by_user_id r) (status r) (title r) (description r)
     (category r) (location_text r) (time_window r) (scheduled_at r)
     (price_cents r) (created_at r) (accepted_at r) v (canceled_at r).

Definition set_canceled_at (v : option timestamp) (r : t) : t :=
  mk (poster_id r) (accepted_by_user_id r) (status r) (title r) (description r)
     (category r) (location_text r) (time_window r) (scheduled_at r)
     (price_cents r) (created_at r) (accepted_at r) (completed_at r) v.
End Task.

(** The surrogate keys of messages, ratings and blocks are read by no
    handler; a row is identified by its position in the table. *)
Module Message.
Record t := mk {
  task_id : uuid;
  sender_id : uuid;
  type : MessageType;
  body : string;
  created_at : timestamp
}.
End Message.

Module Rating.
Record t := mk {
  task_id : uuid;
  rater_id : uuid;
  ratee_id : uuid;
  stars : Z;
  comment : option string;
  created_at : timestamp
}.
End Rating.

Module Block.
Record t := mk {
  blocker_id : uuid;
  blocked_id : uuid
}.
End Block.

Global Instance Message_eq_dec : EqDecision Message.t.
Proof. solve_decision. Defined.
Global Instance Rating_eq_dec : EqDecision Rating.t.
Proof. solve_decision. Defined.
Global Instance Task_eq_dec : EqDecision Task.t.
Proof. solve_decision. Defined.

Record Store := mkStore {
  profiles : gmap uuid Profile.t;
  tasks : gmap uuid Task.t;
  messages : list Message.t;
  ratings : list Rating.t;
  blocks : list Block.t
}.

(** ** Table constraints of the migration *)

Module Schema.

Definition between (lo hi x : Z) : bool := (lo <=? x) && (x <=? hi).

(** title_length, description_length, location_length, price_range and
    scheduled_at_required. *)
Definition task_checks (r : Task.t) : bool :=
  between 1 80 (Js.len (Task.title r))
  && between 1 1000 (Js.len (Task.description r))
  && between 1 120 (Js.len (Task.location_text r))
  && between 500 50000 (Task.price_cents r)
  && (bool_decide (Task.time_window r = SCHEDULED) && bool_decide (is_Some (Task.scheduled_at r))
      || bool_decide (Task.time_window r ≠ SCHEDULED)).

(** body_not_empty *)
Definition message_checks (m : Message.t) : bool :=
  between 1 2000 (Js.len (Message.body m)).

(** stars_range, comment_length and no_self_rating. *)
Definition rating_checks (r : Rating.t) : bool :=
  between 1 5 (Rating.stars r)
  && match Rating.comment r with
     | None => true
     | Some c => Js.len c <=? 500
     end
  && bool_decide (Rating.rater_id r ≠ Rating.ratee_id r).

(** [is_blocked(viewer_id, other_id)]: a block in either direction. A
    NULL argument matches no row. *)
Definition is_blocked (s : Store) (viewer_id other_id : option uuid) : bool :=
  match viewer_id, other_id with
  | Some v, Some o =>
      existsb (fun b =>
        bool_decide (Block.blocker_id b = v) && bool_decide (Block.blocked_id b = o)
        || bool_decide (Block.blocker_id b = o) && bool_decide (Block.blocked_id b = v))
        (blocks s)
  | _, _ => false
  end.

(** The range of an INTEGER column. *)
Definition int4 (x : Z) : bool := between (-2147483648) 2147483647 x.

End Schema.


(** ** Store statements *)

(** One statement sent to the store: it runs atomically and returns the
    [data] or [error] the client library hands back. *)
Definition Query (R : Type) : Type := Store → Store * R.

Inductive DbError :=
  | CheckViolation
  | UniqueViolation
  | ForeignKeyViolation
  | InvalidTimestamp
  | NumericValueOutOfRange
  | NotSingleRow.

(** A date string sent by a client, by what its two readers make of it:
    [new Date(str)] in the handlers and the timestamptz input of
    PostgreSQL. [ValidDate t] is a string both read as the instant [t],
    such as the output of [toISOString]; [InvalidDate] is a string neither
    can read; [DateString js pg] is any other string, with the instant
    JavaScript reads ([None] for an Invalid Date) and the one PostgreSQL
    reads ([None] when it refuses the string): 'epoch' is an Invalid Date
    that PostgreSQL reads as 1970-01-01, and February 30 rolls over to
    March for JavaScript and is out of range for PostgreSQL. *)
Inductive IsoString :=
  | InvalidDate
  | ValidDate (t : timestamp)
  | DateString (js pg : option timestamp).

(** [new Date(str).getTime()], [None] for NaN. *)
Definition js_time (d : IsoString) : option timestamp :=
  match d with
  | InvalidDate => None
  | ValidDate t => Some t
  | DateString js _ => js
  end.

(** [str::timestamptz], [None] when the string is refused. *)
Definition pg_time (d : IsoString) : option timestamp :=
  match d with
  | InvalidDate => None
  | ValidDate t => Some t
  | DateString _ pg => pg
  end.

(** The object passed to [from('tasks').insert]. *)
Module TaskInsert.
Record t := mk {
  poster_id : uuid;
  status : TaskStatus;
  title : string;
  description : string;
  category : TaskCategory;
  location_text : string;
  time_window : TimeWindow;
  scheduled_at : option IsoString;
  price_cents : Z
}.
End TaskInsert.

(** The object passed to [from('messages').insert]. *)
Module MessageInsert.
Record t := mk {
  task_id : uuid;
  sender_id : uuid;
  type : MessageType;
  body : string
}.
End MessageInsert.

(** The object passed to [from('ratings').insert]. *)
Module RatingInsert.
Record t := mk {
  task_id : uuid;
  rater_id : uuid;
  ratee_id : uuid;
  stars : Z;
  comment : option string
}.
End RatingInsert.

Definition has_profile (s : Store) (u : uuid) : bool :=
  bool_decide (is_Some (profiles s !! u)).

Definition has_task (s : Store) (t : uuid) : bool :=
  bool_decide (is_Some (tasks s !! t)).

(** [poster_id] and [accepted_by_user_id] reference [profiles]. *)
Definition task_fks (s : Store) (r : Task.t) : bool :=
  has_profile s (Task.poster_id r)
  && match Task.accepted_by_user_id r with
     | None => true
     | Some w => has_profile s w
     end.

(** [.single()]: the row when the result has exactly one. *)
Definition single {A} (rows : list A) : option A :=
  match rows with
  | [x] => Some x
  | _ => None
  end.

Definition set_tasks (s : Store) (t : gmap uuid Task.t) : Store :=
  mkStore (profiles s) t (messages s) (ratings s) (blocks s).

Definition set_messages (s : Store) (m : list Message.t) : Store :=
  mkStore (profiles s) (tasks s) m (ratings s) (blocks s).

Definition set_ratings (s : Store) (r : list Rating.t) : Store :=
  mkStore (profiles s) (tasks s) (messages s) r (blocks s).

Module Db.

(** [from('profiles').select(..).eq('id', uid).single()] *)
Definition select_profile (uid : uuid) : Query (option Profile.t) :=
  fun s => (s, profiles s !! uid).

(** [from('tasks').select(..).eq('id', taskId).single()] *)
Definition select_task (taskId : uuid) : Query (option Task.t) :=
  fun s => (s, tasks s !! taskId).

(** [rpc('is_blocked', { viewer_id, other_id })] *)
Definition rpc_is_blocked (viewer_id other_id : option uuid) : Query bool :=
  fun s => (s, Schema.is_blocked s viewer_id other_id).

(** [from('tasks').insert(row).select().single()]. [new_id] and [now] are
    the column defaults [uuid_generate_v4()] and [NOW()]; the string of
    [scheduled_at] is read by PostgreSQL. *)
Definition insert_task (new_id : uuid) (now : timestamp) (row : TaskInsert.t)
  : Query (DbError + (uuid * Task.t)) :=
  fun s =>
    match TaskInsert.scheduled_at row, TaskInsert.scheduled_at row ≫= pg_time with
    | Some _, None => (s, inl InvalidTimestamp)
    | _, sched =>
        let r := Task.mk (TaskInsert.poster_id row) None (TaskInsert.status row)
                   (TaskInsert.title row) (TaskInsert.description row)
                   (TaskInsert.category row) (TaskInsert.location_text row)
                   (TaskInsert.time_window row) sched
                   (TaskInsert.price_cents row) now None None None in
        if negb (task_fks s r) then (s, inl ForeignKeyViolation)
        else if negb (Schema.task_checks r) then (s, inl CheckViolation)
        else if has_task s new_id then (s, inl UniqueViolation)
        else (set_tasks s (<[new_id := r]> (tasks s)), inr (new_id, r))
    end.

(** [from('tasks').update(patch).eq('id', taskId)], with the further
    filters of the call as [cond]. A row that does not match is left alone
    and is no error. *)
Definition update_task (taskId : uuid) (cond : Task.t → bool) (patch : Task.t → Task.t)
  : Query (option DbError) :=
  fun s =>
    match tasks s !! taskId with
    | None => (s, None)
    | Some r =>
        if negb (cond r) then (s, None)
        else
          let r' := patch r in
          if negb (task_fks s r') then (s, Some ForeignKeyViolation)
          else if negb (Schema.task_checks r') then (s, Some CheckViolation)
          else (set_tasks s (<[taskId := r']> (tasks s)), None)
    end.

(** [from('tasks').update(body).eq('id', taskId).select().single()]. A
    [body] that names no column ([None]) writes nothing and the answer
    holds no row, which [.single()] reports as an error. *)
Definition update_task_returning (taskId : uuid) (body : option (Task.t → Task.t))
  : Query (DbError + Task.t) :=
  fun s =>
    match body, tasks s !! taskId with
    | None, _ => (s, inl NotSingleRow)
    | _, None => (s, inl NotSingleRow)
    | Some patch, Some r =>
        let r' := patch r in
        if negb (task_fks s r') then (s, inl ForeignKeyViolation)
        else if negb (Schema.task_checks r') then (s, inl CheckViolation)
        else (set_tasks s (<[taskId := r']> (tasks s)), inr r')
    end.

(** [from('messages').insert(row)], with or without [.select().single()]. *)
Definition insert_message (now : timestamp) (row : MessageInsert.t)
  : Query (DbError + Message.t) :=
  fun s =>
    let m := Message.mk (MessageInsert.task_id row) (MessageInsert.sender_id row)
               (MessageInsert.type row) (MessageInsert.body row) now in
    if negb (has_task s (Message.task_id m) && has_profile s (Message.sender_id m))
    then (s, inl ForeignKeyViolation)
    else if negb (Schema.message_checks m) then (s, inl CheckViolation)
    else (set_messages s (messages s ++ [m]), inr m).

Definition older (a b : Message.t) : Prop :=
  Message.created_at a ≤ Message.created_at b.

Global Instance older_dec : RelDecision older.
Proof. intros a b. unfold older. apply _. Defined.

(** [from('messages').select('*, sender:profiles(..)').eq('task_id', taskId)
    .order('created_at', { ascending: true })] *)
Definition select_messages (taskId : uuid)
  : Query (list (Message.t * option Profile.t)) :=
  fun s =>
    (s, (fun m => (m, profiles s !! Message.sender_id m)) <$>
          merge_sort older
            (filter (fun m => Message.task_id m = taskId) (messages s))).

(** [from('ratings').select('id').eq('task_id', taskId).eq('rater_id', uid)
    .single()] *)
Definition select_rating (taskId rater : uuid) : Query (option Rating.t) :=
  fun s =>
    (s, single (filter (fun r => Rating.task_id r = taskId ∧ Rating.rater_id r = rater)
                  (ratings s))).

Definition rated (s : Store) (taskId rater : uuid) : bool :=
  existsb (fun r => bool_decide (Rating.task_id r = taskId)
                    && bool_decide (Rating.rater_id r = rater)) (ratings s).

(** [from('ratings').insert(row).select().single()] *)
Definition insert_rating (now : timestamp) (row : RatingInsert.t)
  : Query (DbError + Rating.t) :=
  fun s =>
    let r := Rating.mk (RatingInsert.task_id row) (RatingInsert.rater_id row)
               (RatingInsert.ratee_id row) (RatingInsert.stars row)
               (RatingInsert.comment row) now in
    if negb (has_task s (Rating.task_id r) && has_profile s (Rating.rater_id r)
             && has_profile s (Rating.ratee_id r))
    then (s, inl ForeignKeyViolation)
    else if negb (Schema.rating_checks r) then (s, inl CheckViolation)
    else if rated s (Rating.task_id r) (Rating.rater_id r) then (s, inl UniqueViolation)
    else (set_ratings s (ratings s ++ [r]), inr r).

(** The query builder over [tasks]: a row is the primary key with the
    columns. *)
Definition TaskRows : Type := list (uuid * Task.t).

Definition newer (a b : uuid * Task.t) : Prop :=
  Task.created_at b.2 ≤ Task.created_at a.2.

Definition higher_pay (a b : uuid * Task.t) : Prop :=
  Task.price_cents b.2 ≤ Task.price_cents a.2.

Global Instance newer_dec : RelDecision newer.
Proof. intros a b. unfold newer. apply _. Defined.

Global Instance higher_pay_dec : RelDecision higher_pay.
Proof. intros a b. unfold higher_pay. apply _. Defined.

(** [.in('status', sts)] *)
Definition in_status (sts : list TaskStatus) (q : TaskRows) : TaskRows :=
  filter (fun x => Task.status x.2 ∈ sts) q.

(** [.eq('category', c)] *)
Definition eq_category (c : TaskCategory) (q : TaskRows) : TaskRows :=
  filter (fun x => Task.category x.2 = c) q.

(** [.eq('time_window', w)] *)
Definition eq_time_window (w : TimeWindow) (q : TaskRows) : TaskRows :=
  filter (fun x => Task.time_window x.2 = w) q.

(** [.gte('price_cents', p)] *)
Definition gte_price_cents (p : Z) (q : TaskRows) : TaskRows :=
  filter (fun x => p ≤ Task.price_cents x.2) q.

(** [.order('price_cents', { ascending: false })] *)
Definition order_price_cents_desc (q : TaskRows) : TaskRows :=
  merge_sort higher_pay q.

(** [.order('created_at', { ascending: false })] *)
Definition order_created_at_desc (q : TaskRows) : TaskRows :=
  merge_sort newer q.

(** [.limit(n)] *)
Definition limit (n : nat) (q : TaskRows) : TaskRows := take n q.

(** Awaiting a built query: the rows of [from('tasks')] through the
    builder, each joined with its poster's profile. *)
Definition select_tasks (build : TaskRows → TaskRows)
  : Query (list (uuid * Task.t * option Profile.t)) :=
  fun s =>
    (s, (fun x => (x, profiles s !! Task.poster_id x.2)) <$>
          build (map_to_list (tasks s))).

(** Awaiting a built query that compares INTEGER columns with [literals]:
    a literal out of the range of the type fails the request. *)
Definition select_tasks_comparing (literals : list Z) (build : TaskRows → TaskRows)
  : Query (DbError + list (uuid * Task.t * option Profile.t)) :=
  fun s =>
    if forallb Schema.int4 literals
    then (s, inr (select_tasks build s).2)
    else (s, inl NumericValueOutOfRange).

End Db.

(** ** Server actions *)

(** [{ success, data?, error? }] *)
Inductive ActionResult (T : Type) : Type :=
  | Success (data : T)
  | Failure (error : string).
Arguments Success {T} data.
Arguments Failure {T} error.

Definition is_success {T} (r : ActionResult T) : bool :=
  match r with
  | Success _ => true
  | Failure _ => false
  end.

(** An async function: a result, or an awaited statement and what follows
    it. *)
Inductive Action (A : Type) : Type :=
  | Return (a : A)
  | Await {R : Type} (q : Query R) (k : R → Action A).
Arguments Return {A} a.
Arguments Await {A R} q k.

Notation "x <- q ;; k" := (Await q (fun x => k))
  (at level 100, q at next level, right associativity, only parsing).

(** A call that runs alone: every statement sees the store its predecessor
    left. *)
Fixpoint run {A} (p : Action A) (s : Store) : Store * A :=
  match p with
  | Return a => (s, a)
  | Await q k => let '(s', r) := q s in run (k r) s'
  end.

(** Two calls in flight: [sched] picks which of them takes its next
    statement ([true] for the first); when it is used up, or a call has
    returned, what remains runs to its end. *)
Fixpoint race {A B} (sched : list bool) (p : Action A) (q : Action B) (s : Store)
  : Store * A * B :=
  match sched with
  | [] =>
      let '(s1, a) := run p s in
      let '(s2, b) := run q s1 in (s2, a, b)
  | true :: sched' =>
      match p with
      | Return a => let '(s2, b) := run q s in (s2, a, b)
      | Await st k => let '(s1, r) := st s in race sched' (k r) q s1
      end
  | false :: sched' =>
      match q with
      | Return b => let '(s1, a) := run p s in (s1, a, b)
      | Await st k => let '(s1, r) := st s in race sched' p (k r) s1
      end
  end.

(** The clock read by [new Date()] and [NOW()], and the key drawn by
    [uuid_generate_v4()], during one call. *)
Record Env := mkEnv {
  clock : timestamp;
  new_uuid : uuid
}.

(** *** lib/actions/tasks.ts *)

Module CreateTaskInput.
Record t := mk {
  title : string;
  description : string;
  category : TaskCategory;
  location_text : string;
  time_window : TimeWindow;
  scheduled_at : option IsoString;
  price_cents : Z
}.
End CreateTaskInput.

(** [!profile?.accepted_rules] is false only for a profile row whose gate
    is set. *)
Definition accepted_rules_of (profile : option Profile.t) : bool :=
  match profile with
  | Some p => Profile.accepted_rules p
  | None => false
  end.

(** [scheduledDate <= new Date()]; false for an invalid date. *)
Definition date_le (d : IsoString) (now : timestamp) : bool :=
  match js_time d with
  | None => false
  | Some t => t <=? now
  end.

Definition validateTaskInput (now : timestamp) (input : CreateTaskInput.t)
  : option string :=
  if negb (Js.truthy (CreateTaskInput.title input))
     || (Js.len (Js.trim (CreateTaskInput.title input)) =? 0)
  then Some "Title is required"
  else if 80 <? Js.len (CreateTaskInput.title input)
  then Some "Title must be 80 characters or less"
  else if negb (Js.truthy (CreateTaskInput.description input))
          || (Js.len (Js.trim (CreateTaskInput.description input)) =? 0)
  then Some "Description is required"
  else if 1000 <? Js.len (CreateTaskInput.description input)
  then Some "Description must be 1000 characters or less"
  else if negb (Js.truthy (CreateTaskInput.location_text input))
          || (Js.len (Js.trim (CreateTaskInput.location_text input)) =? 0)
  then Some "Location is required"
  else if 120 <? Js.len (CreateTaskInput.location_text input)
  then Some "Location must be 120 characters or less"
  else if CreateTaskInput.price_cents input <? 500
  then Some "Minimum price is $5.00"
  else if 50000 <? CreateTaskInput.price_cents input
  then Some "Maximum price is $500.00"
  else if bool_decide (CreateTaskInput.time_window input = SCHEDULED)
  then match CreateTaskInput.scheduled_at input with
       | None => Some "Scheduled time is required"
       | Some d =>
           if date_le d now then Some "Scheduled time must be in the future"
           else None
       end
  else None.

Definition createTask (env : Env) (user : option uuid) (input : CreateTaskInput.t)
  : Action (ActionResult (uuid * Task.t)) :=
  match user with
  | None => Return (Failure "Not authenticated")
  | Some uid =>
      profile <- Db.select_profile uid ;;
      if negb (accepted_rules_of profile)
      then Return (Failure "You must accept the rules before posting")
      else
        match validateTaskInput (clock env) input with
        | Some validationError => Return (Failure validationError)
        | None =>
            res <- Db.insert_task (new_uuid env) (clock env)
                     (TaskInsert.mk uid OPEN
                        (Js.trim (CreateTaskInput.title input))
                        (Js.trim (CreateTaskInput.description input))
                        (CreateTaskInput.category input)
                        (Js.trim (CreateTaskInput.location_text input))
                        (CreateTaskInput.time_window input)
                        (if bool_decide (CreateTaskInput.time_window input = SCHEDULED)
                         then CreateTaskInput.scheduled_at input else None)
                        (CreateTaskInput.price_cents input)) ;;
            match res with
            | inl _ => Return (Failure "Failed to create task")
            | inr task => Return (Success task)
            end
        end
  end.

Module UpdateTaskInput.
Record t := mk {
  title : option string;
  description : option string;
  price_cents : option Z
}.
End UpdateTaskInput.

(** [input.title && ..]: the field is given and is not the empty string. *)
Definition given (field : option string) : option string :=
  match field with
  | Some v => if Js.truthy v then Some v else None
  | None => None
  end.

(** The object built by the three conditional spreads. *)
Definition updateTask_patch (input : UpdateTaskInput.t) (r : Task.t) : Task.t :=
  let r1 := match given (UpdateTaskInput.title input) with
            | Some v => Task.set_title (Js.trim v) r
            | None => r
            end in
  let r2 := match given (UpdateTaskInput.description input) with
            | Some v => Task.set_description (Js.trim v) r1
            | None => r1
            end in
  match UpdateTaskInput.price_cents input with
  | Some p => Task.set_price_cents p r2
  | None => r2
  end.

(** The body of the update: [None] for the object without any key. *)
Definition updateTask_body (input : UpdateTaskInput.t) : option (Task.t → Task.t) :=
  match given (UpdateTaskInput.title input), given (UpdateTaskInput.description input),
        UpdateTaskInput.price_cents input with
  | None, None, None => None
  | _, _, _ => Some (updateTask_patch input)
  end.

Definition updateTask (user : option uuid) (taskId : uuid) (input : UpdateTaskInput.t)
  : Action (ActionResult Task.t) :=
  match user with
  | None => Return (Failure "Not authenticated")
  | Some uid =>
      task <- Db.select_task taskId ;;
      match task with
      | None => Return (Failure "Task not found")
      | Some task =>
          if bool_decide (Task.poster_id task ≠ uid)
          then Return (Failure "You can only edit your own tasks")
          else if bool_decide (Task.status task ≠ OPEN)
          then Return (Failure "Can only edit tasks that are still open")
          else if match given (UpdateTaskInput.title input) with
                  | Some v => 80 <? Js.len v
                  | None => false
                  end
          then Return (Failure "Title must be 80 characters or less")
          else if match given (UpdateTaskInput.description input) with
                  | Some v => 1000 <? Js.len v
                  | None => false
                  end
          then Return (Failure "Description must be 1000 characters or less")
          else if match UpdateTaskInput.price_cents input with
                  | Some p => (p <? 500) || (50000 <? p)
                  | None => false
                  end
          then Return (Failure "Price must be between $5 and $500")
          else
            res <- Db.update_task_returning taskId (updateTask_body input) ;;
            match res with
            | inl _ => Return (Failure "Failed to update task")
            | inr updatedTask => Return (Success updatedTask)
            end
      end
  end.

Definition acceptTask_patch (uid : uuid) (now : timestamp) (r : Task.t) : Task.t :=
  Task.set_accepted_at (Some now)
    (Task.set_status ACCEPTED (Task.set_accepted_by_user_id (Some uid) r)).

Definition system_message (taskId uid : uuid) (body : string) : MessageInsert.t :=
  MessageInsert.mk taskId uid SYSTEM body.

Definition acceptTask (env : Env) (user : option uuid) (taskId : uuid)
  : Action (ActionResult unit) :=
  match user with
  | None => Return (Failure "Not authenticated")
  | Some uid =>
      profile <- Db.select_profile uid ;;
      if negb (accepted_rules_of profile)
      then Return (Failure "You must accept the rules before accepting tasks")
      else
        task <- Db.select_task taskId ;;
        match task with
        | None => Return (Failure "Task not found")
        | Some task =>
            if bool_decide (Task.poster_id task = uid)
            then Return (Failure "You cannot accept your own task")
            else if bool_decide (Task.status task ≠ OPEN)
            then Return (Failure "This task is no longer available")
            else
              blocked <- Db.rpc_is_blocked (Some uid) (Some (Task.poster_id task)) ;;
              if (blocked : bool)
              then Return (Failure "Unable to accept this task")
              else
                updateError <- Db.update_task taskId
                                 (fun r => bool_decide (Task.status r = OPEN))
                                 (acceptTask_patch uid (clock env)) ;;
                match updateError with
                | Some _ =>
                    Return (Failure "Failed to accept task. It may have already been taken.")
                | None =>
                    _ <- Db.insert_message (clock env)
                           (system_message taskId uid
                              "Task accepted! You can now chat to coordinate details.") ;;
                    Return (Success tt)
                end
        end
  end.

Definition cancelTask_patch (now : timestamp) (r : Task.t) : Task.t :=
  Task.set_canceled_at (Some now) (Task.set_status CANCELED r).

Definition cancelTask (env : Env) (user : option uuid) (taskId : uuid)
  : Action (ActionResult unit) :=
  match user with
  | None => Return (Failure "Not authenticated")
  | Some uid =>
      task <- Db.select_task taskId ;;
      match task with
      | None => Return (Failure "Task not found")
      | Some task =>
          let isPoster := bool_decide (Task.poster_id task = uid) in
          let isWorker := bool_decide (Task.accepted_by_user_id task = Some uid) in
          if negb isPoster && negb isWorker
          then Return (Failure "You cannot cancel this task")
          else if bool_decide (Task.status task = COMPLETE)
          then Return (Failure "Cannot cancel a completed task")
          else if bool_decide (Task.status task = CANCELED)
          then Return (Failure "Task is already canceled")
          else if isWorker && bool_decide (Task.status task ≠ ACCEPTED)
          then Return (Failure "Cannot cancel this task")
          else
            updateError <- Db.update_task taskId (fun _ => true)
                             (cancelTask_patch (clock env)) ;;
            match updateError with
            | Some _ => Return (Failure "Failed to cancel task")
            | None =>
                let cancellerRole := if isPoster then "poster" else "worker" in
                _ <- Db.insert_message (clock env)
                       (system_message taskId uid
                          ("Task canceled by the " ++ cancellerRole ++ ".")) ;;
                Return (Success tt)
            end
      end
  end.

Definition completeTask_patch (now : timestamp) (r : Task.t) : Task.t :=
  Task.set_completed_at (Some now) (Task.set_status COMPLETE r).

Definition completeTask (env : Env) (user : option uuid) (taskId : uuid)
  : Action (ActionResult unit) :=
  match user with
  | None => Return (Failure "Not authenticated")
  | Some uid =>
      task <- Db.select_task taskId ;;
      match task with
      | None => Return (Failure "Task not found")
      | Some task =>
          if bool_decide (Task.poster_id task ≠ uid)
          then Return (Failure "Only the task poster can mark it complete")
          else if bool_decide (Task.status task ≠ ACCEPTED)
          then Return (Failure "Task must be accepted before it can be completed")
          else
            updateError <- Db.update_task taskId (fun _ => true)
                             (completeTask_patch (clock env)) ;;
            match updateError with
            | Some _ => Return (Failure "Failed to complete task")
            | None =>
                _ <- Db.insert_message (clock env)
                       (system_message taskId uid
                          "Task marked as complete! 🎉 Don't forget to rate each other.") ;;
                Return (Success tt)
            end
      end
  end.

Inductive SortOption := newest | highest_pay.

(** [T | 'ALL'] *)
Inductive OrAll (T : Type) : Type :=
  | ALL
  | Only (v : T).
Arguments ALL {T}.
Arguments Only {T} v.

(** [Partial<TaskFilters>]: every field may be missing. *)
Module TaskFilters.
Record t := mk {
  category : option (OrAll TaskCategory);
  timeWindow : option (OrAll TimeWindow);
  (* a whole number, as the [parseInt] of the feed's form gives; [null] and
     NaN are falsy like the missing field *)
  minPrice : option Z;
  sort : option SortOption
}.
End TaskFilters.

Definition getTasks_query (filters : option TaskFilters.t) : Db.TaskRows → Db.TaskRows :=
  fun rows =>
    let query := Db.in_status [OPEN; ACCEPTED] rows in
    let query := match filters ≫= TaskFilters.category with
                 | Some (Only c) => Db.eq_category c query
                 | _ => query
                 end in
    let query := match filters ≫= TaskFilters.timeWindow with
                 | Some (Only w) => Db.eq_time_window w query
                 | _ => query
                 end in
    let query := match filters ≫= TaskFilters.minPrice with
                 | Some p => if p =? 0 then query else Db.gte_price_cents p query
                 | None => query
                 end in
    let query := match filters ≫= TaskFilters.sort with
                 | Some highest_pay => Db.order_price_cents_desc query
                 | _ => Db.order_created_at_desc query
                 end in
    Db.limit 50 query.

(** The numbers the query compares [price_cents] with. *)
Definition getTasks_literals (filters : option TaskFilters.t) : list Z :=
  match filters ≫= TaskFilters.minPrice with
  | Some p => if p =? 0 then [] else [p]
  | None => []
  end.

Definition getTasks (filters : option TaskFilters.t)
  : Action (ActionResult (list (uuid * Task.t * option Profile.t))) :=
  res <- Db.select_tasks_comparing (getTasks_literals filters) (getTasks_query filters) ;;
  match res with
  | inl _ => Return (Failure "Failed to load tasks")
  | inr tasks => Return (Success tasks)
  end.

(** *** lib/actions/messages.ts *)

Definition sendMessage (env : Env) (user : option uuid) (taskId : uuid) (body : string)
  : Action (ActionResult Message.t) :=
  match user with
  | None => Return (Failure "Not authenticated")
  | Some uid =>
      let trimmedBody := Js.trim body in
      if negb (Js.truthy trimmedBody)
      then Return (Failure "Message cannot be empty")
      else if 2000 <? Js.len trimmedBody
      then Return (Failure "Message is too long (max 2000 characters)")
      else
        task <- Db.select_task taskId ;;
        match task with
        | None => Return (Failure "Task not found")
        | Some task =>
            let isPoster := bool_decide (Task.poster_id task = uid) in
            let isWorker := bool_decide (Task.accepted_by_user_id task = Some uid) in
            if negb isPoster && negb isWorker
            then Return (Failure "You are not a participant in this task")
            else if bool_decide (Task.status task = OPEN)
            then Return (Failure "Chat is only available after a task is accepted")
            else if bool_decide (Task.status task = CANCELED)
            then Return (Failure "Cannot send messages in a canceled task")
            else
              isBlocked <- Db.rpc_is_blocked (Some (Task.poster_id task))
                             (Task.accepted_by_user_id task) ;;
              if (isBlocked : bool)
              then Return (Failure "Unable to send message")
              else
                res <- Db.insert_message (clock env)
                         (MessageInsert.mk taskId uid TEXT trimmedBody) ;;
                match res with
                | inl _ => Return (Failure "Failed to send message")
                | inr message => Return (Success message)
                end
        end
  end.

Definition getMessages (user : option uuid) (taskId : uuid)
  : Action (ActionResult (list (Message.t * option Profile.t))) :=
  match user with
  | None => Return (Failure "Not authenticated")
  | Some uid =>
      task <- Db.select_task taskId ;;
      match task with
      | None => Return (Failure "Task not found")
      | Some task =>
          let isPoster := bool_decide (Task.poster_id task = uid) in
          let isWorker := bool_decide (Task.accepted_by_user_id task = Some uid) in
          if negb isPoster && negb isWorker
          then Return (Failure "You are not a participant in this task")
          else
            messages <- Db.select_messages taskId ;;
            Return (Success messages)
      end
  end.

(** *** lib/actions/ratings.ts *)

Module SubmitRatingInput.
Record t := mk {
  taskId : uuid;
  stars : Z;
  comment : option string
}.
End SubmitRatingInput.

(** [input.comment?.trim() || null] *)
Definition comment_or_null (comment : option string) : option string :=
  match comment with
  | Some c => given (Some (Js.trim c))
  | None => None
  end.

Definition submitRating (env : Env) (user : option uuid) (input : SubmitRatingInput.t)
  : Action (ActionResult Rating.t) :=
  match user with
  | None => Return (Failure "Not authenticated")
  | Some uid =>
      if (SubmitRatingInput.stars input <? 1) || (5 <? SubmitRatingInput.stars input)
      then Return (Failure "Rating must be 1-5 stars")
      else if match given (SubmitRatingInput.comment input) with
              | Some c => 500 <? Js.len c
              | None => false
              end
      then Return (Failure "Comment must be 500 characters or less")
      else
        task <- Db.select_task (SubmitRatingInput.taskId input) ;;
        match task with
        | None => Return (Failure "Task not found")
        | Some task =>
            if bool_decide (Task.status task ≠ COMPLETE)
            then Return (Failure "Can only rate completed tasks")
            else
              let isPoster := bool_decide (Task.poster_id task = uid) in
              let isWorker := bool_decide (Task.accepted_by_user_id task = Some uid) in
              if negb isPoster && negb isWorker
              then Return (Failure "You are not a participant in this task")
              else
                let rateeId := if isPoster then Task.accepted_by_user_id task
                               else Some (Task.poster_id task) in
                match rateeId with
                | None => Return (Failure "No one to rate")
                | Some rateeId =>
                    existingRating <- Db.select_rating (SubmitRatingInput.taskId input) uid ;;
                    match existingRating with
                    | Some _ => Return (Failure "You have already rated this task")
                    | None =>
                        res <- Db.insert_rating (clock env)
                                 (RatingInsert.mk (SubmitRatingInput.taskId input) uid rateeId
                                    (SubmitRatingInput.stars input)
                                    (comment_or_null (SubmitRatingInput.comment input))) ;;
                        match res with
                        | inl _ => Return (Failure "Failed to submit rating")
                        | inr rating => Return (Success rating)
                        end
                    end
                end
        end
  end.

(** ** Row-security policies of the reads *)

Module Policy.

(** [tasks_read], for the role [authenticated]: the viewer is blocked
    neither with the poster nor with the acceptor of the row. *)
Definition tasks_read (s : Store) (viewer : option uuid) (r : Task.t) : bool :=
  match viewer with
  | Some uid =>
      negb (Schema.is_blocked s (Some uid) (Some (Task.poster_id r)))
      && (bool_decide (Task.accepted_by_user_id r = None)
          || negb (Schema.is_blocked s (Some uid) (Task.accepted_by_user_id r)))
  | None => false
  end.

(** [messages_read]: the reader is the poster or the accepted worker of
    the message's task. *)
Definition messages_read (s : Store) (uid : uuid) (m : Message.t) : bool :=
  match tasks s !! Message.task_id m with
  | Some t =>
      bool_decide (Task.poster_id t = uid)
      || bool_decide (Task.accepted_by_user_id t = Some uid)
  | None => false
  end.

End Policy.

(** ** Vocabulary of the properties *)

(** An invariant of the store that every statement of an action keeps,
    whatever the store it meets and whatever its predecessors returned. *)
Fixpoint preserves {A} (I : Store → Prop) (p : Action A) : Prop :=
  match p with
  | Return _ => True
  | Await q k => (∀ s, I s → I (q s).1) ∧ ∀ r, preserves I (k r)
  end.

(** A property of every row of [tasks]. *)
Definition rows (P : Task.t → Prop) (s : Store) : Prop :=
  map_Forall (fun _ r => P r) (tasks s).

(** [scheduled_at] is present exactly on the rows of the SCHEDULED window. *)
Definition scheduled_iff (r : Task.t) : Prop :=
  is_Some (Task.scheduled_at r) ↔ Task.time_window r = SCHEDULED.

Definition all_scheduled_iff : Store → Prop := rows scheduled_iff.

(** Every task row satisfies the CHECK and FOREIGN KEY constraints of its
    table. *)
Definition consistent (s : Store) : Prop :=
  map_Forall (fun _ r => Schema.task_checks r = true ∧ task_fks s r = true) (tasks s).

(** An OPEN task has no acceptor yet. *)
Definition open_unassigned : Store → Prop :=
  rows (fun r => Task.status r = OPEN → Task.accepted_by_user_id r = None).

(** One call of a lifecycle handler. *)
Inductive Call :=
  | CreateTask (env : Env) (user : option uuid) (input : CreateTaskInput.t)
  | UpdateTask (user : option uuid) (taskId : uuid) (input : UpdateTaskInput.t)
  | AcceptTask (env : Env) (user : option uuid) (taskId : uuid)
  | CancelTask (env : Env) (user : option uuid) (taskId : uuid)
  | CompleteTask (env : Env) (user : option uuid) (taskId : uuid).

Definition perform (s : Store) (c : Call) : Store :=
  match c with
  | CreateTask env user input => (run (createTask env user input) s).1
  | UpdateTask user taskId input => (run (updateTask user taskId input) s).1
  | AcceptTask env user taskId => (run (acceptTask env user taskId) s).1
  | CancelTask env user taskId => (run (cancelTask env user taskId) s).1
  | CompleteTask env user taskId => (run (completeTask env user taskId) s).1
  end.

Definition perform_all (calls : list Call) (s : Store) : Store :=
  foldl perform s calls.

(** The columns an edit leaves alone. *)
Definition edit_frame (r r' : Task.t) : Prop :=
  Task.poster_id r' = Task.poster_id r
  ∧ Task.accepted_by_user_id r' = Task.accepted_by_user_id r
  ∧ Task.status r' = Task.status r
  ∧ Task.category r' = Task.category r
  ∧ Task.location_text r' = Task.location_text r
  ∧ Task.time_window r' = Task.time_window r
  ∧ Task.scheduled_at r' = Task.scheduled_at r
  ∧ Task.created_at r' = Task.created_at r
  ∧ Task.accepted_at r' = Task.accepted_at r
  ∧ Task.completed_at r' = Task.completed_at r
  ∧ Task.canceled_at r' = Task.canceled_at r.


Definition participant (uid : uuid) (r : Task.t) : Prop :=
  Task.poster_id r = uid ∨ Task.accepted_by_user_id r = Some uid.

(** The other participant of a task, seen from [uid]. *)
Definition other_participant (uid : uuid) (r : Task.t) : option uuid :=
  if bool_decide (Task.poster_id r = uid) then Task.accepted_by_user_id r
  else Some (Task.poster_id r).

Definition system_message_of (taskId : uuid) (m : Message.t) : Prop :=
  Message.task_id m = taskId ∧ Message.type m = SYSTEM.

(** Between two stores, the row of [taskId] changed status and exactly one
    system message of the task was appended. *)
Definition transition_with_message (before after : Store) (taskId : uuid) : Prop :=
  (∃ r r', tasks before !! taskId = Some r
           ∧ tasks after !! taskId = Some r'
           ∧ Task.status r' ≠ Task.status r)
  ∧ ∃ m, messages after = (messages before ++ [m])%list ∧ system_message_of taskId m.

(** Between two stores, neither the row of [taskId] nor the message table
    changed. *)
Definition no_effect (before after : Store) (taskId : uuid) : Prop :=
  tasks after !! taskId = tasks before !! taskId
  ∧ messages after = messages before.

Definition as_a_unit (before after : Store) (taskId : uuid) : Prop :=
  transition_with_message before after taskId ∨ no_effect before after taskId.

(** The rules-acceptance gate of the caller's profile. *)
Definition passed_rules_gate (s : Store) (user : option uuid) : bool :=
  match user with
  | Some uid => accepted_rules_of (profiles s !! uid)
  | None => false
  end.

(** A scheduled time that the database reads as a time after [now]. *)
Definition in_future (now : timestamp) (d : option IsoString) : Prop :=
  ∃ x t, d = Some x ∧ pg_time x = Some t ∧ now < t.

(** A scheduled time that is missing, or that JavaScript reads as a time
    not after [now]: the two cases [validateTaskInput] tests. *)
Definition not_after (now : timestamp) (d : option IsoString) : Prop :=
  d = None ∨ ∃ x t, d = Some x ∧ js_time x = Some t ∧ t ≤ now.

(** An input of [createTask] whose texts or price are outside the bounds
    of the task form. *)
Definition text_or_price_violated (input : CreateTaskInput.t) : Prop :=
  Js.trim (CreateTaskInput.title input) = ""
  ∨ 80 < Js.len (CreateTaskInput.title input)
  ∨ Js.trim (CreateTaskInput.description input) = ""
  ∨ 1000 < Js.len (CreateTaskInput.description input)
  ∨ Js.trim (CreateTaskInput.location_text input) = ""
  ∨ 120 < Js.len (CreateTaskInput.location_text input)
  ∨ CreateTaskInput.price_cents input < 500
  ∨ 50000 < CreateTaskInput.price_cents input.

(** An input of [createTask] outside the bounds of the task form: the
    scheduled time of a SCHEDULED task is the time the row would hold. *)
Definition bound_violated (now : timestamp) (input : CreateTaskInput.t) : Prop :=
  text_or_price_violated input
  ∨ (CreateTaskInput.time_window input = SCHEDULED
     ∧ ¬ in_future now (CreateTaskInput.scheduled_at input)).

(** An input that the tests of [validateTaskInput] turn down. *)
Definition turned_down (now : timestamp) (input : CreateTaskInput.t) : Prop :=
  text_or_price_violated input
  ∨ (CreateTaskInput.time_window input = SCHEDULED
     ∧ not_after now (CreateTaskInput.scheduled_at input)).

(** The database can read the scheduled time that a SCHEDULED input
    sends. *)
Definition schedule_readable (input : CreateTaskInput.t) : Prop :=
  CreateTaskInput.time_window input = SCHEDULED →
  ∃ x, CreateTaskInput.scheduled_at input = Some x ∧ is_Some (pg_time x).



(** The ratings table holds no self-rating and one row at most for a task
    and a rater. *)
Definition ratings_ok (s : Store) : Prop :=
  Forall (fun r => Rating.rater_id r ≠ Rating.ratee_id r) (ratings s)
  ∧ NoDup ((fun r => (Rating.task_id r, Rating.rater_id r)) <$> ratings s).

(** ** A small campus *)

Definition member (email : string) (accepted : bool) : Profile.t :=
  Profile.mk email None accepted 0.

(** Poster 10, workers 20 and 30, and 40 who has not accepted the rules. *)
Definition campus : gmap uuid Profile.t :=
  <[10%N := member "poster@uci.edu" true]>
    (<[20%N := member "worker@uci.edu" true]>
       (<[30%N := member "other@uci.edu" true]>
          (<[40%N := member "new@uci.edu" false]> ∅))).

Definition pickup : Task.t :=
  Task.mk 10%N None OPEN "Pickup" "Bring my parcel from the mail room" ERRAND
    "Aldrich Park" NOW None 1000 5 None None None.

(** The campus with one OPEN task, posted by 10 under key 1. *)
Definition posted : Store :=
  mkStore campus (<[1%N := pickup]> ∅) [] [] [].

Definition at_time (t : timestamp) : Env := mkEnv t 2%N.

(** 20 has accepted the task. *)
Definition accepted : Store :=
  (run (acceptTask (at_time 100) (Some 20%N) 1%N) posted).1.

(** The poster has then canceled it. *)
Definition canceled : Store :=
  (run (cancelTask (at_time 200) (Some 10%N) 1%N) accepted).1.

(** Or the poster has marked it complete. *)
Definition completed : Store :=
  (run (completeTask (at_time 200) (Some 10%N) 1%N) accepted).1.

Definition pickup_input : CreateTaskInput.t :=
  CreateTaskInput.mk "Pickup" "Bring my parcel from the mail room" ERRAND
    "Aldrich Park" SCHEDULED (Some (ValidDate 500)) 1000.

(** The row of [taskId] moved to status [st], with its system message. *)
Definition moved_to (st : TaskStatus) (before after : Store) (taskId : uuid) : Prop :=
  transition_with_message before after taskId
  ∧ ∃ r', tasks after !! taskId = Some r' ∧ Task.status r' = st.

(** The conditions under which a message may be written. *)
Definition may_send (s : Store) (user : option uuid) (taskId : uuid) (body : string)
  : Prop :=
  ∃ uid r,
    user = Some uid ∧ tasks s !! taskId = Some r
    ∧ participant uid r
    ∧ (Task.status r = ACCEPTED ∨ Task.status r = COMPLETE)
    ∧ Schema.is_blocked s (Some (Task.poster_id r)) (Task.accepted_by_user_id r) = false
    ∧ Js.trim body ≠ "" ∧ Js.len (Js.trim body) ≤ 2000.

(** The two accept attempts on the posted task. *)
Definition first_accept : Action (ActionResult unit) :=
  acceptTask (at_time 100) (Some 20%N) 1%N.

Definition second_accept : Action (ActionResult unit) :=
  acceptTask (at_time 101) (Some 30%N) 1%N.

(** The poster cancels the posted task, and sends the same call again. *)
Definition first_cancel : Action (ActionResult unit) :=
  cancelTask (at_time 200) (Some 10%N) 1%N.

Definition second_cancel : Action (ActionResult unit) :=
  cancelTask (at_time 201) (Some 10%N) 1%N.

(** A SCHEDULED input whose time is the string 'epoch': not a date for
    [new Date], the start of 1970 for the database. *)
Definition epoch_input : CreateTaskInput.t :=
  CreateTaskInput.mk "Pickup" "Bring my parcel from the mail room" ERRAND
    "Aldrich Park" SCHEDULED (Some (DateString None (Some 0))) 1000.

(** The row [createTask] stores for [pickup_input], posted by 20 at time 50. *)
Definition scheduled_pickup : Task.t :=
  Task.mk 20%N None OPEN "Pickup" "Bring my parcel from the mail room" ERRAND
    "Aldrich Park" SCHEDULED (Some 500) 1000 50 None None None.

(** * The rest of the actions, the utilities and the routing *)

(** ** More of JavaScript strings *)

Module JsText.

(** [toLowerCase] on one code unit below 256: A-Z and the accented capitals
    (all of 192..222 but the multiplication sign) move up by 32. *)
Definition toLowerCase_unit (c : ascii) : ascii :=
  let n := N_of_ascii c in
  if ((65 <=? n) && (n <=? 90)
      || (192 <=? n) && (n <=? 222) && negb (n =? 215))%N
  then ascii_of_N (n + 32)
  else c.

Fixpoint toLowerCase (s : string) : string :=
  match s with
  | EmptyString => EmptyString
  | String c s' => String (toLowerCase_unit c) (toLowerCase s')
  end.

(** [s.endsWith(suffix)] *)
Fixpoint endsWith (s suffix : string) : bool :=
  if String.eqb s suffix then true
  else match s with
       | EmptyString => false
       | String _ s' => endsWith s' suffix
       end.

(** [s.startsWith(start)] *)
Definition startsWith (s start : string) : bool := String.prefix start s.

(** [s.split(sep)[0]] for a separator of one code unit. *)
Fixpoint split_first (sep : ascii) (s : string) : string :=
  match s with
  | EmptyString => EmptyString
  | String c s' => if Ascii.eqb c sep then EmptyString else String c (split_first sep s')
  end.

(** What follows the first [sep] in [s], when there is one. *)
Fixpoint after_first (sep : ascii) (s : string) : option string :=
  match s with
  | EmptyString => None
  | String c s' => if Ascii.eqb c sep then Some s' else after_first sep s'
  end.

(** [s.slice(0, e)]: a negative [e] counts from the end. *)
Definition slice0 (s : string) (e : Z) : string :=
  let n := Js.len s in
  let stop := if e <? 0 then Z.max (n + e) 0 else Z.min e n in
  String.substring 0 (Z.to_nat stop) s.

End JsText.

(** ** lib/utils.ts *)

Definition truncate (text : string) (maxLength : Z) : string :=
  if Js.len text <=? maxLength then text
  else JsText.slice0 text (maxLength - 3) ++ "...".

Definition isValidUCIEmail (email : string) : bool :=
  let normalized := Js.trim (JsText.toLowerCase email) in
  JsText.endsWith normalized "@uci.edu".

Definition getUCINetID (email : string) : string :=
  JsText.split_first "@" (JsText.toLowerCase email).

(** [profile.display_name || getUCINetID(profile.email)] *)
Definition getDisplayName (profile : Profile.t) : string :=
  match given (Profile.display_name profile) with
  | Some name => name
  | None => getUCINetID (Profile.email profile)
  end.

(** [n === 1 ? '' : 's'] *)
Definition plural (n : Z) : string := if n =? 1 then "" else "s".

Section relative_time.

(** [d.toLocaleDateString('en-US', { month: 'short', day: 'numeric' })], the
    formatter of the platform. *)
Context (toLocaleDateString : IsoString → string).

(** For an invalid date every difference is NaN and every comparison is
    false, which leaves the last branch. *)
Definition formatRelativeTime (now : timestamp) (date : IsoString) : string :=
  match js_time date with
  | None => toLocaleDateString date
  | Some t =>
      let diffMs := now - t in
      let diffSec := diffMs / 1000 in
      let diffMin := diffSec / 60 in
      let diffHour := diffMin / 60 in
      let diffDay := diffHour / 24 in
      let diffWeek := diffDay / 7 in
      if diffSec <? 60 then "just now"
      else if diffMin <? 60 then pretty diffMin ++ " min" ++ plural diffMin ++ " ago"
      else if diffHour <? 24 then pretty diffHour ++ " hour" ++ plural diffHour ++ " ago"
      else if diffDay <? 7 then pretty diffDay ++ " day" ++ plural diffDay ++ " ago"
      else if diffWeek <? 4 then pretty diffWeek ++ " week" ++ plural diffWeek ++ " ago"
      else toLocaleDateString date
  end.

End relative_time.

(** ** Constraints of the profiles and blocks tables *)

(** email_format: [email ~* '^[^@]+@uci\.edu$']. *)
Definition email_format (email : string) : bool :=
  match JsText.after_first "@" email with
  | Some domain =>
      negb (String.eqb (JsText.split_first "@" email) "")
      && String.eqb (JsText.toLowerCase domain) "uci.edu"
  | None => false
  end.

(** email_format and display_name_length. *)
Definition profile_checks (p : Profile.t) : bool :=
  email_format (Profile.email p)
  && match Profile.display_name p with
     | None => true
     | Some name => Js.len name <=? 50
     end.

Definition set_profiles (s : Store) (p : gmap uuid Profile.t) : Store :=
  mkStore p (tasks s) (messages s) (ratings s) (blocks s).

Definition set_blocks (s : Store) (b : list Block.t) : Store :=
  mkStore (profiles s) (tasks s) (messages s) (ratings s) b.

(** The object passed to [from('profiles').update]: the columns it names. *)
Module ProfileUpdate.
Record t := mk {
  accepted_rules : option bool;
  display_name : option (option string)
}.
End ProfileUpdate.

Definition apply_profile_update (u : ProfileUpdate.t) (p : Profile.t) : Profile.t :=
  Profile.mk (Profile.email p)
    (match ProfileUpdate.display_name u with
     | Some name => name
     | None => Profile.display_name p
     end)
    (match ProfileUpdate.accepted_rules u with
     | Some b => b
     | None => Profile.accepted_rules p
     end)
    (Profile.created_at p).

Definition same_block (blocker blocked : uuid) (b : Block.t) : Prop :=
  Block.blocker_id b = blocker ∧ Block.blocked_id b = blocked.

Global Instance same_block_dec blocker blocked b : Decision (same_block blocker blocked b).
Proof. unfold same_block. apply _. Defined.

Global Instance Block_eq_dec : EqDecision Block.t.
Proof. solve_decision. Defined.

Global Instance Profile_eq_dec : EqDecision Profile.t.
Proof. solve_decision. Defined.

Module DbAccounts.

(** [from('profiles').update(u).eq('id', uid)]: no row, no error. *)
Definition update_profile (uid : uuid) (u : ProfileUpdate.t) : Query (option DbError) :=
  fun s =>
    match profiles s !! uid with
    | None => (s, None)
    | Some p =>
        let p' := apply_profile_update u p in
        if negb (profile_checks p') then (s, Some CheckViolation)
        else (set_profiles s (<[uid := p']> (profiles s)), None)
    end.

Definition email_taken (s : Store) (email : string) : bool :=
  bool_decide (map_Exists (fun _ p => Profile.email p = email) (profiles s)).

(** [from('profiles').upsert({ id, email }, { onConflict: 'id',
    ignoreDuplicates: true })]: INSERT .. ON CONFLICT (id) DO NOTHING, with
    the column defaults for the rest. *)
Definition upsert_profile (now : timestamp) (uid : uuid) (email : string)
  : Query (option DbError) :=
  fun s =>
    let p := Profile.mk email None false now in
    if negb (profile_checks p) then (s, Some CheckViolation)
    else if has_profile s uid then (s, None)
    else if email_taken s email then (s, Some UniqueViolation)
    else (set_profiles s (<[uid := p]> (profiles s)), None).

(** [from('blocks').select('id').eq('blocker_id', a).eq('blocked_id', b)
    .single()] *)
Definition select_block (blocker blocked : uuid) : Query (option Block.t) :=
  fun s => (s, single (filter (same_block blocker blocked) (blocks s))).

(** [from('blocks').insert({ blocker_id, blocked_id })]: the foreign keys,
    no_self_block and the unique pair. *)
Definition insert_block (blocker blocked : uuid) : Query (option DbError) :=
  fun s =>
    if negb (has_profile s blocker && has_profile s blocked)
    then (s, Some ForeignKeyViolation)
    else if bool_decide (blocker = blocked) then (s, Some CheckViolation)
    else if bool_decide (Exists (same_block blocker blocked) (blocks s))
    then (s, Some UniqueViolation)
    else (set_blocks s (blocks s ++ [Block.mk blocker blocked]), None).

(** [from('blocks').delete().eq('blocker_id', a).eq('blocked_id', b)] *)
Definition delete_block (blocker blocked : uuid) : Query (option DbError) :=
  fun s =>
    (set_blocks s (filter (fun b => ¬ same_block blocker blocked b) (blocks s)), None).

(** [.eq('poster_id', uid)] *)
Definition eq_poster_id (uid : uuid) (q : Db.TaskRows) : Db.TaskRows :=
  filter (fun x => Task.poster_id x.2 = uid) q.

(** [.eq('accepted_by_user_id', uid)] *)
Definition eq_accepted_by_user_id (uid : uuid) (q : Db.TaskRows) : Db.TaskRows :=
  filter (fun x => Task.accepted_by_user_id x.2 = Some uid) q.

End DbAccounts.

(** ** lib/actions/auth.ts *)

Definition acceptRules (user : option uuid) (userId : uuid) : Action (ActionResult unit) :=
  match user with
  | None => Return (Failure "Not authenticated")
  | Some uid =>
      if bool_decide (uid ≠ userId) then Return (Failure "Unauthorized")
      else
        error <- DbAccounts.update_profile userId (ProfileUpdate.mk (Some true) None) ;;
        match error with
        | Some _ => Return (Failure "Failed to save. Please try again.")
        | None => Return (Success tt)
        end
  end.

Definition updateDisplayName (user : option uuid) (displayName : string)
  : Action (ActionResult unit) :=
  match user with
  | None => Return (Failure "Not authenticated")
  | Some uid =>
      let trimmed := Js.trim displayName in
      if 50 <? Js.len trimmed
      then Return (Failure "Display name must be 50 characters or less")
      else
        error <- DbAccounts.update_profile uid
                   (ProfileUpdate.mk None (Some (given (Some trimmed)))) ;;
        match error with
        | Some _ => Return (Failure "Failed to save")
        | None => Return (Success tt)
        end
  end.

Definition getCurrentProfile (user : option uuid)
  : Action (ActionResult (option Profile.t)) :=
  match user with
  | None => Return (Success None)
  | Some uid =>
      profile <- Db.select_profile uid ;;
      match profile with
      | None => Return (Failure "Failed to load profile")
      | Some p => Return (Success (Some p))
      end
  end.

(** ** lib/actions/blocks.ts *)

Definition blockUser (user : option uuid) (blockedId : uuid) : Action (ActionResult unit) :=
  match user with
  | None => Return (Failure "Not authenticated")
  | Some uid =>
      if bool_decide (uid = blockedId) then Return (Failure "You cannot block yourself")
      else
        existingBlock <- DbAccounts.select_block uid blockedId ;;
        match existingBlock with
        | Some _ => Return (Failure "User is already blocked")
        | None =>
            blockedUser <- Db.select_profile blockedId ;;
            match blockedUser with
            | None => Return (Failure "User not found")
            | Some _ =>
                error <- DbAccounts.insert_block uid blockedId ;;
                match error with
                | Some _ => Return (Failure "Failed to block user")
                | None => Return (Success tt)
                end
            end
        end
  end.

Definition unblockUser (user : option uuid) (blockedId : uuid) : Action (ActionResult unit) :=
  match user with
  | None => Return (Failure "Not authenticated")
  | Some uid =>
      error <- DbAccounts.delete_block uid blockedId ;;
      match error with
      | Some _ => Return (Failure "Failed to unblock user")
      | None => Return (Success tt)
      end
  end.

Definition isUserBlocked (user : option uuid) (userId : uuid) : Action (ActionResult bool) :=
  match user with
  | None => Return (Success false)
  | Some uid =>
      block <- DbAccounts.select_block uid userId ;;
      Return (Success (bool_decide (is_Some block)))
  end.

(** ** lib/actions/ratings.ts and lib/actions/tasks.ts, the reads *)

Definition hasRated (user : option uuid) (taskId : uuid) : Action (ActionResult bool) :=
  match user with
  | None => Return (Success false)
  | Some uid =>
      rating <- Db.select_rating taskId uid ;;
      Return (Success (bool_decide (is_Some rating)))
  end.

Definition getMyTasks (user : option uuid)
  : Action (ActionResult (list (uuid * Task.t * option Profile.t)
                          * list (uuid * Task.t * option Profile.t))) :=
  match user with
  | None => Return (Failure "Not authenticated")
  | Some uid =>
      posted <- Db.select_tasks
                  (fun rows => Db.order_created_at_desc (DbAccounts.eq_poster_id uid rows)) ;;
      accepted <- Db.select_tasks
                    (fun rows => Db.order_created_at_desc
                                   (DbAccounts.eq_accepted_by_user_id uid rows)) ;;
      Return (Success (posted, accepted))
  end.

(** ** lib/supabase/middleware.ts, the routing of [updateSession] *)

(** [NextResponse.next] and [NextResponse.redirect]; the cookies of the
    session travel with either. *)
Inductive Response :=
  | Next
  | RedirectTo (pathname : string).

Definition publicRoutes : list string := ["/login"; "/auth/callback"; "/auth/confirm"].

Definition updateSession (user : option uuid) (pathname : string) : Response :=
  let isPublicRoute := existsb (fun route => JsText.startsWith pathname route) publicRoutes in
  if negb (bool_decide (is_Some user)) && negb isPublicRoute then RedirectTo "/login"
  else if bool_decide (is_Some user) && String.eqb pathname "/login" then RedirectTo "/"
  else Next.

(** ** app/(main)/layout.tsx *)

Inductive Page :=
  | Render
  | Redirected (pathname : string).

Definition MainLayout (user : option uuid) : Action Page :=
  match user with
  | None => Return (Redirected "/login")
  | Some uid =>
      profile <- Db.select_profile uid ;;
      if negb (accepted_rules_of profile) then Return (Redirected "/rules")
      else Return Render
  end.

(** ** app/(auth)/auth/callback/route.ts *)

(** The user of a session: [user.email] may be missing. *)
Module AuthUser.
Record t := mk {
  id : uuid;
  email : option string
}.
End AuthUser.

(** What [exchangeCodeForSession] answers: the user, or the message of an
    error. *)
Module Exchange.
Record t := mk {
  user : option AuthUser.t;
  exchangeError : option string
}.
End Exchange.

(** Where the callback sends the browser: [/login?error=..] with the
    message before [encodeURIComponent], [/rules] or [/]. *)
Inductive Landing :=
  | ToLogin (error : string)
  | ToRules
  | ToHome.

Definition GET (now : timestamp) (error errorDescription code : option string)
    (exchange : string → Exchange.t) : Action Landing :=
  match given error with
  | Some error =>
      Return (ToLogin (match given errorDescription with
                       | Some d => d
                       | None => error
                       end))
  | None =>
      match given code with
      | None => Return (ToLogin "No authorization code provided")
      | Some code =>
          let session := exchange code in
          match Exchange.exchangeError session, Exchange.user session with
          | None, Some user =>
              match given (AuthUser.email user) with
              | Some email =>
                  if negb (isValidUCIEmail email)
                  then Return (ToLogin "Only @uci.edu email addresses are allowed")
                  else
                    _ <- DbAccounts.upsert_profile now (AuthUser.id user)
                           (JsText.toLowerCase email) ;;
                    profile <- Db.select_profile (AuthUser.id user) ;;
                    match profile with
                    | Some p =>
                        if negb (Profile.accepted_rules p) then Return ToRules
                        else Return ToHome
                    | None => Return ToHome
                    end
              | None => Return (ToLogin "Only @uci.edu email addresses are allowed")
              end
          | exchangeError, _ =>
              Return (ToLogin (match exchangeError ≫= (fun m => given (Some m)) with
                               | Some message => message
                               | None => "Failed to sign in"
                               end))
          end
      end
  end.


(** ** More vocabulary *)

(** A string that does not begin with white space. *)
Definition starts_black (s : string) : Prop :=
  match s with
  | EmptyString => True
  | String c _ => Js.is_white_space c = false
  end.


(** The blocks table holds no self-block and one row at most for an ordered
    pair. *)
Definition blocks_ok (s : Store) : Prop :=
  NoDup (blocks s)
  ∧ Forall (fun b => Block.blocker_id b ≠ Block.blocked_id b) (blocks s).

(** Two stores that differ in the blocks table at most. *)
Definition same_but_blocks (before after : Store) : Prop :=
  profiles after = profiles before ∧ tasks after = tasks before
  ∧ messages after = messages before ∧ ratings after = ratings before.

(** 10 has blocked 20. *)
Definition blocked : Store :=
  (run (blockUser (Some 10%N) 20%N) accepted).1.

(** Every profile row satisfies the CHECK constraints of its table, and no
    two rows share an email. *)
Definition profiles_ok (s : Store) : Prop :=
  map_Forall (fun _ p => profile_checks p = true) (profiles s)
  ∧ ∀ u v p q, profiles s !! u = Some p → profiles s !! v = Some q →
               Profile.email p = Profile.email q → u = v.

(** Two stores that differ in the profiles table at most. *)
Definition same_but_profiles (before after : Store) : Prop :=
  tasks after = tasks before ∧ messages after = messages before
  ∧ ratings after = ratings before ∧ blocks after = blocks before.

(** The profile row with its gate set. *)
Definition with_rules_accepted (p : Profile.t) : Profile.t :=
  Profile.mk (Profile.email p) (Profile.display_name p) true (Profile.created_at p).

(** The profile row with another display name. *)
Definition with_display_name (name : option string) (p : Profile.t) : Profile.t :=
  Profile.mk (Profile.email p) name (Profile.accepted_rules p) (Profile.created_at p).

(** The display name [updateDisplayName] stores for an input. *)
Definition stored_name (displayName : string) : option string :=
  if decide (Js.trim displayName = "") then None else Some (Js.trim displayName).

(** A first sign-in: the session of a new user 50. *)
Definition newcomer : AuthUser.t := AuthUser.mk 50%N (Some "Freshman@UCI.edu").

Definition first_session (code : string) : Exchange.t :=
  Exchange.mk (Some newcomer) None.

(** The row [createTask] stores for an input. *)
Definition created_row (env : Env) (uid : uuid) (input : CreateTaskInput.t) : Task.t :=
  Task.mk uid None OPEN
    (Js.trim (CreateTaskInput.title input))
    (Js.trim (CreateTaskInput.description input))
    (CreateTaskInput.category input)
    (Js.trim (CreateTaskInput.location_text input))
    (CreateTaskInput.time_window input)
    (if bool_decide (CreateTaskInput.time_window input = SCHEDULED)
     then CreateTaskInput.scheduled_at input ≫= pg_time
     else None)
    (CreateTaskInput.price_cents input) (clock env) None None None.


(** What one successful call does to the row of a task. *)
Inductive row_step : Task.t → Task.t → Prop :=
  | step_edit input r :
      Task.status r = OPEN → row_step r (updateTask_patch input r)
  | step_accept uid now r :
      Task.status r = OPEN → Task.poster_id r ≠ uid →
      row_step r (acceptTask_patch uid now r)
  | step_cancel now r :
      Task.status r = OPEN ∨ Task.status r = ACCEPTED →
      row_step r (cancelTask_patch now r)
  | step_complete now r :
      Task.status r = ACCEPTED → row_step r (completeTask_patch now r).

(** The statuses that can follow a status: OPEN, then ACCEPTED, then
    COMPLETE, with CANCELED reachable from OPEN and ACCEPTED. *)
Definition lifecycle_reaches (a b : TaskStatus) : Prop :=
  match a, b with
  | OPEN, _ => True
  | ACCEPTED, OPEN => False
  | ACCEPTED, _ => True
  | COMPLETE, COMPLETE => True
  | CANCELED, CANCELED => True
  | _, _ => False
  end.

(** The columns no call changes. *)
Definition kept_columns (r r' : Task.t) : Prop :=
  Task.poster_id r' = Task.poster_id r
  ∧ Task.category r' = Task.category r
  ∧ Task.location_text r' = Task.location_text r
  ∧ Task.time_window r' = Task.time_window r
  ∧ Task.scheduled_at r' = Task.scheduled_at r
  ∧ Task.created_at r' = Task.created_at r.

(** The terms of a task and its worker. *)
Definition same_terms (r r' : Task.t) : Prop :=
  Task.title r' = Task.title r
  ∧ Task.description r' = Task.description r
  ∧ Task.price_cents r' = Task.price_cents r
  ∧ Task.accepted_by_user_id r' = Task.accepted_by_user_id r
  ∧ Task.accepted_at r' = Task.accepted_at r.

(** How a later row of a task relates to an earlier one. *)
Definition follows (r r' : Task.t) : Prop :=
  lifecycle_reaches (Task.status r) (Task.status r')
  ∧ kept_columns r r'
  ∧ (Task.status r ≠ OPEN → same_terms r r')
  ∧ (Task.status r = COMPLETE ∨ Task.status r = CANCELED → r' = r).

(** The acceptor and the transition timestamps a row carries at each
    status. *)
Definition well_formed (r : Task.t) : Prop :=
  Task.accepted_by_user_id r ≠ Some (Task.poster_id r)
  ∧ (is_Some (Task.accepted_by_user_id r) ↔ is_Some (Task.accepted_at r))
  ∧ match Task.status r with
    | OPEN =>
        Task.accepted_by_user_id r = None
        ∧ Task.completed_at r = None ∧ Task.canceled_at r = None
    | ACCEPTED =>
        is_Some (Task.accepted_by_user_id r)
        ∧ Task.completed_at r = None ∧ Task.canceled_at r = None
    | COMPLETE =>
        is_Some (Task.accepted_by_user_id r)
        ∧ is_Some (Task.completed_at r) ∧ Task.canceled_at r = None
    | CANCELED =>
        Task.completed_at r = None ∧ is_Some (Task.canceled_at r)
    end.

(** ** Any number of calls in flight *)

(** A call whose answer is put aside. *)
Fixpoint forget {A} (p : Action A) : Action unit :=
  match p with
  | Return _ => Return tt
  | Await q k => Await q (fun r => forget (k r))
  end.

(** One call of a handler. *)
Inductive Request :=
  | Lifecycle (c : Call)
  | GetTasks (filters : option TaskFilters.t)
  | GetMyTasks (user : option uuid)
  | SendMessage (env : Env) (user : option uuid) (taskId : uuid) (body : string)
  | GetMessages (user : option uuid) (taskId : uuid)
  | SubmitRating (env : Env) (user : option uuid) (input : SubmitRatingInput.t)
  | HasRated (user : option uuid) (taskId : uuid)
  | AcceptRules (user : option uuid) (userId : uuid)
  | UpdateDisplayName (user : option uuid) (displayName : string)
  | GetCurrentProfile (user : option uuid)
  | BlockUser (user : option uuid) (blockedId : uuid)
  | UnblockUser (user : option uuid) (blockedId : uuid)
  | IsUserBlocked (user : option uuid) (userId : uuid)
  | Callback (now : timestamp) (error errorDescription code : option string)
      (exchange : string → Exchange.t)
  | Layout (user : option uuid).

Definition handler (r : Request) : Action unit :=
  match r with
  | Lifecycle (CreateTask env user input) => forget (createTask env user input)
  | Lifecycle (UpdateTask user taskId input) => forget (updateTask user taskId input)
  | Lifecycle (AcceptTask env user taskId) => forget (acceptTask env user taskId)
  | Lifecycle (CancelTask env user taskId) => forget (cancelTask env user taskId)
  | Lifecycle (CompleteTask env user taskId) => forget (completeTask env user taskId)
  | GetTasks filters => forget (getTasks filters)
  | GetMyTasks user => forget (getMyTasks user)
  | SendMessage env user taskId body => forget (sendMessage env user taskId body)
  | GetMessages user taskId => forget (getMessages user taskId)
  | SubmitRating env user input => forget (submitRating env user input)
  | HasRated user taskId => forget (hasRated user taskId)
  | AcceptRules user userId => forget (acceptRules user userId)
  | UpdateDisplayName user displayName => forget (updateDisplayName user displayName)
  | GetCurrentProfile user => forget (getCurrentProfile user)
  | BlockUser user blockedId => forget (blockUser user blockedId)
  | UnblockUser user blockedId => forget (unblockUser user blockedId)
  | IsUserBlocked user userId => forget (isUserBlocked user userId)
  | Callback now error errorDescription code exchange =>
      forget (GET now error errorDescription code exchange)
  | Layout user => forget (MainLayout user)
  end.

(** The calls in flight share the store: [sched] names, step by step, the
    call that takes its next statement; a call that has returned, or a
    number that names no call, passes its turn. *)
Fixpoint interleaved (sched : list nat) (calls : list (Action unit)) (s : Store) : Store :=
  match sched with
  | [] => s
  | i :: sched' =>
      match calls !! i with
      | Some (Await q k) =>
          let '(s', r) := q s in interleaved sched' (<[i := k r]> calls) s'
      | _ => interleaved sched' calls s
      end
  end.

(** What a store keeps of an earlier one: its messages and ratings as a
    prefix of the later ones, every task row with the columns no call
    changes, every profile row with its email and creation time, and
    every gate that was open. *)
Definition keeps (before after : Store) : Prop :=
  messages before `prefix_of` messages after
  ∧ ratings before `prefix_of` ratings after
  ∧ (∀ id r, tasks before !! id = Some r →
       ∃ r', tasks after !! id = Some r' ∧ kept_columns r r')
  ∧ (∀ uid p, profiles before !! uid = Some p →
       ∃ p', profiles after !! uid = Some p'
             ∧ Profile.email p' = Profile.email p
             ∧ Profile.created_at p' = Profile.created_at p
             ∧ (Profile.accepted_rules p = true → Profile.accepted_rules p' = true)).

(** Every statement of an action leaves a store that keeps the one it
    met. *)
Fixpoint keeping {A} (p : Action A) : Prop :=
  match p with
  | Return _ => True
  | Await q k => (∀ s, keeps s (q s).1) ∧ ∀ r, keeping (k r)
  end.

(** * Properties *)

(** ** Running actions *)

Ltac by_cases :=
  repeat first
    [ done
    | progress cbn [run fst snd is_success] in *
    | progress simplify_eq
    | case_match ].

Ltac bools :=
  repeat match goal with
  | H : negb _ = false |- _ => apply negb_false_iff in H
  | H : negb _ = true |- _ => apply negb_true_iff in H
  | H : _ && _ = true |- _ => apply andb_true_iff in H as [? ?]
  | H : _ || _ = false |- _ => apply orb_false_iff in H as [? ?]
  | H : bool_decide _ = true |- _ => apply bool_decide_eq_true in H
  | H : bool_decide _ = false |- _ => apply bool_decide_eq_false in H
  | H : (_ <? _) = true |- _ => apply Z.ltb_lt in H
  | H : (_ <? _) = false |- _ => apply Z.ltb_ge in H
  | H : (_ <=? _) = true |- _ => apply Z.leb_le in H
  | H : (_ <=? _) = false |- _ => apply Z.leb_gt in H
  | H : (_ =? _) = true |- _ => apply Z.eqb_eq in H
  | H : (_ =? _) = false |- _ => apply Z.eqb_neq in H
  end.

Ltac decide_status :=
  repeat match goal with
  | |- context [bool_decide (@eq TaskStatus ?a ?b)] =>
      first [ rewrite (bool_decide_eq_true_2 (a = b)) by done
            | rewrite (bool_decide_eq_false_2 (a = b)) by done ]
  | |- context [bool_decide (not (@eq TaskStatus ?a ?b))] =>
      first [ rewrite (bool_decide_eq_true_2 (a ≠ b)) by done
            | rewrite (bool_decide_eq_false_2 (a ≠ b)) by congruence ]
  end.

Lemma has_task_false s t : has_task s t = false ↔ tasks s !! t = None.
Proof.
  unfold has_task. rewrite bool_decide_eq_false. symmetry. apply eq_None_not_Some.
Qed.

Lemma has_task_true s t : has_task s t = true ↔ is_Some (tasks s !! t).
Proof. unfold has_task. apply bool_decide_eq_true. Qed.

Lemma has_profile_true s u : has_profile s u = true ↔ is_Some (profiles s !! u).
Proof. unfold has_profile. apply bool_decide_eq_true. Qed.

Lemma accepted_rules_has_profile s u :
  accepted_rules_of (profiles s !! u) = true → has_profile s u = true.
Proof.
  rewrite has_profile_true. by destruct (profiles s !! u).
Qed.

Lemma run_preserves {A} I (p : Action A) s :
  preserves I p → I s → I (run p s).1.
Proof.
  revert s. induction p as [a|R q k IH]; intros s Hp Hs; cbn in *; [done|].
  destruct Hp as [Hq Hk]. specialize (Hq s Hs).
  destruct (q s) as [s1 r]. by apply IH.
Qed.

Lemma race_preserves {A B} I sched (p : Action A) (q : Action B) s :
  preserves I p → preserves I q → I s → I (race sched p q s).1.1.
Proof.
  revert p q s. induction sched as [|[] sched IH]; intros p q s Hp Hq Hs; cbn.
  - pose proof (run_preserves I p s Hp Hs) as H1.
    destruct (run p s) as [s1 a].
    pose proof (run_preserves I q s1 Hq H1) as H2.
    by destruct (run q s1).
  - destruct p as [a|R st k]; cbn in Hp.
    + pose proof (run_preserves I q s Hq Hs) as H2.
      by destruct (run q s).
    + destruct Hp as [Hst Hk]. specialize (Hst s Hs).
      destruct (st s) as [s1 r]. by apply IH.
  - destruct q as [b|R st k]; cbn in Hq.
    + pose proof (run_preserves I p s Hp Hs) as H1.
      by destruct (run p s).
    + destruct Hq as [Hst Hk]. specialize (Hst s Hs).
      destruct (st s) as [s1 r]. by apply IH.
Qed.

(** ** Statements and row invariants *)

Ltac keep :=
  repeat match goal with
  | |- True => exact I
  | |- preserves _ (Return _) => exact I
  | |- preserves _ (Await _ _) =>
      cbn [preserves]; split; [intros ? ?; try done|intros ?]
  | |- preserves _ (match ?x with _ => _ end) => destruct x
  | |- preserves _ _ => progress cbv zeta
  end.

Section row_invariant.
Context (P : Task.t → Prop).

Lemma rows_update_task taskId cond patch s :
  (∀ r, cond r = true → P r → P (patch r)) →
  rows P s → rows P (Db.update_task taskId cond patch s).1.
Proof.
  intros Hpatch Hs. unfold Db.update_task.
  destruct (tasks s !! taskId) as [r|] eqn:Hr; [|done].
  destruct (cond r) eqn:Hc; [|done]. cbn.
  repeat case_match; try done. cbn.
  apply map_Forall_insert_2; [|done]. apply Hpatch; [done|]. by eapply Hs.
Qed.

Lemma rows_update_task_returning taskId body s :
  (∀ patch r, body = Some patch → P r → P (patch r)) →
  rows P s → rows P (Db.update_task_returning taskId body s).1.
Proof.
  intros Hpatch Hs. unfold Db.update_task_returning.
  destruct body as [patch|]; [|done].
  destruct (tasks s !! taskId) as [r|] eqn:Hr; [|done].
  repeat case_match; try done. cbn.
  apply map_Forall_insert_2; [|done]. apply (Hpatch patch); [done|]. by eapply Hs.
Qed.

Lemma updateTask_body_Some input patch :
  updateTask_body input = Some patch → patch = updateTask_patch input.
Proof. unfold updateTask_body. repeat case_match; congruence. Qed.

Lemma rows_insert_message now row s :
  rows P s → rows P (Db.insert_message now row s).1.
Proof. unfold Db.insert_message. by repeat case_match. Qed.

Lemma rows_insert_task new_id now row s :
  (∀ r, Db.insert_task new_id now row s = (set_tasks s (<[new_id := r]> (tasks s)), inr (new_id, r)) → P r) →
  rows P s → rows P (Db.insert_task new_id now row s).1.
Proof.
  intros Hrow Hs. revert Hrow. unfold Db.insert_task.
  repeat case_match; try done; cbn; intros Hrow;
    (apply map_Forall_insert_2; [by apply Hrow|done]).
Qed.

Lemma updateTask_preserves user taskId input :
  (∀ r, P r → P (updateTask_patch input r)) →
  preserves (rows P) (updateTask user taskId input).
Proof.
  intros HP. unfold updateTask. keep. apply rows_update_task_returning; [|done].
  intros patch r ->%updateTask_body_Some. apply HP.
Qed.

Lemma acceptTask_preserves env user taskId :
  (∀ uid now r, Task.status r = OPEN → P r → P (acceptTask_patch uid now r)) →
  preserves (rows P) (acceptTask env user taskId).
Proof.
  intros HP. unfold acceptTask. keep.
  - apply rows_update_task; [|done].
    intros row Hrow%bool_decide_eq_true. by apply HP.
  - by apply rows_insert_message.
Qed.

Lemma cancelTask_preserves env user taskId :
  (∀ now r, P r → P (cancelTask_patch now r)) →
  preserves (rows P) (cancelTask env user taskId).
Proof.
  intros HP. unfold cancelTask. keep;
    (by apply rows_update_task; [intros; apply HP|])
    || by apply rows_insert_message.
Qed.

Lemma completeTask_preserves env user taskId :
  (∀ now r, P r → P (completeTask_patch now r)) →
  preserves (rows P) (completeTask env user taskId).
Proof.
  intros HP. unfold completeTask. keep;
    (by apply rows_update_task; [intros; apply HP|])
    || by apply rows_insert_message.
Qed.

End row_invariant.

(** ** The scheduled-time invariant *)

Lemma validateTaskInput_scheduled now input :
  validateTaskInput now input = None →
  CreateTaskInput.time_window input = SCHEDULED →
  ∃ d, CreateTaskInput.scheduled_at input = Some d ∧ date_le d now = false.
Proof.
  unfold validateTaskInput. intros Hv Hw.
  repeat (case_match; try done); try (by case_bool_decide); eauto.
Qed.

Lemma createTask_preserves_scheduled_iff env user input :
  preserves all_scheduled_iff (createTask env user input).
Proof.
  unfold createTask. destruct user as [uid|]; [|done].
  cbn [preserves]. split; [done|]. intros profile.
  destruct (negb _); [done|].
  destruct (validateTaskInput _ _) eqn:Hv; [done|].
  cbn [preserves]. split; [|by intros []].
  intros s Hs. apply rows_insert_task; [|done].
  intros r. unfold Db.insert_task. cbn [TaskInsert.scheduled_at].
  case_bool_decide as Hw.
  - destruct (validateTaskInput_scheduled _ _ Hv Hw) as (d & -> & _).
    cbn [mbind option_bind]. destruct (pg_time d) as [t|]; [|done].
    repeat (case_match; try done).
    intros [= _ <-]. unfold scheduled_iff. cbn. split; eauto.
  - repeat (case_match; try done).
    intros [= _ <-]. unfold scheduled_iff. cbn. split; [by intros [? [=]]|done].
Qed.

Lemma updateTask_patch_frame input r : edit_frame r (updateTask_patch input r).
Proof.
  unfold updateTask_patch.
  destruct (given (UpdateTaskInput.title input)),
    (given (UpdateTaskInput.description input)),
    (UpdateTaskInput.price_cents input); by repeat split.
Qed.

Lemma perform_preserves_scheduled_iff c s :
  all_scheduled_iff s → all_scheduled_iff (perform s c).
Proof.
  destruct c; cbn; apply run_preserves.
  - apply createTask_preserves_scheduled_iff.
  - apply updateTask_preserves. intros r.
    destruct (updateTask_patch_frame input r) as (_ & _ & _ & _ & _ & Hw & Hs & _).
    unfold scheduled_iff. by rewrite Hw, Hs.
  - by apply acceptTask_preserves.
  - by apply cancelTask_preserves.
  - by apply completeTask_preserves.
Qed.

Lemma perform_all_preserves_scheduled_iff calls s :
  all_scheduled_iff s → all_scheduled_iff (perform_all calls s).
Proof.
  revert s. induction calls as [|c calls IH]; intros s Hs; [done|].
  cbn. apply IH. by apply perform_preserves_scheduled_iff.
Qed.

Lemma createTask_Success env user input s s' id r :
  run (createTask env user input) s = (s', Success (id, r)) →
  s' = set_tasks s (<[id := r]> (tasks s)) ∧ tasks s !! id = None
  ∧ user = Some (Task.poster_id r) ∧ Task.status r = OPEN
  ∧ passed_rules_gate s user = true
  ∧ validateTaskInput (clock env) input = None.
Proof.
  unfold createTask, Db.insert_task, Db.select_profile, passed_rules_gate.
  destruct user as [uid|]; [|done]. intros H.
  by_cases; bools; cbn; by rewrite <-has_task_false.
Qed.

Lemma createTask_Failure env user input s s' e :
  run (createTask env user input) s = (s', Failure e) → s' = s.
Proof.
  unfold createTask, Db.insert_task, Db.select_profile.
  intros H. destruct user as [uid|]; by_cases.
Qed.

(** ** The lifecycle handlers, run alone *)

Lemma update_task_inv taskId cond patch s s' e :
  Db.update_task taskId cond patch s = (s', e) →
  (s' = s ∧ (e = None → ∀ r, tasks s !! taskId = Some r → cond r = false))
  ∨ (∃ r, tasks s !! taskId = Some r ∧ cond r = true ∧ e = None
          ∧ task_fks s (patch r) = true ∧ Schema.task_checks (patch r) = true
          ∧ s' = set_tasks s (<[taskId := patch r]> (tasks s))).
Proof.
  unfold Db.update_task. intros H.
  destruct (tasks s !! taskId) as [r|] eqn:Hr; [|left; by_cases].
  destruct (cond r) eqn:Hc; [|left; by_cases; naive_solver].
  cbn in H. by_cases; bools; [left; by_cases..|right].
  exists r. by repeat split.
Qed.

Lemma update_task_hit taskId cond patch s r :
  tasks s !! taskId = Some r → cond r = true →
  task_fks s (patch r) = true → Schema.task_checks (patch r) = true →
  Db.update_task taskId cond patch s =
    (set_tasks s (<[taskId := patch r]> (tasks s)), None).
Proof. unfold Db.update_task. by intros -> -> -> ->. Qed.

Lemma insert_message_ok now row s :
  has_task s (MessageInsert.task_id row) = true →
  has_profile s (MessageInsert.sender_id row) = true →
  Schema.between 1 2000 (Js.len (MessageInsert.body row)) = true →
  Db.insert_message now row s =
    (set_messages s
       (messages s ++ [Message.mk (MessageInsert.task_id row) (MessageInsert.sender_id row)
                         (MessageInsert.type row) (MessageInsert.body row) now]),
     inr (Message.mk (MessageInsert.task_id row) (MessageInsert.sender_id row)
            (MessageInsert.type row) (MessageInsert.body row) now)).
Proof.
  unfold Db.insert_message, Schema.message_checks. cbn. by intros -> -> ->.
Qed.

Lemma has_task_set_tasks s taskId r :
  has_task (set_tasks s (<[taskId := r]> (tasks s))) taskId = true.
Proof. apply has_task_true. cbn. rewrite lookup_insert_eq. eauto. Qed.

(** What a call of [acceptTask] that runs alone does: it fails and leaves
    the store as it was, or its guards held, the row moved to ACCEPTED and
    one system message was appended. *)
Lemma acceptTask_run env user taskId s :
  (∃ e, run (acceptTask env user taskId) s = (s, Failure e))
  ∨ (∃ uid r,
       user = Some uid ∧ tasks s !! taskId = Some r
       ∧ Task.status r = OPEN ∧ Task.poster_id r ≠ uid
       ∧ passed_rules_gate s user = true
       ∧ Schema.is_blocked s (Some uid) (Some (Task.poster_id r)) = false
       ∧ run (acceptTask env user taskId) s =
           (set_messages
              (set_tasks s (<[taskId := acceptTask_patch uid (clock env) r]> (tasks s)))
              (messages s ++ [Message.mk taskId uid SYSTEM
                                "Task accepted! You can now chat to coordinate details."
                                (clock env)]),
            Success tt)).
Proof.
  unfold acceptTask. destruct user as [uid|]; [|left; eauto].
  cbn [run Db.select_profile Db.select_task Db.rpc_is_blocked].
  destruct (negb _) eqn:Hrules; [left; eauto|].
  cbn [run Db.select_task].
  destruct (tasks s !! taskId) as [r|] eqn:Hr; [|left; eauto].
  case_bool_decide as Hposter; [left; eauto|].
  case_bool_decide as Hopen; [left; eauto|].
  cbn [run Db.rpc_is_blocked].
  destruct (Schema.is_blocked _ _ _) eqn:Hblocked; [left; eauto|].
  cbn [run]. bools.
  destruct (Db.update_task _ _ _ s) as [s1 e] eqn:Hu.
  apply update_task_inv in Hu as [[-> Hmiss]|(r' & Hr' & _ & -> & Hfk & _ & ->)].
  - destruct e as [err|]; [left; eauto|].
    specialize (Hmiss eq_refl r Hr). by apply bool_decide_eq_false in Hmiss.
  - simplify_eq. right. exists uid, r. repeat split; try done. cbn [run].
    rewrite insert_message_ok; [done|apply has_task_set_tasks| |done].
    by apply accepted_rules_has_profile.
Qed.

(** The same for [cancelTask]. *)
Lemma cancelTask_run env user taskId s :
  (∃ e, run (cancelTask env user taskId) s = (s, Failure e))
  ∨ (∃ uid r,
       user = Some uid ∧ tasks s !! taskId = Some r
       ∧ participant uid r
       ∧ Task.status r ≠ COMPLETE ∧ Task.status r ≠ CANCELED
       ∧ (Task.accepted_by_user_id r = Some uid → Task.status r = ACCEPTED)
       ∧ run (cancelTask env user taskId) s =
           (set_messages
              (set_tasks s (<[taskId := cancelTask_patch (clock env) r]> (tasks s)))
              (messages s ++ [Message.mk taskId uid SYSTEM
                                (if bool_decide (Task.poster_id r = uid)
                                 then "Task canceled by the poster."
                                 else "Task canceled by the worker.") (clock env)]),
            Success tt)).
Proof.
  unfold cancelTask. destruct user as [uid|]; [|left; eauto].
  cbn [run Db.select_task].
  destruct (tasks s !! taskId) as [r|] eqn:Hr; [|left; eauto]. cbv zeta.
  destruct (bool_decide (Task.poster_id r = uid)) eqn:Hposter;
    destruct (bool_decide (Task.accepted_by_user_id r = Some uid)) eqn:Hworker;
    destruct (Task.status r) eqn:Hstatus;
    cbn [negb andb]; decide_status; cbn [negb andb];
    try (left; by eauto); cbn [run];
    (destruct (Db.update_task _ _ _ s) as [s1 e] eqn:Hu;
     apply update_task_inv in Hu as [[-> Hmiss]|(r' & Hr' & _ & -> & Hfk & _ & ->)];
     [destruct e as [err|]; [left; by eauto|]; by specialize (Hmiss eq_refl r Hr)|]);
    simplify_eq; right; exists uid, r; rewrite Hposter; bools;
    (repeat split; [by rewrite ?Hstatus; unfold participant; eauto..|]);
    cbn [run];
    (rewrite insert_message_ok; [done|apply has_task_set_tasks| |done]);
    unfold task_fks in Hfk; cbn in Hfk; bools.
  all: change (has_profile s uid = true).
  all: first [by rewrite <-Hposter|by rewrite Hworker in *].
Qed.

(** The same for [completeTask]. *)
Lemma completeTask_run env user taskId s :
  (∃ e, run (completeTask env user taskId) s = (s, Failure e))
  ∨ (∃ uid r,
       user = Some uid ∧ tasks s !! taskId = Some r
       ∧ Task.poster_id r = uid ∧ Task.status r = ACCEPTED
       ∧ run (completeTask env user taskId) s =
           (set_messages
              (set_tasks s (<[taskId := completeTask_patch (clock env) r]> (tasks s)))
              (messages s ++ [Message.mk taskId uid SYSTEM
                                "Task marked as complete! 🎉 Don't forget to rate each other."
                                (clock env)]),
            Success tt)).
Proof.
  unfold completeTask. destruct user as [uid|]; [|left; eauto].
  cbn [run Db.select_task].
  destruct (tasks s !! taskId) as [r|] eqn:Hr; [|left; eauto].
  case_bool_decide as Hposter; [left; eauto|].
  case_bool_decide as Hacc; [left; eauto|].
  cbn [run].
  destruct (Db.update_task _ _ _ s) as [s1 e] eqn:Hu.
  apply update_task_inv in Hu as [[-> Hmiss]|(r' & Hr' & _ & -> & Hfk & _ & ->)].
  - destruct e as [err|]; [left; eauto|]. by specialize (Hmiss eq_refl r Hr).
  - simplify_eq. right. exists (Task.poster_id r), r. repeat split; try done.
    cbn [run]. rewrite insert_message_ok; [done|apply has_task_set_tasks| |done].
    unfold task_fks in Hfk. cbn in Hfk. by bools.
Qed.

(** The same for [updateTask]. *)
Lemma updateTask_run user taskId input s :
  (∃ e, run (updateTask user taskId input) s = (s, Failure e))
  ∨ (∃ r,
       user = Some (Task.poster_id r) ∧ tasks s !! taskId = Some r
       ∧ Task.status r = OPEN
       ∧ run (updateTask user taskId input) s =
           (set_tasks s (<[taskId := updateTask_patch input r]> (tasks s)),
            Success (updateTask_patch input r))).
Proof.
  unfold updateTask. destruct user as [uid|]; [|left; eauto].
  cbn [run Db.select_task].
  destruct (tasks s !! taskId) as [r|] eqn:Hr; [|left; eauto].
  destruct (bool_decide (Task.poster_id r ≠ uid)) eqn:Hposter; [left; eauto|].
  destruct (bool_decide (Task.status r ≠ OPEN)) eqn:Hopen; [left; eauto|].
  bools. apply dec_stable in Hposter. apply dec_stable in Hopen. subst uid.
  repeat (match goal with
          | |- context [if ?b then Return _ else _] => destruct b; [left; by eauto|]
          end).
  cbn [run]. unfold Db.update_task_returning.
  destruct (updateTask_body input) as [patch|] eqn:Hbody; [|left; by eauto].
  apply updateTask_body_Some in Hbody as ->. rewrite Hr.
  repeat (match goal with
          | |- context [if ?b then (s, _) else _] => destruct b; [left; by eauto|]
          end).
  right. exists r. by repeat split.
Qed.

(** ** Messages *)

Lemma insert_message_inv now row s s' res :
  Db.insert_message now row s = (s', res) →
  (∃ e, res = inl e ∧ s' = s)
  ∨ (∃ m, res = inr m
          ∧ m = Message.mk (MessageInsert.task_id row) (MessageInsert.sender_id row)
                  (MessageInsert.type row) (MessageInsert.body row) now
          ∧ s' = set_messages s (messages s ++ [m])).
Proof.
  unfold Db.insert_message. intros H. by_cases; [left; eauto..|right; eauto].
Qed.

Lemma trim_truthy body : Js.truthy (Js.trim body) = true ↔ Js.trim body ≠ "".
Proof. by destruct (Js.trim body). Qed.

Lemma sendMessage_run env user taskId body s :
  (∃ e, run (sendMessage env user taskId body) s = (s, Failure e))
  ∨ (∃ uid r,
       user = Some uid ∧ tasks s !! taskId = Some r
       ∧ participant uid r
       ∧ (Task.status r = ACCEPTED ∨ Task.status r = COMPLETE)
       ∧ Schema.is_blocked s (Some (Task.poster_id r)) (Task.accepted_by_user_id r) = false
       ∧ Js.trim body ≠ "" ∧ Js.len (Js.trim body) ≤ 2000
       ∧ run (sendMessage env user taskId body) s =
           (set_messages s
              (messages s ++ [Message.mk taskId uid TEXT (Js.trim body) (clock env)]),
            Success (Message.mk taskId uid TEXT (Js.trim body) (clock env)))).
Proof.
  unfold sendMessage. destruct user as [uid|]; [|left; eauto]. cbv zeta.
  destruct (negb _) eqn:Hempty; [left; eauto|].
  destruct (2000 <? _) eqn:Hlong; [left; eauto|].
  cbn [run Db.select_task].
  destruct (tasks s !! taskId) as [r|] eqn:Hr; [|left; eauto].
  destruct (negb _ && negb _) eqn:Hpart; [left; eauto|].
  destruct (Task.status r) eqn:Hstatus; decide_status; try (left; by eauto).
  all: cbn [run Db.rpc_is_blocked].
  all: destruct (Schema.is_blocked _ _ _) eqn:Hblocked; [left; by eauto|].
  all: cbn [run].
  all: destruct (Db.insert_message _ _ s) as [s1 res] eqn:Hins.
  all: apply insert_message_inv in Hins as [(e & -> & ->)|(m & -> & -> & ->)];
         [left; by eauto|].
  all: right; exists uid, r; bools; repeat split; eauto.
  all: try by apply trim_truthy.
  all: apply andb_false_iff in Hpart as [H|H]; bools; [by left|by right].
Qed.

Lemma getMessages_run user taskId s :
  (∃ e, run (getMessages user taskId) s = (s, Failure e)
        ∧ ¬ ∃ uid r, user = Some uid ∧ tasks s !! taskId = Some r ∧ participant uid r)
  ∨ (∃ uid r,
       user = Some uid ∧ tasks s !! taskId = Some r ∧ participant uid r
       ∧ run (getMessages user taskId) s =
           (s, Success ((fun m => (m, profiles s !! Message.sender_id m)) <$>
                          merge_sort Db.older
                            (filter (fun m => Message.task_id m = taskId) (messages s))))).
Proof.
  unfold getMessages, participant. destruct user as [uid|]; [|left; naive_solver].
  cbn [run Db.select_task].
  destruct (tasks s !! taskId) as [r|] eqn:Hr; [|left; naive_solver]. cbv zeta.
  destruct (bool_decide (Task.poster_id r = uid)) eqn:Hposter;
    destruct (bool_decide (Task.accepted_by_user_id r = Some uid)) eqn:Hworker;
    bools; cbn [negb andb]; [right; naive_solver..|left; naive_solver].
Qed.

(** ** Ratings *)

Lemma rated_false s taskId rater :
  Db.rated s taskId rater = false ↔
  filter (fun r => Rating.task_id r = taskId ∧ Rating.rater_id r = rater) (ratings s) = [].
Proof.
  unfold Db.rated. induction (ratings s) as [|x l IH]; [done|].
  cbn [existsb]. rewrite filter_cons, orb_false_iff, IH.
  destruct (decide (Rating.task_id x = taskId ∧ Rating.rater_id x = rater)) as [[? ?]|Hn].
  - rewrite andb_false_iff, !bool_decide_eq_false. naive_solver.
  - rewrite andb_false_iff, !bool_decide_eq_false.
    split; [naive_solver|]. intros ->. split; [|done].
    destruct (decide (Rating.task_id x = taskId)); naive_solver.
Qed.

Lemma insert_rating_inv now row s s' res :
  Db.insert_rating now row s = (s', res) →
  (∃ e, res = inl e ∧ s' = s)
  ∨ (∃ r, res = inr r
          ∧ r = Rating.mk (RatingInsert.task_id row) (RatingInsert.rater_id row)
                  (RatingInsert.ratee_id row) (RatingInsert.stars row)
                  (RatingInsert.comment row) now
          ∧ Schema.rating_checks r = true
          ∧ Db.rated s (Rating.task_id r) (Rating.rater_id r) = false
          ∧ s' = set_ratings s (ratings s ++ [r])).
Proof.
  unfold Db.insert_rating. intros H. by_cases; [left; eauto..|right].
  bools. eexists. by repeat split.
Qed.

Lemma submitRating_run env user input s :
  (∃ e, run (submitRating env user input) s = (s, Failure e))
  ∨ (∃ uid r ratee rating,
       user = Some uid
       ∧ tasks s !! SubmitRatingInput.taskId input = Some r
       ∧ Task.status r = COMPLETE ∧ participant uid r
       ∧ other_participant uid r = Some ratee ∧ ratee ≠ uid
       ∧ Db.rated s (SubmitRatingInput.taskId input) uid = false
       ∧ 1 ≤ SubmitRatingInput.stars input ≤ 5
       ∧ rating = Rating.mk (SubmitRatingInput.taskId input) uid ratee
                    (SubmitRatingInput.stars input)
                    (comment_or_null (SubmitRatingInput.comment input)) (clock env)
       ∧ run (submitRating env user input) s =
           (set_ratings s (ratings s ++ [rating]), Success rating)).
Proof.
  unfold submitRating, other_participant. destruct user as [uid|]; [|left; eauto].
  destruct (_ || _) eqn:Hstars; [left; eauto|].
  match goal with
  | |- context [if ?b then Return _ else _] => destruct b; [left; by eauto|]
  end.
  cbn [run Db.select_task].
  destruct (tasks s !! _) as [r|] eqn:Hr; [|left; eauto].
  destruct (bool_decide (Task.status r ≠ COMPLETE)) eqn:Hstatus; [left; eauto|].
  cbv zeta.
  destruct (negb _ && negb _) eqn:Hpart; [left; eauto|].
  destruct (if bool_decide (Task.poster_id r = uid) then _ else _)
    as [ratee|] eqn:Hratee; [|left; eauto].
  cbn [run Db.select_rating].
  destruct (single _) eqn:Hexisting; [left; eauto|].
  cbn [run].
  destruct (Db.insert_rating _ _ s) as [s1 res] eqn:Hins.
  apply insert_rating_inv in Hins as [(e & -> & ->)|(x & -> & -> & Hck & Hnew & ->)];
    [left; by eauto|].
  right. exists uid, r, ratee. eexists. cbn in Hnew.
  unfold Schema.rating_checks, Schema.between in Hck. cbn in Hck. bools.
  apply dec_stable in Hstatus.
  repeat split; eauto; try lia.
  apply andb_false_iff in Hpart as [H'|H']; bools; [by left|by right].
Qed.

(** A rater who already has a row for the task is turned away before the
    insert. *)
Lemma submitRating_existing env uid input s r ratee x :
  1 ≤ SubmitRatingInput.stars input ≤ 5 →
  match given (SubmitRatingInput.comment input) with
  | Some c => Js.len c ≤ 500
  | None => True
  end →
  tasks s !! SubmitRatingInput.taskId input = Some r →
  Task.status r = COMPLETE → participant uid r →
  other_participant uid r = Some ratee →
  filter (fun r => Rating.task_id r = SubmitRatingInput.taskId input
                   ∧ Rating.rater_id r = uid) (ratings s) = [x] →
  run (submitRating env (Some uid) input) s =
    (s, Failure "You have already rated this task").
Proof.
  intros Hstars Hcomment Hr Hstatus Hpart Hratee Hx.
  unfold submitRating, other_participant in *.
  replace (_ || _) with false
    by (symmetry; apply orb_false_iff; split; [apply Z.ltb_ge|apply Z.ltb_ge]; lia).
  replace (match given (SubmitRatingInput.comment input) with
           | Some c => 500 <? Js.len c | None => false end) with false
    by (destruct (given _); [symmetry; apply Z.ltb_ge; lia|done]).
  cbn [run Db.select_task]. rewrite Hr.
  rewrite (bool_decide_eq_false_2 (Task.status r ≠ COMPLETE)) by naive_solver.
  cbv zeta.
  replace (negb _ && negb _) with false
    by (symmetry; apply andb_false_iff; destruct Hpart as [H|H];
        [left|right]; by rewrite bool_decide_eq_true_2).
  rewrite Hratee. cbn [run Db.select_rating]. by rewrite Hx.
Qed.

(** ** The feed query *)

Global Instance newer_trans : Transitive Db.newer.
Proof. intros a b c. unfold Db.newer. lia. Qed.

Global Instance newer_total : Total Db.newer.
Proof. intros a b. unfold Db.newer. lia. Qed.

Global Instance higher_pay_trans : Transitive Db.higher_pay.
Proof. intros a b c. unfold Db.higher_pay. lia. Qed.

Global Instance higher_pay_total : Total Db.higher_pay.
Proof. intros a b. unfold Db.higher_pay. lia. Qed.

Global Instance older_trans : Transitive Db.older.
Proof. intros a b c. unfold Db.older. lia. Qed.

Global Instance older_total : Total Db.older.
Proof. intros a b. unfold Db.older. lia. Qed.


Lemma merge_sort_subseteq {A} (R : relation A) `{!RelDecision R} l :
  merge_sort R l ⊆ l.
Proof. intros x. by rewrite merge_sort_Permutation. Qed.

Lemma filter_subseteq {A} (P : A → Prop) `{!∀ x, Decision (P x)} (l : list A) :
  filter P l ⊆ l.
Proof. intros x. rewrite list_elem_of_filter. naive_solver. Qed.

(** ** Invariants of the tasks table *)

Lemma createTask_preserves_open_unassigned env user input :
  preserves open_unassigned (createTask env user input).
Proof.
  unfold createTask. keep.
  all: apply rows_insert_task; [|done].
  all: intros row; unfold Db.insert_task; intros Hrow; by by_cases.
Qed.

Lemma perform_preserves_open_unassigned c s :
  open_unassigned s → open_unassigned (perform s c).
Proof.
  destruct c; cbn; apply run_preserves.
  - apply createTask_preserves_open_unassigned.
  - apply updateTask_preserves. intros r.
    destruct (updateTask_patch_frame input r) as (_ & Ha & Hs & _).
    by rewrite Ha, Hs.
  - by apply acceptTask_preserves.
  - by apply cancelTask_preserves.
  - by apply completeTask_preserves.
Qed.

Lemma consistent_set_task s id r :
  consistent s → Schema.task_checks r = true → task_fks s r = true →
  consistent (set_tasks s (<[id := r]> (tasks s))).
Proof.
  intros Hs Hck Hfk. unfold consistent. cbn.
  apply map_Forall_insert_2; [done|]. exact Hs.
Qed.

Lemma consistent_update_task taskId cond patch s :
  consistent s → consistent (Db.update_task taskId cond patch s).1.
Proof.
  intros Hs. destruct (Db.update_task taskId cond patch s) as [s' e] eqn:Hu.
  apply update_task_inv in Hu as [[-> _]|(r & _ & _ & _ & Hfk & Hck & ->)]; [done|].
  by apply consistent_set_task.
Qed.

Lemma consistent_update_task_returning taskId patch s :
  consistent s → consistent (Db.update_task_returning taskId patch s).1.
Proof.
  intros Hs. unfold Db.update_task_returning.
  destruct patch as [patch|]; [|done].
  destruct (tasks s !! taskId); [|done].
  destruct (negb (task_fks _ _)) eqn:Hfk; [done|].
  destruct (negb (Schema.task_checks _)) eqn:Hck; [done|]. bools.
  by apply consistent_set_task.
Qed.

Lemma consistent_insert_task new_id now row s :
  consistent s → consistent (Db.insert_task new_id now row s).1.
Proof.
  intros Hs. unfold Db.insert_task.
  by_cases; bools; by apply consistent_set_task.
Qed.

Lemma consistent_insert_message now row s :
  consistent s → consistent (Db.insert_message now row s).1.
Proof.
  intros Hs. destruct (Db.insert_message now row s) as [s' res] eqn:H.
  by apply insert_message_inv in H as [(e & _ & ->)|(m & _ & _ & ->)].
Qed.

Lemma consistent_insert_rating now row s :
  consistent s → consistent (Db.insert_rating now row s).1.
Proof.
  intros Hs. destruct (Db.insert_rating now row s) as [s' res] eqn:H.
  by apply insert_rating_inv in H as [(e & _ & ->)|(m & _ & _ & _ & _ & ->)].
Qed.

Ltac keep_consistent :=
  keep; first [ by apply consistent_update_task
              | by apply consistent_update_task_returning
              | by apply consistent_insert_task
              | by apply consistent_insert_message
              | by apply consistent_insert_rating ].

(** No statement of a handler can break the constraints of the tasks
    table, however the calls interleave. *)
Lemma handlers_preserve_consistent :
  (∀ env user input, preserves consistent (createTask env user input))
  ∧ (∀ user taskId input, preserves consistent (updateTask user taskId input))
  ∧ (∀ env user taskId, preserves consistent (acceptTask env user taskId))
  ∧ (∀ env user taskId, preserves consistent (cancelTask env user taskId))
  ∧ (∀ env user taskId, preserves consistent (completeTask env user taskId))
  ∧ (∀ env user taskId body, preserves consistent (sendMessage env user taskId body))
  ∧ (∀ env user input, preserves consistent (submitRating env user input)).
Proof.
  repeat split; intros.
  - unfold createTask. keep_consistent.
  - unfold updateTask. keep_consistent.
  - unfold acceptTask. keep_consistent.
  - unfold cancelTask. keep_consistent.
  - unfold completeTask. keep_consistent.
  - unfold sendMessage. keep_consistent.
  - unfold submitRating. keep_consistent.
Qed.

Lemma perform_preserves_consistent c s : consistent s → consistent (perform s c).
Proof.
  destruct handlers_preserve_consistent as (H1 & H2 & H3 & H4 & H5 & _).
  destruct c; cbn; by apply run_preserves.
Qed.

(** The stores the lifecycle handlers build from an empty tasks table
    satisfy the two invariants. *)
Lemma perform_all_invariants calls s :
  tasks s = ∅ →
  consistent (perform_all calls s) ∧ open_unassigned (perform_all calls s).
Proof.
  intros Hempty.
  assert (consistent s ∧ open_unassigned s) as Hs.
  { unfold consistent, open_unassigned, rows. rewrite Hempty.
    split; apply map_Forall_empty. }
  clear Hempty. revert s Hs. induction calls as [|c calls IH]; intros s [Hc Ho]; [done|].
  cbn. apply IH.
  split; [by apply perform_preserves_consistent|by apply perform_preserves_open_unassigned].
Qed.

(** ** The scenarios of the specification, run call by call *)

Example trim_strips_both_ends : Js.trim "  On my way  " = "On my way".
Proof. reflexivity. Qed.

Example trim_of_blank : Js.trim "   " = "".
Proof. reflexivity. Qed.

Example accept_moves_to_ACCEPTED :
  tasks accepted !! 1%N = Some (acceptTask_patch 20%N 100 pickup)
  ∧ messages accepted
    = [Message.mk 1%N 20%N SYSTEM
         "Task accepted! You can now chat to coordinate details." 100].
Proof. by vm_compute. Qed.

Example second_accept_alone_fails :
  run second_accept accepted = (accepted, Failure "This task is no longer available").
Proof. by vm_compute. Qed.

Example complete_sets_completed_at :
  (Task.status <$> tasks completed !! 1%N) = Some COMPLETE
  ∧ (Task.completed_at <$> tasks completed !! 1%N) = Some (Some 200).
Proof. by vm_compute. Qed.

Example cancel_after_complete_fails :
  run (cancelTask (at_time 300) (Some 10%N) 1%N) completed
  = (completed, Failure "Cannot cancel a completed task").
Proof. by vm_compute. Qed.

Example chat_closed_while_open :
  run (sendMessage (at_time 60) (Some 10%N) 1%N "Anyone?") posted
  = (posted, Failure "Chat is only available after a task is accepted").
Proof. by vm_compute. Qed.

Example rules_first :
  run (acceptTask (at_time 60) (Some 40%N) 1%N) posted
  = (posted, Failure "You must accept the rules before accepting tasks").
Proof. by vm_compute. Qed.

(** ** The accept race *)

(** Once the row has left OPEN, the guarded update of [acceptTask] matches
    no row; the store answers without an error. *)
Lemma accept_update_misses uid now taskId s r :
  tasks s !! taskId = Some r → Task.status r ≠ OPEN →
  Db.update_task taskId (fun r => bool_decide (Task.status r = OPEN))
    (acceptTask_patch uid now) s = (s, None).
Proof.
  intros Hr Hst. unfold Db.update_task. rewrite Hr.
  by rewrite bool_decide_eq_false_2.
Qed.

(** A call that runs alone and finds the task taken says so. *)
Lemma acceptTask_not_open_alone env uid taskId s r :
  passed_rules_gate s (Some uid) = true →
  tasks s !! taskId = Some r → Task.poster_id r ≠ uid → Task.status r ≠ OPEN →
  run (acceptTask env (Some uid) taskId) s =
    (s, Failure "This task is no longer available").
Proof.
  intros Hgate Hr Hposter Hst. unfold acceptTask.
  cbn [run Db.select_profile]. cbn in Hgate. rewrite Hgate.
  cbn [negb run Db.select_task]. rewrite Hr.
  rewrite bool_decide_eq_false_2 by done.
  by rewrite bool_decide_eq_true_2.
Qed.

(** Whenever two workers who may both accept an OPEN task read it before
    either writes, both calls return success. *)
Lemma accept_race_both_succeed e1 e2 u1 u2 taskId s r :
  tasks s !! taskId = Some r → Task.status r = OPEN →
  Schema.task_checks r = true → task_fks s r = true →
  passed_rules_gate s (Some u1) = true → passed_rules_gate s (Some u2) = true →
  Task.poster_id r ≠ u1 → Task.poster_id r ≠ u2 →
  Schema.is_blocked s (Some u1) (Some (Task.poster_id r)) = false →
  Schema.is_blocked s (Some u2) (Some (Task.poster_id r)) = false →
  let out := race [true; true; true; false; false; false]
               (acceptTask e1 (Some u1) taskId) (acceptTask e2 (Some u2) taskId) s in
  out.1.2 = Success tt ∧ out.2 = Success tt.
Proof.
  intros Hr Hopen Hck Hfk Hg1 Hg2 Hp1 Hp2 Hb1 Hb2. cbn in Hg1, Hg2.
  unfold acceptTask. cbn [race Db.select_profile]. rewrite Hg1. cbn [negb race Db.select_task].
  rewrite Hr, (bool_decide_eq_false_2 _ Hp1).
  rewrite (bool_decide_eq_false_2 (Task.status r ≠ OPEN)) by (by intros []).
  cbn [race Db.rpc_is_blocked]. rewrite Hb1. cbn [race Db.select_profile].
  rewrite Hg2. cbn [negb race Db.select_task].
  rewrite Hr, (bool_decide_eq_false_2 _ Hp2).
  rewrite (bool_decide_eq_false_2 (Task.status r ≠ OPEN)) by (by intros []).
  cbn [race Db.rpc_is_blocked]. rewrite Hb2. cbn [race run].
  rewrite (update_task_hit taskId _ (acceptTask_patch u1 (clock e1)) s r Hr);
    [|by apply bool_decide_eq_true_2| |done].
  2:{ unfold task_fks in *. cbn. apply andb_true_iff in Hfk as [-> _]. cbn.
      by apply accepted_rules_has_profile. }
  cbn [run].
  rewrite insert_message_ok;
    [|apply has_task_set_tasks|by apply accepted_rules_has_profile|done].
  cbn [run].
  erewrite accept_update_misses; [|cbn; apply lookup_insert_eq|done].
  cbn [run].
  rewrite insert_message_ok; [|by apply has_task_true; cbn; rewrite lookup_insert_eq
                              |by apply accepted_rules_has_profile|done].
  done.
Qed.

(** C1, at the failing input: 20 and 30 both accept the OPEN task 1, and
    both read it before either sends its update. [acceptTask] returns
    success as soon as its update reports no error, and an update that
    matches no row reports none: both calls return success, where one at
    most may, and 30 is told so without being the acceptor of the row. *)
Theorem acceptTask_lost_race_reports_success :
  let out := race [true; true; true; false; false; false]
               first_accept second_accept posted in
  out.1.2 = Success tt
  ∧ out.2 = Success tt
  ∧ (tasks out.1.1 !! 1%N ≫= Task.accepted_by_user_id) ≠ Some 30%N.
Proof. by vm_compute. Qed.

(** ** Transition and system message *)

(** C2 fails: the poster sends the cancellation of the OPEN task 1 twice,
    and the second call has read the task before the first one writes.
    The first call moves the row to CANCELED and appends its message. The
    writes of the second meet that store: the status stays CANCELED, yet
    a second system message is appended and the call returns success. *)
Lemma cancelTask_message_without_transition :
  let before := (run first_cancel posted).1 in
  let out := race [false] first_cancel second_cancel posted in
  out.1.2 = Success tt
  ∧ out.2 = Success tt
  ∧ (Task.status <$> tasks before !! 1%N) = Some CANCELED
  ∧ (Task.status <$> tasks out.1.1 !! 1%N) = Some CANCELED
  ∧ length (messages out.1.1) = S (length (messages before))
  ∧ ¬ as_a_unit before out.1.1 1%N.
Proof.
  cbv zeta. repeat split; try by vm_compute.
  intros [[(r & r' & Hr & Hr' & Hne) _]|[_ Hm]].
  - vm_compute in Hr, Hr'. by simplify_eq.
  - vm_compute in Hm. done.
Qed.

(** C2, amended: a call of [acceptTask], [cancelTask] or [completeTask]
    that runs with no other call between its statements changes the
    status of the row and appends exactly one system message of the task,
    or does neither; when it returns a failure the store is as it was,
    and when [cancelTask] or [completeTask] returns success the row has
    moved to CANCELED or COMPLETE with its one message. *)
Theorem lifecycle_call_alone_is_a_unit env user taskId s :
  (let out := run (acceptTask env user taskId) s in
   as_a_unit s out.1 taskId ∧ (is_success out.2 = false → out.1 = s))
  ∧ (let out := run (cancelTask env user taskId) s in
     (out.2 = Success tt ∧ moved_to CANCELED s out.1 taskId)
     ∨ (is_success out.2 = false ∧ out.1 = s))
  ∧ (let out := run (completeTask env user taskId) s in
     (out.2 = Success tt ∧ moved_to COMPLETE s out.1 taskId)
     ∨ (is_success out.2 = false ∧ out.1 = s)).
Proof.
  unfold as_a_unit, no_effect, moved_to, transition_with_message, system_message_of.
  split; [|split].
  - destruct (acceptTask_run env user taskId s)
      as [[e ->]|(uid & r & -> & Hr & Hst & _ & _ & _ & ->)]; [by split; [right|]|].
    cbn. rewrite lookup_insert_eq. split; [left|done].
    split; [|by eauto]. eexists r, _. repeat split; [done..|]. by rewrite Hst.
  - destruct (cancelTask_run env user taskId s)
      as [[e ->]|(uid & r & -> & Hr & _ & _ & Hst & _ & ->)]; [by right|left].
    cbn. rewrite lookup_insert_eq. split; [done|]. split; [|by eauto].
    split; [|by eauto]. eexists r, _. repeat split; [done..|]. cbn. congruence.
  - destruct (completeTask_run env user taskId s)
      as [[e ->]|(uid & r & -> & Hr & _ & Hst & ->)]; [by right|left].
    cbn. rewrite lookup_insert_eq. split; [done|]. split; [|by eauto].
    split; [|by eauto]. eexists r, _. repeat split; [done..|]. by rewrite Hst.
Qed.

(** ** The messaging gate *)

(** C3: [sendMessage] returns success only when the caller is the poster
    or the current acceptor, the task is ACCEPTED or COMPLETE, no block
    stands between poster and acceptor, and the trimmed body is non-empty
    and at most 2000 characters long; the trimmed body is then appended as
    one TEXT message. In every other case it returns an error and the
    store is as it was. *)
Theorem sendMessage_gate env user taskId body s :
  let out := run (sendMessage env user taskId body) s in
  (∀ m, out.2 = Success m →
     may_send s user taskId body
     ∧ out.1 = set_messages s (messages s ++ [m])
     ∧ Message.type m = TEXT ∧ Message.task_id m = taskId
     ∧ Message.body m = Js.trim body ∧ Some (Message.sender_id m) = user)
  ∧ (¬ may_send s user taskId body → is_success out.2 = false)
  ∧ (is_success out.2 = false → out.1 = s).
Proof.
  cbv zeta. unfold may_send.
  destruct (sendMessage_run env user taskId body s)
    as [[e ->]|(uid & r & -> & Hr & Hpart & Hst & Hbl & Hne & Hlen & ->)]; cbn.
  - by repeat split.
  - split; [|split]; [|intros []; by eauto 10|done].
    intros m [= <-]. split; [by eauto 10|done].
Qed.

Lemma sendMessage_gate_witness :
  may_send accepted (Some 20%N) 1%N "  On my way  ".
Proof.
  eapply (proj1 (sendMessage_gate (at_time 150) (Some 20%N) 1%N "  On my way  " accepted)).
  vm_compute. reflexivity.
Defined.

Lemma fst_fmap_pair {A B} (g : A → B) (l : list A) :
  ((fun m => (m, g m)) <$> l).*1 = l.
Proof. induction l as [|x l IH]; [done|]. cbn. by rewrite IH. Qed.

(** C4 fails: the poster reads the chat of the task after it was canceled,
    and receives its two system messages. *)
Lemma getMessages_reads_canceled_task :
  (Task.status <$> tasks canceled !! 1%N) = Some CANCELED
  ∧ (Task.poster_id <$> tasks canceled !! 1%N) = Some 10%N
  ∧ is_success (run (getMessages (Some 10%N) 1%N) canceled).2 = true
  ∧ match (run (getMessages (Some 10%N) 1%N) canceled).2 with
    | Success history => history.*1 = messages canceled
    | Failure _ => False
    end
  ∧ length (messages canceled) = 2%nat.
Proof. by vm_compute. Qed.

(** C4, amended: reading a task's messages is open to the task's poster
    and its current acceptor and to nobody else, at every status of the
    task: a call succeeds only for one of the two, and it does succeed
    for one of them to whom the read policy of the tasks table shows the
    task; it returns all messages of the task in the order of their
    creation time, each of which passes the read policy of the messages
    table for the caller; the store is not changed. *)
Theorem getMessages_participants_any_status user taskId s :
  let out := run (getMessages user taskId) s in
  out.1 = s
  ∧ (is_success out.2 = true →
     ∃ uid r, user = Some uid ∧ tasks s !! taskId = Some r ∧ participant uid r)
  ∧ (∀ uid r, user = Some uid → tasks s !! taskId = Some r → participant uid r →
       Policy.tasks_read s user r = true → is_success out.2 = true)
  ∧ (∀ history, out.2 = Success history →
       history.*1 ≡ₚ filter (fun m => Message.task_id m = taskId) (messages s)
       ∧ StronglySorted Db.older history.*1
       ∧ ∀ uid, user = Some uid →
           Forall (fun m => Policy.messages_read s uid m = true) history.*1).
Proof.
  cbv zeta.
  destruct (getMessages_run user taskId s)
    as [(e & -> & Hno)|(uid & r & -> & Hr & Hpart & ->)]; cbn.
  - split; [done|]. split; [done|]. split; [|done].
    intros uid r Hu Hr Hpart _. destruct Hno. by eauto 10.
  - split; [done|]. split; [by eauto 10|]. split; [done|]. intros history [= <-].
    rewrite fst_fmap_pair. split; [apply merge_sort_Permutation|].
    split; [apply StronglySorted_merge_sort; apply _|].
    intros ? [= <-]. apply Forall_forall. intros m.
    rewrite merge_sort_Permutation, list_elem_of_filter. intros [Hm _].
    unfold Policy.messages_read. rewrite Hm, Hr.
    destruct Hpart as [H|H]; rewrite (bool_decide_eq_true_2 _ H);
      [done|apply orb_true_r].
Qed.

Lemma getMessages_participants_any_status_witness :
  is_success (run (getMessages (Some 10%N) 1%N) posted).2 = true.
Proof.
  apply (proj1 (proj2 (proj2 (getMessages_participants_any_status (Some 10%N) 1%N
                                posted))) 10%N pickup);
    [done|by vm_compute|by left|by vm_compute].
Defined.

(** ** Creation and its bounds *)

Lemma len_zero s : Js.len s = 0 ↔ s = "".
Proof. unfold Js.len. destruct s; cbn; [done|]. split; [lia|done]. Qed.

Lemma validateTaskInput_None now input :
  validateTaskInput now input = None →
  Js.trim (CreateTaskInput.title input) ≠ ""
  ∧ Js.len (CreateTaskInput.title input) ≤ 80
  ∧ Js.trim (CreateTaskInput.description input) ≠ ""
  ∧ Js.len (CreateTaskInput.description input) ≤ 1000
  ∧ Js.trim (CreateTaskInput.location_text input) ≠ ""
  ∧ Js.len (CreateTaskInput.location_text input) ≤ 120
  ∧ 500 ≤ CreateTaskInput.price_cents input ≤ 50000.
Proof.
  unfold validateTaskInput. intros H.
  repeat match type of H with
         | (if ?b then _ else _) = None => destruct b eqn:?; [done|]
         end.
  bools. rewrite <-!len_zero. lia.
Qed.

Lemma createTask_Success_not_turned_down env user input s s' id r :
  run (createTask env user input) s = (s', Success (id, r)) →
  ¬ turned_down (clock env) input.
Proof.
  intros H. pose proof (createTask_Success _ _ _ _ _ _ _ H) as (_ & _ & _ & _ & _ & Hv).
  pose proof (validateTaskInput_None _ _ Hv) as (? & ? & ? & ? & ? & ? & ?).
  intros [Hb|[Hw Hna]].
  - unfold text_or_price_violated in Hb. repeat (destruct Hb as [Hb|Hb]; [done || lia|]).
    lia.
  - destruct (validateTaskInput_scheduled _ _ Hv Hw) as (d & Hd & Hle).
    destruct Hna as [Hna|(x & t & Hx & Ht & Hnow)]; [congruence|].
    simplify_eq. unfold date_le in Hle. rewrite Ht in Hle.
    apply Z.leb_gt in Hle. lia.
Qed.

(** C5: a row returned by [createTask] carries [scheduled_at] exactly when
    its window is SCHEDULED, and so does every row of the table after any
    sequence of calls of [createTask], [updateTask], [acceptTask],
    [cancelTask] and [completeTask] on a table that started empty. *)
Theorem scheduled_at_iff_scheduled_window (s : Store) (calls : list Call) :
  tasks s = ∅ →
  (∀ id r, tasks (perform_all calls s) !! id = Some r → scheduled_iff r)
  ∧ (∀ env user input id r,
       (run (createTask env user input) (perform_all calls s)).2 = Success (id, r) →
       scheduled_iff r).
Proof.
  intros Hempty.
  assert (all_scheduled_iff (perform_all calls s)) as Hall.
  { apply perform_all_preserves_scheduled_iff.
    unfold all_scheduled_iff, rows. rewrite Hempty. apply map_Forall_empty. }
  split; [intros id r Hr; by eapply Hall|].
  intros env user input id r Hrun.
  pose proof (perform_preserves_scheduled_iff (CreateTask env user input) _ Hall) as H.
  cbn in H. destruct (run _ _) as [s' res] eqn:Hres. cbn in *. subst res.
  apply createTask_Success in Hres as (-> & _).
  eapply (H id). cbn. apply lookup_insert_eq.
Qed.

Lemma scheduled_at_iff_scheduled_window_witness :
  scheduled_iff (acceptTask_patch 30%N 100 scheduled_pickup).
Proof.
  apply (proj1 (scheduled_at_iff_scheduled_window (mkStore campus ∅ [] [] [])
                  [CreateTask (at_time 50) (Some 20%N) pickup_input;
                   AcceptTask (at_time 100) (Some 30%N) 2%N]
                  eq_refl) 2%N).
  by vm_compute.
Defined.

Lemma updateTask_price_out_of_band user taskId edit s p :
  UpdateTaskInput.price_cents edit = Some p → p < 500 ∨ 50000 < p →
  ∃ e, run (updateTask user taskId edit) s = (s, Failure e).
Proof.
  intros Hp Hout. unfold updateTask. destruct user as [uid|]; [|by eauto].
  cbn [run Db.select_task]. destruct (tasks s !! taskId) as [r|]; [|by eauto].
  rewrite Hp.
  repeat match goal with
         | |- context [if ?b then Return _ else _] => destruct b eqn:?; [by eauto|]
         end.
  bools. lia.
Qed.

(** C6, at the failing input: 20, who has passed the rules gate, creates
    a SCHEDULED task whose scheduled_at is the string 'epoch'. [new Date]
    makes an invalid date of it, for which the comparison of
    [validateTaskInput] is false; the database reads the first instant of
    1970. The call returns success and the task it stores is scheduled in
    the past, where the input should have been turned down. *)
Theorem createTask_stores_past_schedule :
  let out := run (createTask (at_time 50) (Some 20%N) epoch_input) posted in
  bound_violated 50 epoch_input
  ∧ passed_rules_gate posted (Some 20%N) = true
  ∧ validateTaskInput 50 epoch_input = None
  ∧ is_success out.2 = true
  ∧ (tasks out.1 !! 2%N ≫= Task.scheduled_at) = Some 0.
Proof.
  cbv zeta. split; [|by vm_compute].
  right. split; [done|]. intros (x & t & Hx & Ht & Hlt).
  cbn in Hx. simplify_eq. cbn in Ht. simplify_eq. lia.
Qed.

(** ** Cancel *)






(** ** Edit *)

(** C9: [updateTask] succeeds only for the poster of an OPEN task; a call
    on a task that has left OPEN fails; whatever it returns, the call
    leaves every column of every task other than title, description and
    price_cents as it was, touches no other task, adds and removes no
    task, and changes no other table; a failed call changes nothing. *)
Theorem updateTask_poster_open_frame user taskId input s :
  let out := run (updateTask user taskId input) s in
  (is_success out.2 = true →
     ∃ r, tasks s !! taskId = Some r ∧ user = Some (Task.poster_id r)
          ∧ Task.status r = OPEN)
  ∧ (∀ r, tasks s !! taskId = Some r → Task.status r ≠ OPEN →
          is_success out.2 = false)
  ∧ (∀ id, match tasks s !! id, tasks out.1 !! id with
           | Some r, Some r' => edit_frame r r' ∧ (id ≠ taskId → r' = r)
           | None, None => True
           | _, _ => False
           end)
  ∧ (is_success out.2 = false → out.1 = s)
  ∧ profiles out.1 = profiles s ∧ messages out.1 = messages s
  ∧ ratings out.1 = ratings s ∧ blocks out.1 = blocks s.
Proof.
  cbv zeta.
  assert (∀ id, match tasks s !! id, tasks s !! id with
                | Some r, Some r' => edit_frame r r' ∧ (id ≠ taskId → r' = r)
                | None, None => True
                | _, _ => False
                end) as Hsame.
  { intros id. destruct (tasks s !! id); [|done]. split; [by repeat split|done]. }
  destruct (updateTask_run user taskId input s) as [[e ->]|(r & -> & Hr & Hst & ->)];
    cbn; [by repeat split|].
  repeat split; try done; [by eauto|congruence|].
  intros id. destruct (decide (id = taskId)) as [->|Hne].
  - rewrite Hr, lookup_insert_eq. split; [apply updateTask_patch_frame|done].
  - rewrite lookup_insert_ne by done. apply Hsame.
Qed.

Lemma updateTask_poster_open_frame_witness :
  is_success (run (updateTask (Some 10%N) 1%N
                     (UpdateTaskInput.mk (Some "Parcel pickup") None (Some 1500)))
                accepted).2 = false.
Proof.
  apply (proj1 (proj2 (updateTask_poster_open_frame (Some 10%N) 1%N
                         (UpdateTaskInput.mk (Some "Parcel pickup") None (Some 1500))
                         accepted))
           (acceptTask_patch 20%N 100 pickup)).
  - by vm_compute.
  - by vm_compute.
Defined.

(** ** One rating for the other participant *)

Lemma other_participant_is_participant uid r ratee :
  participant uid r → other_participant uid r = Some ratee → participant ratee r.
Proof.
  unfold participant, other_participant. intros Hpart.
  case_bool_decide; [by right|]. intros [= <-]. by left.
Qed.

Lemma filter_after_insert (s : Store) taskId uid rating :
  Db.rated s taskId uid = false →
  Rating.task_id rating = taskId → Rating.rater_id rating = uid →
  filter (fun r => Rating.task_id r = taskId ∧ Rating.rater_id r = uid)
    (ratings s ++ [rating])%list = [rating].
Proof.
  intros Hnew%rated_false Ht Hu. rewrite filter_app, Hnew.
  by rewrite (filter_singleton_True _ rating []).
Qed.

(** C8 fails: the poster has rated the completed task 1 and rates it
    again, with six stars. The stars are tested before the ratings table
    is read: the second attempt is refused for its stars, not as a second
    rating. *)
Lemma submitRating_again_refused_for_stars :
  let first := run (submitRating (at_time 300) (Some 10%N)
                      (SubmitRatingInput.mk 1%N 5 (Some "Thanks!"))) completed in
  let again := run (submitRating (at_time 301) (Some 10%N)
                      (SubmitRatingInput.mk 1%N 6 None)) first.1 in
  is_success first.2 = true
  ∧ again.2 = Failure "Rating must be 1-5 stars"
  ∧ again.2 ≠ Failure "You have already rated this task".
Proof. by vm_compute. Qed.

(** C8, amended: [submitRating] stores a rating only for a caller who is
    the poster or the acceptor of a COMPLETE task and has no rating of
    that task yet; the rating it stores names the other participant as
    ratee, who is not the rater; a failed call stores nothing; the table
    keeps holding no self-rating and one row at most for a task and a
    rater; and after a success, a further attempt of the same caller on
    the same task stores nothing and fails, with the already-rated error
    when its stars are within 1..5, its comment has at most 500
    characters and the read policy of the tasks table still shows the
    task to the caller. *)
Theorem submitRating_once_for_the_other env user input s :
  let out := run (submitRating env user input) s in
  (∀ rating, out.2 = Success rating →
     ∃ uid r,
       user = Some uid
       ∧ tasks s !! SubmitRatingInput.taskId input = Some r
       ∧ Task.status r = COMPLETE ∧ participant uid r
       ∧ Rating.task_id rating = SubmitRatingInput.taskId input
       ∧ Rating.rater_id rating = uid
       ∧ other_participant uid r = Some (Rating.ratee_id rating)
       ∧ participant (Rating.ratee_id rating) r
       ∧ Rating.rater_id rating ≠ Rating.ratee_id rating
       ∧ Db.rated s (SubmitRatingInput.taskId input) uid = false
       ∧ out.1 = set_ratings s (ratings s ++ [rating]))
  ∧ (is_success out.2 = false → out.1 = s)
  ∧ (ratings_ok s → ratings_ok out.1)
  ∧ (∀ rating env' input' s2,
       out.2 = Success rating →
       SubmitRatingInput.taskId input' = SubmitRatingInput.taskId input →
       tasks s2 !! SubmitRatingInput.taskId input
         = tasks s !! SubmitRatingInput.taskId input →
       filter (fun x => Rating.task_id x = Rating.task_id rating
                        ∧ Rating.rater_id x = Rating.rater_id rating) (ratings s2)
         = [rating] →
       let again := run (submitRating env' user input') s2 in
       is_success again.2 = false ∧ again.1 = s2
       ∧ (1 ≤ SubmitRatingInput.stars input' ≤ 5 →
          match given (SubmitRatingInput.comment input') with
          | Some c => Js.len c ≤ 500
          | None => True
          end →
          (∀ r, tasks s2 !! SubmitRatingInput.taskId input = Some r →
                Policy.tasks_read s2 user r = true) →
          again.2 = Failure "You have already rated this task")).
Proof.
  cbv zeta.
  destruct (submitRating_run env user input s)
    as [[e ->]|(uid & r & ratee & rating & -> & Hr & Hst & Hpart & Hratee & Hne
                & Hnew & Hstars & -> & ->)]; cbn [fst snd is_success].
  - split; [done|]. split; [done|]. split; [done|]. done.
  - split; [|split; [done|split]].
    + intros ? [= <-]. exists uid, r. cbn.
      repeat split; eauto using other_participant_is_participant.
    + intros [Hself Hdup]. split; cbn.
      * apply Forall_app. split; [done|]. by apply Forall_singleton.
      * rewrite fmap_app. apply NoDup_app. split; [done|]. split; [|apply NoDup_singleton].
        intros k (x & -> & Hx)%list_elem_of_fmap. cbn.
        rewrite list_elem_of_singleton. intros [= Ht Hu].
        apply rated_false in Hnew.
        by eapply (filter_nil_not_elem_of _ _ x Hnew).
    + intros ? env' input' s2 [= <-] Htask Hrow Hone. cbn in Hone.
      rewrite Hr in Hrow. rewrite <-Htask in Hrow, Hone.
      destruct (submitRating_run env' (Some uid) input' s2)
        as [[e Hagain]|(uid' & r' & ratee' & rating' & [= <-] & _ & _ & _ & _ & _
                        & Hnew' & _)].
      * rewrite Hagain. cbn. repeat split.
        intros Hstars' Hcomment' _.
        erewrite submitRating_existing in Hagain; eauto. by simplify_eq.
      * apply rated_false in Hnew'. by rewrite Hone in Hnew'.
Qed.

Lemma submitRating_once_for_the_other_witness :
  (run (submitRating (at_time 301) (Some 10%N) (SubmitRatingInput.mk 1%N 4 None))
     (run (submitRating (at_time 300) (Some 10%N)
             (SubmitRatingInput.mk 1%N 5 (Some "Thanks!"))) completed).1).2
  = Failure "You have already rated this task".
Proof.
  eapply (proj2 (proj2 (proj2 (submitRating_once_for_the_other (at_time 300)
            (Some 10%N) (SubmitRatingInput.mk 1%N 5 (Some "Thanks!")) completed)))
            _ (at_time 301) (SubmitRatingInput.mk 1%N 4 None)).
  - vm_compute. reflexivity.
  - reflexivity.
  - reflexivity.
  - by vm_compute.
  - cbn. lia.
  - exact I.
  - intros r Hr. vm_compute in Hr. by simplify_eq.
Defined.

(** ** The feed *)






(** * Properties of the rest of the code *)

(** ** Strings *)

Lemma length_append (a b : string) :
  String.length (a ++ b) = (String.length a + String.length b)%nat.
Proof. induction a as [|c a IH]; simpl; [done|]. by f_equal. Qed.

Lemma len_append (a b : string) : Js.len (a ++ b) = Js.len a + Js.len b.
Proof. unfold Js.len. rewrite length_append. lia. Qed.

Lemma length_substring0 n (s : string) :
  String.length (String.substring 0 n s) = (n `min` String.length s)%nat.
Proof.
  revert n. induction s as [|c s IH]; intros [|n]; cbn; try done.
  by rewrite IH.
Qed.

Lemma length_trimStart s : (String.length (Js.trimStart s) ≤ String.length s)%nat.
Proof. induction s as [|c s IH]; cbn; [done|]. destruct (Js.is_white_space c); cbn; lia. Qed.

Lemma length_trimEnd s : (String.length (Js.trimEnd s) ≤ String.length s)%nat.
Proof.
  induction s as [|c s IH]; cbn; [done|].
  destruct (Js.trimEnd s); [destruct (Js.is_white_space c)|]; cbn in *; lia.
Qed.

Lemma len_trim s : Js.len (Js.trim s) ≤ Js.len s.
Proof.
  unfold Js.len, Js.trim.
  pose proof (length_trimEnd (Js.trimStart s)). pose proof (length_trimStart s). lia.
Qed.

Lemma len_nonneg s : 0 ≤ Js.len s.
Proof. unfold Js.len. lia. Qed.

(** What [trimEnd] leaves does not end in white space, so it is left alone
    by a second pass. *)
Lemma trimEnd_idem s : Js.trimEnd (Js.trimEnd s) = Js.trimEnd s.
Proof.
  induction s as [|c s IH]; cbn; [done|].
  destruct (Js.trimEnd s) as [|d t] eqn:Ht.
  - destruct (Js.is_white_space c) eqn:Hc; cbn; [done|]. by rewrite Hc.
  - cbn. cbn in IH. by rewrite IH.
Qed.

Lemma trimStart_starts_black s : starts_black (Js.trimStart s).
Proof.
  induction s as [|c s IH]; cbn; [done|].
  by destruct (Js.is_white_space c) eqn:Hc.
Qed.

Lemma trimStart_of_black s : starts_black s → Js.trimStart s = s.
Proof. destruct s as [|c s]; cbn; [done|]. by intros ->. Qed.

Lemma trimEnd_starts_black s : starts_black s → starts_black (Js.trimEnd s).
Proof.
  destruct s as [|c s]; cbn; [done|]. intros Hc.
  destruct (Js.trimEnd s); [by rewrite Hc|done].
Qed.

Lemma trim_idem s : Js.trim (Js.trim s) = Js.trim s.
Proof.
  unfold Js.trim.
  rewrite (trimStart_of_black (Js.trimEnd _)), trimEnd_idem; [done|].
  apply trimEnd_starts_black, trimStart_starts_black.
Qed.


(** ** lib/utils.ts *)

(** X1: [truncate] returns a text that fits as it is; a text that does not
    fit is cut to its first [maxLength - 3] characters followed by three
    dots, which has length [maxLength] exactly, as long as [maxLength] is
    at least 3; below 3 the result is longer than [maxLength]. *)
Theorem truncate_length text maxLength :
  (Js.len text ≤ maxLength → truncate text maxLength = text)
  ∧ (maxLength < Js.len text → 3 ≤ maxLength →
     truncate text maxLength
       = String.substring 0 (Z.to_nat (maxLength - 3)) text ++ "..."
     ∧ Js.len (truncate text maxLength) = maxLength)
  ∧ (maxLength < Js.len text → maxLength < 3 →
     maxLength < Js.len (truncate text maxLength)).
Proof.
  unfold truncate, JsText.slice0. split; [|split].
  - intros H. by rewrite (proj2 (Z.leb_le _ _) H).
  - intros H H3. rewrite (proj2 (Z.leb_gt _ _) H), (proj2 (Z.ltb_ge _ _)) by lia.
    rewrite Z.min_l by lia. split; [done|]. rewrite len_append. unfold Js.len in *.
    rewrite length_substring0. cbn. lia.
  - intros H H3. rewrite (proj2 (Z.leb_gt _ _) H), (proj2 (Z.ltb_lt _ _)) by lia.
    rewrite len_append.
    match goal with |- _ < Js.len ?cut + _ => pose proof (len_nonneg cut) end.
    change (Js.len "...") with 3. lia.
Qed.

Lemma truncate_length_witness :
  Js.len (truncate "Bring my parcel from the mail room" 20) = 20.
Proof.
  apply (proj1 (proj2 (truncate_length "Bring my parcel from the mail room" 20)));
    [by vm_compute|lia].
Defined.

Lemma toLowerCase_app a b :
  JsText.toLowerCase (a ++ b) = JsText.toLowerCase a ++ JsText.toLowerCase b.
Proof.
  induction a as [|c a IH]; [done|].
  change (String c a ++ b) with (String c (a ++ b)).
  cbn [JsText.toLowerCase]. by rewrite IH.
Qed.

Lemma toLowerCase_unit_at c :
  Ascii.eqb (JsText.toLowerCase_unit c) "@" = Ascii.eqb c "@".
Proof.
  destruct c as [[] [] [] [] [] [] [] []]; reflexivity.
Qed.

Lemma toLowerCase_unit_idem c :
  JsText.toLowerCase_unit (JsText.toLowerCase_unit c) = JsText.toLowerCase_unit c.
Proof.
  destruct c as [[] [] [] [] [] [] [] []]; reflexivity.
Qed.

Lemma toLowerCase_idem s :
  JsText.toLowerCase (JsText.toLowerCase s) = JsText.toLowerCase s.
Proof.
  induction s as [|c s IH]; cbn [JsText.toLowerCase]; [done|].
  by rewrite toLowerCase_unit_idem, IH.
Qed.

Lemma split_first_toLowerCase s :
  JsText.split_first "@" (JsText.toLowerCase s)
  = JsText.toLowerCase (JsText.split_first "@" s).
Proof.
  induction s as [|c s IH]; [done|].
  cbn [JsText.toLowerCase JsText.split_first].
  rewrite toLowerCase_unit_at.
  destruct (Ascii.eqb c "@"); cbn [JsText.toLowerCase]; [done|].
  by rewrite IH.
Qed.

Lemma after_first_toLowerCase s :
  JsText.after_first "@" (JsText.toLowerCase s)
  = JsText.toLowerCase <$> JsText.after_first "@" s.
Proof.
  induction s as [|c s IH]; [done|].
  cbn [JsText.toLowerCase JsText.after_first].
  rewrite toLowerCase_unit_at. by destruct (Ascii.eqb c "@").
Qed.

(** A string is what precedes its first [@], the [@] and what follows. *)
Lemma split_at s domain :
  JsText.after_first "@" s = Some domain →
  s = JsText.split_first "@" s ++ String "@" domain.
Proof.
  induction s as [|c s IH]; [done|]. cbn [JsText.after_first JsText.split_first].
  destruct (Ascii.eqb_spec c "@") as [->|Hc].
  - by intros [= ->].
  - intros H. change (String c ?a ++ ?b) with (String c (a ++ b)). by rewrite <-IH.
Qed.

Lemma split_first_no_at s : JsText.after_first "@" (JsText.split_first "@" s) = None.
Proof.
  induction s as [|c s IH]; [done|]. cbn [JsText.split_first].
  destruct (Ascii.eqb c "@") eqn:Hc; [done|]. cbn [JsText.after_first]. by rewrite Hc.
Qed.

Lemma split_first_app local rest :
  JsText.after_first "@" local = None →
  JsText.split_first "@" (local ++ String "@" rest) = local.
Proof.
  induction local as [|c l IH]; [done|].
  change (String c l ++ ?b) with (String c (l ++ b)).
  cbn [JsText.after_first JsText.split_first].
  destruct (Ascii.eqb c "@"); [done|]. intros H. by rewrite IH.
Qed.

Lemma toLowerCase_empty s : JsText.toLowerCase s = "" ↔ s = "".
Proof. by destruct s. Qed.

Lemma endsWith_app a b : JsText.endsWith (a ++ b) b = true.
Proof.
  induction a as [|c a IH].
  - change ("" ++ b) with b. destruct b; cbn [JsText.endsWith]; by rewrite String.eqb_refl.
  - change (String c a ++ b) with (String c (a ++ b)). cbn [JsText.endsWith].
    rewrite IH. by destruct (String.eqb _ _).
Qed.

Lemma trimEnd_app a b :
  b ≠ "" → Js.trimEnd b = b → Js.trimEnd (a ++ b) = a ++ b.
Proof.
  intros Hb Hend. induction a as [|c a IH]; [done|].
  change (String c a ++ b) with (String c (a ++ b)). cbn [Js.trimEnd].
  rewrite IH. destruct (a ++ b) eqn:Hab; [|done].
  destruct a; [|done]. change ("" ++ b) with b in Hab. by subst.
Qed.

Lemma trimStart_app a b :
  b ≠ "" → starts_black b → ∃ a', Js.trimStart (a ++ b) = a' ++ b.
Proof.
  intros Hb Hblack. induction a as [|c a [a' IH]].
  - exists "". change ("" ++ b) with b. by rewrite trimStart_of_black.
  - change (String c a ++ b) with (String c (a ++ b)). cbn [Js.trimStart].
    destruct (Js.is_white_space c); [by exists a'|]. by exists (String c a).
Qed.

Lemma email_format_domain email :
  email_format email = true →
  ∃ domain, email = JsText.split_first "@" email ++ String "@" domain
            ∧ JsText.split_first "@" email ≠ ""
            ∧ JsText.toLowerCase domain = "uci.edu".
Proof.
  unfold email_format.
  destruct (JsText.after_first "@" email) as [domain|] eqn:Hd; [|done].
  intros [Hl Hdom]%andb_true_iff. exists domain.
  apply negb_true_iff, String.eqb_neq in Hl. apply String.eqb_eq in Hdom.
  split; [by apply split_at|done].
Qed.

Lemma email_format_toLowerCase email :
  email_format (JsText.toLowerCase email) = email_format email.
Proof.
  unfold email_format.
  rewrite after_first_toLowerCase, split_first_toLowerCase.
  destruct (JsText.after_first "@" email) as [domain|]; simpl; [|done].
  rewrite toLowerCase_idem. f_equal. f_equal.
  destruct (String.eqb_spec (JsText.split_first "@" email) "") as [->|Hne]; [done|].
  apply String.eqb_neq. by rewrite toLowerCase_empty.
Qed.

Lemma email_format_valid email :
  email_format email = true → isValidUCIEmail email = true.
Proof.
  intros (domain & Hsplit & _ & Hdom)%email_format_domain.
  remember (JsText.split_first "@" email) as local eqn:Hlocal.
  clear Hlocal. subst email.
  unfold isValidUCIEmail, Js.trim. rewrite toLowerCase_app.
  cbn [JsText.toLowerCase]. rewrite Hdom.
  change (String (JsText.toLowerCase_unit "@") "uci.edu") with "@uci.edu".
  destruct (trimStart_app (JsText.toLowerCase local) "@uci.edu") as [a' ->];
    [done..|].
  rewrite trimEnd_app by done. apply endsWith_app.
Qed.

Lemma isValidUCIEmail_suffix pre : isValidUCIEmail (pre ++ "@uci.edu") = true.
Proof.
  unfold isValidUCIEmail, Js.trim. rewrite toLowerCase_app.
  change (JsText.toLowerCase "@uci.edu") with "@uci.edu".
  destruct (trimStart_app (JsText.toLowerCase pre) "@uci.edu") as [a' ->]; [done..|].
  rewrite trimEnd_app by done. apply endsWith_app.
Qed.

Lemma after_first_app pre rest :
  JsText.after_first "@" (pre ++ String "@" rest)
  = match JsText.after_first "@" pre with
    | Some tail => Some (tail ++ String "@" rest)
    | None => Some rest
    end.
Proof.
  induction pre as [|c pre IH]; [done|].
  change (String c pre ++ ?b) with (String c (pre ++ b)).
  cbn [JsText.after_first]. by destruct (Ascii.eqb c "@").
Qed.

Lemma length_toLowerCase s : String.length (JsText.toLowerCase s) = String.length s.
Proof. induction s as [|c s IH]; cbn [JsText.toLowerCase String.length]; congruence. Qed.

Lemma email_format_suffix pre :
  email_format (pre ++ "@uci.edu") = true
  ↔ pre ≠ "" ∧ JsText.after_first "@" pre = None.
Proof.
  unfold email_format. change "@uci.edu" with (String "@" "uci.edu").
  rewrite after_first_app.
  destruct (JsText.after_first "@" pre) as [tail|] eqn:Hpre.
  - split; [|by intros [_ ?]]. intros [_ Hdom%String.eqb_eq]%andb_true_iff.
    apply (f_equal String.length) in Hdom.
    rewrite length_toLowerCase, length_append in Hdom. cbn in Hdom. lia.
  - rewrite split_first_app by done. rewrite andb_true_r, negb_true_iff.
    rewrite String.eqb_neq. naive_solver.
Qed.

(** X2: every address that satisfies the email_format constraint of the
    profiles table passes [isValidUCIEmail], and lower-casing an address,
    as the callback does before it stores it, does not change whether the
    constraint accepts it. The check is weaker than the constraint: it
    passes whatever ends in [@uci.edu], while the constraint also wants
    the part before it to be not empty and to hold no [@]. *)
Theorem email_format_isValidUCIEmail email before :
  email_format (JsText.toLowerCase email) = email_format email
  ∧ (email_format email = true → isValidUCIEmail email = true)
  ∧ isValidUCIEmail (before ++ "@uci.edu") = true
  ∧ (email_format (before ++ "@uci.edu") = true
     ↔ before ≠ "" ∧ JsText.after_first "@" before = None).
Proof.
  split; [apply email_format_toLowerCase|]. split; [apply email_format_valid|].
  split; [apply isValidUCIEmail_suffix|apply email_format_suffix].
Qed.

Lemma email_format_isValidUCIEmail_witness : isValidUCIEmail "  PAnteater@UCI.edu" = true.
Proof.
  apply (proj1 (proj2 (email_format_isValidUCIEmail "  PAnteater@UCI.edu" ""))).
  reflexivity.
Defined.

(** X3: [getUCINetID] never contains an [@]; for an address that satisfies
    email_format it is the lower-cased part before the [@] and is not
    empty; so [getDisplayName] of a profile that satisfies the constraints
    of its table is never empty. *)
Theorem getDisplayName_not_empty (p : Profile.t) :
  JsText.after_first "@" (getUCINetID (Profile.email p)) = None
  ∧ (∀ local domain,
       JsText.after_first "@" local = None →
       getUCINetID (local ++ String "@" domain) = JsText.toLowerCase local)
  ∧ (profile_checks p = true →
     getUCINetID (Profile.email p) ≠ "" ∧ getDisplayName p ≠ "").
Proof.
  unfold getUCINetID. split; [apply split_first_no_at|]. split.
  - intros local domain Hl. rewrite split_first_toLowerCase. by rewrite split_first_app.
  - intros [Hemail _]%andb_true_iff.
    apply email_format_domain in Hemail as (domain & _ & Hne & _).
    assert (JsText.split_first "@" (JsText.toLowerCase (Profile.email p)) ≠ "") as Hid.
    { by rewrite split_first_toLowerCase, toLowerCase_empty. }
    split; [done|]. unfold getDisplayName, given.
    destruct (Profile.display_name p) as [[|c name]|]; done.
Qed.

Lemma getDisplayName_not_empty_witness :
  getDisplayName (member "poster@uci.edu" true) ≠ "".
Proof.
  apply (proj2 (proj2 (getDisplayName_not_empty (member "poster@uci.edu" true)))).
  reflexivity.
Defined.


Lemma plural_cases n : plural n = if bool_decide (n = 1) then "" else "s".
Proof. unfold plural. case_bool_decide; [by subst|]. by apply Z.eqb_neq in H as ->. Qed.

(** X4: [formatRelativeTime] depends on the elapsed milliseconds only: under
    a minute (also for a date in the future) the answer is "just now", then
    whole minutes up to an hour, whole hours up to a day, whole days up to a
    week, whole weeks up to four weeks, and the calendar date afterwards;
    the number shown is the floor of the elapsed time in its unit and is
    never 0. *)
Theorem formatRelativeTime_buckets (toLocaleDateString : IsoString → string)
    (now t : timestamp) :
  let elapsed := now - t in
  let shown := formatRelativeTime toLocaleDateString now (ValidDate t) in
  let count unit name :=
    pretty (elapsed / unit) ++ name ++ plural (elapsed / unit) ++ " ago" in
  (elapsed < 60000 → shown = "just now")
  ∧ (60000 ≤ elapsed < 3600000 →
     shown = count 60000 " min" ∧ 1 ≤ elapsed / 60000 < 60)
  ∧ (3600000 ≤ elapsed < 86400000 →
     shown = count 3600000 " hour" ∧ 1 ≤ elapsed / 3600000 < 24)
  ∧ (86400000 ≤ elapsed < 604800000 →
     shown = count 86400000 " day" ∧ 1 ≤ elapsed / 86400000 < 7)
  ∧ (604800000 ≤ elapsed < 2419200000 →
     shown = count 604800000 " week" ∧ 1 ≤ elapsed / 604800000 < 4)
  ∧ (2419200000 ≤ elapsed → shown = toLocaleDateString (ValidDate t)).
Proof.
  intros elapsed shown count. subst shown count. unfold formatRelativeTime.
  cbn [js_time]. fold elapsed. cbv zeta.
  rewrite !Z.div_div by lia.
  change (1000 * 60) with 60000. change (60000 * 60) with 3600000.
  change (3600000 * 24) with 86400000. change (86400000 * 7) with 604800000.
  assert (∀ unit bound, 0 < unit → elapsed / unit < bound ↔ elapsed < unit * bound)
    as Hdiv.
  { intros unit bound Hunit. split.
    - intros H. destruct (decide (elapsed < unit * bound)) as [|Hn]; [done|].
      assert (bound ≤ elapsed / unit) by (apply Z.div_le_lower_bound; lia). lia.
    - intros H. apply Z.div_lt_upper_bound; lia. }
  assert (∀ unit bound, 0 < unit → (elapsed / unit <? bound) = true ↔ elapsed < unit * bound)
    as Hlt.
  { intros unit bound Hunit. by rewrite Z.ltb_lt, Hdiv. }
  assert (∀ unit bound, 0 < unit → (elapsed / unit <? bound) = false ↔ unit * bound ≤ elapsed)
    as Hge.
  { intros unit bound Hunit. rewrite Z.ltb_ge. pose proof (Hdiv unit bound Hunit). lia. }
  assert (∀ unit, 0 < unit → unit ≤ elapsed → 1 ≤ elapsed / unit) as Hone.
  { intros unit Hunit H. apply Z.div_le_lower_bound; lia. }
  split; [|split; [|split; [|split; [|split]]]].
  - intros H. by rewrite (proj2 (Hlt 1000 60 eq_refl)) by lia.
  - intros [H1 H2].
    rewrite (proj2 (Hge 1000 60 eq_refl)), (proj2 (Hlt 60000 60 eq_refl)) by lia.
    split; [done|]. split; [apply Hone; lia|apply Z.div_lt_upper_bound; lia].
  - intros [H1 H2].
    rewrite (proj2 (Hge 1000 60 eq_refl)), (proj2 (Hge 60000 60 eq_refl)),
      (proj2 (Hlt 3600000 24 eq_refl)) by lia.
    split; [done|]. split; [apply Hone; lia|apply Z.div_lt_upper_bound; lia].
  - intros [H1 H2].
    rewrite (proj2 (Hge 1000 60 eq_refl)), (proj2 (Hge 60000 60 eq_refl)),
      (proj2 (Hge 3600000 24 eq_refl)), (proj2 (Hlt 86400000 7 eq_refl)) by lia.
    split; [done|]. split; [apply Hone; lia|apply Z.div_lt_upper_bound; lia].
  - intros [H1 H2].
    rewrite (proj2 (Hge 1000 60 eq_refl)), (proj2 (Hge 60000 60 eq_refl)),
      (proj2 (Hge 3600000 24 eq_refl)), (proj2 (Hge 86400000 7 eq_refl)),
      (proj2 (Hlt 604800000 4 eq_refl)) by lia.
    split; [done|]. split; [apply Hone; lia|apply Z.div_lt_upper_bound; lia].
  - intros H.
    by rewrite (proj2 (Hge 1000 60 eq_refl)), (proj2 (Hge 60000 60 eq_refl)),
      (proj2 (Hge 3600000 24 eq_refl)), (proj2 (Hge 86400000 7 eq_refl)),
      (proj2 (Hge 604800000 4 eq_refl)) by lia.
Qed.

Lemma formatRelativeTime_buckets_witness :
  formatRelativeTime (fun _ => "Jan 1") 5400000 (ValidDate 0) = "1 hour ago".
Proof.
  apply (proj1 (proj1 (proj2 (proj2
           (formatRelativeTime_buckets (fun _ => "Jan 1") 5400000 0))) ltac:(lia))).
Defined.

(** ** lib/supabase/middleware.ts *)

Lemma startsWith_refl s : JsText.startsWith s s = true.
Proof.
  unfold JsText.startsWith. induction s as [|c s IH]; [done|].
  cbn [String.prefix]. by destruct (ascii_dec c c).
Qed.

(** X5: the routing of [updateSession] never loops: the path it redirects
    to is served to the same visitor. A visitor without a session is served
    exactly the paths that start with a public route, and sent to /login
    from every other path; a visitor with a session is served every path
    but /login itself, from which they are sent to /. *)
Theorem updateSession_routing (user : option uuid) (pathname : string) :
  (∀ target, updateSession user pathname = RedirectTo target →
     updateSession user target = Next)
  ∧ (user = None →
     updateSession user pathname
     = if bool_decide (Exists (fun route => JsText.startsWith pathname route = true)
                         publicRoutes)
       then Next else RedirectTo "/login")
  ∧ (is_Some user →
     updateSession user pathname
     = if bool_decide (pathname = "/login") then RedirectTo "/" else Next).
Proof.
  split; [|split].
  - intros target. unfold updateSession.
    destruct user as [uid|].
    + rewrite bool_decide_eq_true_2 by done. cbn [negb andb].
      destruct (String.eqb pathname "/login"); [|done]. by intros [= <-].
    + rewrite bool_decide_eq_false_2 by (by intros [? ?]). cbn [negb andb].
      destruct (existsb _ _); [done|]. by intros [= <-].
  - intros ->. unfold updateSession.
    rewrite bool_decide_eq_false_2 by (by intros [? ?]). cbn [negb andb].
    destruct (existsb _ _) eqn:Hpub.
    + rewrite bool_decide_eq_true_2; [done|].
      apply existsb_exists in Hpub as (route & Hin & Hroute).
      apply Exists_exists. exists route. by rewrite list_elem_of_In.
    + rewrite bool_decide_eq_false_2; [done|].
      intros (route & Hin & Hroute)%Exists_exists.
      assert (existsb (fun route => JsText.startsWith pathname route) publicRoutes = true)
        as Hex; [|congruence].
      apply existsb_exists. exists route. by rewrite <-list_elem_of_In.
  - intros Huser. unfold updateSession.
    rewrite bool_decide_eq_true_2 by done. cbn [negb andb].
    destruct (String.eqb_spec pathname "/login") as [->|Hne].
    + by rewrite bool_decide_eq_true_2.
    + by rewrite bool_decide_eq_false_2.
Qed.

Lemma updateSession_routing_witness :
  updateSession (Some 10%N) "/login" = RedirectTo "/"
  ∧ updateSession (Some 10%N) "/" = Next.
Proof.
  split.
  - apply (proj2 (proj2 (updateSession_routing (Some 10%N) "/login"))). by eexists.
  - apply (proj1 (updateSession_routing (Some 10%N) "/login")).
    apply (proj2 (proj2 (updateSession_routing (Some 10%N) "/login"))). by eexists.
Defined.


(** ** lib/actions/blocks.ts *)

Lemma same_block_eq blocker blocked b :
  same_block blocker blocked b ↔ b = Block.mk blocker blocked.
Proof. unfold same_block. destruct b; cbn. naive_solver. Qed.

Lemma Exists_same_block blocker blocked (l : list Block.t) :
  Exists (same_block blocker blocked) l ↔ Block.mk blocker blocked ∈ l.
Proof.
  rewrite Exists_exists. setoid_rewrite same_block_eq. naive_solver.
Qed.

Lemma filter_same_block_nil blocker blocked (l : list Block.t) :
  Block.mk blocker blocked ∉ l → filter (same_block blocker blocked) l = [].
Proof.
  induction l as [|b l IH]; [done|]. intros Hnot.
  apply not_elem_of_cons in Hnot as [Hb Hl].
  rewrite filter_cons_False, IH; [done..|]. rewrite same_block_eq. congruence.
Qed.

Lemma filter_not_same_block (l : list Block.t) blocker blocked :
  Block.mk blocker blocked ∉ l →
  filter (fun b => ¬ same_block blocker blocked b) l = l.
Proof.
  induction l as [|b l IH]; [done|]. intros Hnot.
  apply not_elem_of_cons in Hnot as [Hb Hl].
  rewrite filter_cons_True, IH; [done..|]. rewrite same_block_eq. congruence.
Qed.

(** In a table without duplicates [.single()] finds the row of a pair
    exactly when the pair is blocked. *)
Lemma single_same_block blocker blocked (l : list Block.t) :
  NoDup l →
  single (filter (same_block blocker blocked) l)
  = if bool_decide (Block.mk blocker blocked ∈ l)
    then Some (Block.mk blocker blocked) else None.
Proof.
  intros Hl. case_bool_decide as Hin.
  - induction Hl as [|b l Hb Hl IH]; [by apply elem_of_nil in Hin|].
    destruct (decide (b = Block.mk blocker blocked)) as [->|Hne].
    + rewrite filter_cons_True by (by apply same_block_eq).
      by rewrite filter_same_block_nil.
    + rewrite filter_cons_False by (by rewrite same_block_eq).
      apply IH. apply elem_of_cons in Hin as [|]; [congruence|done].
  - by rewrite filter_same_block_nil.
Qed.

(** [is_blocked] looks in both directions. *)
Lemma is_blocked_spec s v o :
  Schema.is_blocked s (Some v) (Some o) = true
  ↔ Block.mk v o ∈ blocks s ∨ Block.mk o v ∈ blocks s.
Proof.
  unfold Schema.is_blocked. rewrite existsb_exists. split.
  - intros (b & Hb%list_elem_of_In & H). destruct b as [x y]. cbn in H.
    apply orb_true_iff in H as [H|H]; bools; simplify_eq; eauto.
  - intros [H|H]; eexists; (split; [apply list_elem_of_In; exact H|]); cbn;
      rewrite (bool_decide_eq_true_2 (v = v)), (bool_decide_eq_true_2 (o = o)) by done;
      [done|apply orb_true_r].
Qed.

Lemma is_blocked_sym s v o :
  Schema.is_blocked s (Some v) (Some o) = Schema.is_blocked s (Some o) (Some v).
Proof.
  apply eq_true_iff_eq. rewrite !is_blocked_spec. tauto.
Qed.

Lemma insert_block_inv blocker blocked s s' e :
  DbAccounts.insert_block blocker blocked s = (s', e) →
  (s' = s ∧ is_Some e
   ∧ (has_profile s blocker = false ∨ has_profile s blocked = false
      ∨ blocker = blocked ∨ Block.mk blocker blocked ∈ blocks s))
  ∨ (e = None ∧ has_profile s blocker = true ∧ has_profile s blocked = true
     ∧ blocker ≠ blocked ∧ (Block.mk blocker blocked ∉ blocks s)
     ∧ s' = set_blocks s (blocks s ++ [Block.mk blocker blocked])).
Proof.
  unfold DbAccounts.insert_block. intros H.
  destruct (negb _) eqn:Hfk.
  { left. simplify_eq. split; [done|]. split; [by eexists|].
    apply negb_true_iff, andb_false_iff in Hfk. tauto. }
  destruct (bool_decide (blocker = blocked)) eqn:Hself.
  { left. simplify_eq. bools. split; [done|]. split; [by eexists|]. tauto. }
  destruct (bool_decide (Exists _ _)) eqn:Hdup.
  { left. simplify_eq. bools. split; [done|]. split; [by eexists|].
    rewrite <-Exists_same_block. tauto. }
  right. simplify_eq. bools. by rewrite <-Exists_same_block.
Qed.

Lemma blocks_ok_insert_block blocker blocked s :
  blocks_ok s → blocks_ok (DbAccounts.insert_block blocker blocked s).1.
Proof.
  intros [Hdup Hself].
  destruct (DbAccounts.insert_block blocker blocked s) as [s' e] eqn:H.
  apply insert_block_inv in H as [(-> & _)|(_ & _ & _ & Hne & Hnew & ->)]; [done|].
  split; cbn.
  - apply NoDup_app. split; [done|]. split; [|apply NoDup_singleton].
    intros b Hb ->%list_elem_of_singleton. done.
  - apply Forall_app. split; [done|]. by apply Forall_singleton.
Qed.

Lemma blocks_ok_delete_block blocker blocked s :
  blocks_ok s → blocks_ok (DbAccounts.delete_block blocker blocked s).1.
Proof.
  intros [Hdup Hself]. split; cbn.
  - by apply NoDup_filter.
  - rewrite Forall_forall in *. intros b [_ Hb]%list_elem_of_filter. by apply Hself.
Qed.

Lemma blockUser_preserves_blocks_ok user blockedId :
  preserves blocks_ok (blockUser user blockedId).
Proof.
  unfold blockUser. destruct user as [uid|]; [|done].
  case_bool_decide; [done|]. keep. by apply blocks_ok_insert_block.
Qed.

Lemma unblockUser_preserves_blocks_ok user blockedId :
  preserves blocks_ok (unblockUser user blockedId).
Proof.
  unfold unblockUser. destruct user as [uid|]; [|done].
  keep. by apply blocks_ok_delete_block.
Qed.

(** What a call of [blockUser] that runs alone does. *)
Lemma blockUser_run user blockedId s :
  (∃ e, run (blockUser user blockedId) s = (s, Failure e)
        ∧ ¬ ∃ uid, user = Some uid ∧ uid ≠ blockedId
                   ∧ has_profile s uid = true ∧ has_profile s blockedId = true
                   ∧ Block.mk uid blockedId ∉ blocks s)
  ∨ (∃ uid, user = Some uid ∧ uid ≠ blockedId
            ∧ has_profile s uid = true ∧ has_profile s blockedId = true
            ∧ (Block.mk uid blockedId ∉ blocks s)
            ∧ run (blockUser user blockedId) s
              = (set_blocks s (blocks s ++ [Block.mk uid blockedId]), Success tt)).
Proof.
  unfold blockUser. destruct user as [uid|]; [|left; naive_solver].
  case_bool_decide as Hself; [left; naive_solver|].
  cbn [run DbAccounts.select_block Db.select_profile].
  destruct (single _) as [b|] eqn:Hexisting.
  { left. eexists. split; [done|]. intros (? & [= <-] & _ & _ & _ & Hnew).
    by rewrite filter_same_block_nil in Hexisting. }
  cbn [run Db.select_profile].
  destruct (profiles s !! blockedId) as [p|] eqn:Hp.
  2: { left. eexists. split; [done|]. intros (? & [= <-] & _ & _ & Hb & _).
       apply has_profile_true in Hb as [? ?]. congruence. }
  cbn [run].
  destruct (DbAccounts.insert_block uid blockedId s) as [s' e] eqn:Hins.
  apply insert_block_inv in Hins
    as [(-> & [err ->] & Hwhy)|(-> & Hu & Hb & _ & Hnew & ->)].
  - left. eexists. split; [done|]. intros (? & [= <-] & _ & Hu & Hb & Hnew).
    destruct Hwhy as [?|[?|[?|?]]]; congruence.
  - right. exists uid. by repeat split.
Qed.

(** X6: [blockUser] succeeds exactly when the caller is signed in, names
    someone else, both have a profile and the caller has no block on them
    yet. On success one row (caller, blocked) is appended, nothing else
    changes, and [is_blocked] holds for the pair in both directions; on
    failure the store is unchanged. *)
Theorem blockUser_succeeds_iff user blockedId s :
  let '(s', result) := run (blockUser user blockedId) s in
  (is_success result = true
   ↔ ∃ uid, user = Some uid ∧ uid ≠ blockedId
            ∧ has_profile s uid = true ∧ has_profile s blockedId = true
            ∧ Block.mk uid blockedId ∉ blocks s)
  ∧ (is_success result = true →
     ∃ uid, user = Some uid
            ∧ blocks s' = (blocks s ++ [Block.mk uid blockedId])%list
            ∧ same_but_blocks s s'
            ∧ Schema.is_blocked s' (Some uid) (Some blockedId) = true
            ∧ Schema.is_blocked s' (Some blockedId) (Some uid) = true)
  ∧ (is_success result = false → s' = s).
Proof.
  destruct (blockUser_run user blockedId s)
    as [(e & -> & Hnot)|(uid & -> & Hne & Hu & Hb & Hnew & ->)];
    cbv beta iota; cbn [is_success].
  - split; [split; [done|by intros ?%Hnot]|]. by split.
  - split; [split; [|done]; intros _; by exists uid|].
    split; [|done]. intros _. exists uid.
    assert (Block.mk uid blockedId ∈ (blocks s ++ [Block.mk uid blockedId])%list)
      by set_solver.
    repeat split; try done.
    + apply is_blocked_spec. by left.
    + apply is_blocked_spec. by right.
Qed.

(** X7: a block that exists is not inserted again: after a successful
    [blockUser], the same call fails with the message that the user is
    already blocked, and changes nothing. *)
Theorem blockUser_again_rejected uid blockedId s s' :
  blocks_ok s →
  run (blockUser (Some uid) blockedId) s = (s', Success tt) →
  run (blockUser (Some uid) blockedId) s' = (s', Failure "User is already blocked").
Proof.
  intros [Hdup _] Hrun.
  destruct (blockUser_run (Some uid) blockedId s)
    as [(e & He & _)|(? & [= <-] & Hne & _ & _ & Hnew & Hok)]; [congruence|].
  rewrite Hok in Hrun. simplify_eq.
  unfold blockUser. rewrite bool_decide_eq_false_2 by done.
  cbn [run DbAccounts.select_block set_blocks blocks].
  rewrite single_same_block.
  - rewrite bool_decide_eq_true_2 by set_solver. done.
  - apply NoDup_app. split; [done|]. split; [|apply NoDup_singleton].
    by intros b Hb ->%list_elem_of_singleton.
Qed.

Lemma posted_blocks_ok : blocks_ok posted.
Proof. split; [apply NoDup_nil_2|apply Forall_nil_2]. Qed.

Lemma blockUser_again_rejected_witness :
  run (blockUser (Some 10%N) 20%N) (set_blocks posted [Block.mk 10%N 20%N])
  = (set_blocks posted [Block.mk 10%N 20%N], Failure "User is already blocked").
Proof.
  apply (blockUser_again_rejected 10%N 20%N posted); [apply posted_blocks_ok|].
  by vm_compute.
Defined.

(** X8: the blocks table never holds a self-block or the same ordered pair
    twice, however calls of [blockUser] and [unblockUser] interleave: the
    look-up before the insert can be overtaken, the unique constraint
    cannot. *)
Theorem blocks_table_stays_ok sched u1 b1 u2 b2 s :
  blocks_ok s →
  blocks_ok (race sched (blockUser u1 b1) (blockUser u2 b2) s).1.1
  ∧ blocks_ok (race sched (blockUser u1 b1) (unblockUser u2 b2) s).1.1
  ∧ blocks_ok (race sched (unblockUser u1 b1) (unblockUser u2 b2) s).1.1.
Proof.
  intros Hs. split; [|split]; apply race_preserves;
    auto using blockUser_preserves_blocks_ok, unblockUser_preserves_blocks_ok.
Qed.

Lemma blocks_table_stays_ok_witness :
  blocks_ok (race [true; false; true; false; true; false]
               (blockUser (Some 10%N) 20%N) (blockUser (Some 10%N) 20%N) posted).1.1.
Proof.
  apply (blocks_table_stays_ok [true; false; true; false; true; false]
           (Some 10%N) 20%N (Some 10%N) 20%N posted posted_blocks_ok).
Defined.


Lemma blockUser_succeeds_iff_witness :
  is_success (run (blockUser (Some 10%N) 20%N) posted).2 = true.
Proof.
  pose proof (blockUser_succeeds_iff (Some 10%N) 20%N posted) as H.
  destruct (run (blockUser (Some 10%N) 20%N) posted) as [s' result].
  apply (proj2 (proj1 H)). exists 10%N. repeat split; [done|apply not_elem_of_nil].
Defined.

(** X9: [unblockUser] by a caller who is signed in always succeeds, also
    when there is nothing to remove. It removes the caller's own row for
    the pair and no other row, so a block the other side holds stays: the
    pair is still blocked afterwards exactly when the other side had
    blocked the caller. *)
Theorem unblockUser_removes_own_block uid blockedId s :
  let '(s', result) := run (unblockUser (Some uid) blockedId) s in
  result = Success tt
  ∧ same_but_blocks s s'
  ∧ (∀ b, b ∈ blocks s' ↔ b ∈ blocks s ∧ b ≠ Block.mk uid blockedId)
  ∧ (Block.mk uid blockedId ∉ blocks s → s' = s)
  ∧ (uid ≠ blockedId →
     Schema.is_blocked s' (Some uid) (Some blockedId) = true
     ↔ Block.mk blockedId uid ∈ blocks s).
Proof.
  unfold unblockUser. cbn [run DbAccounts.delete_block].
  assert (∀ b, b ∈ filter (fun b => ¬ same_block uid blockedId b) (blocks s)
               ↔ b ∈ blocks s ∧ b ≠ Block.mk uid blockedId) as Hrows.
  { intros b. rewrite list_elem_of_filter, same_block_eq. tauto. }
  split; [done|]. split; [done|]. split; [exact Hrows|]. split.
  - intros Hnot. cbn. rewrite filter_not_same_block by done. by destruct s.
  - intros Hne. rewrite is_blocked_spec. cbn [blocks set_blocks].
    rewrite !Hrows. split.
    + intros [[_ []]|[H _]]; done.
    + intros H. right. split; [done|]. intros [= ? ?]. congruence.
Qed.

Lemma unblockUser_removes_own_block_witness :
  Schema.is_blocked
    (run (unblockUser (Some 10%N) 20%N)
       (set_blocks posted [Block.mk 10%N 20%N; Block.mk 20%N 10%N])).1
    (Some 10%N) (Some 20%N) = true.
Proof.
  pose proof (unblockUser_removes_own_block 10%N 20%N
                (set_blocks posted [Block.mk 10%N 20%N; Block.mk 20%N 10%N])) as H.
  destruct (run _ _) as [s' result].
  apply (proj2 (proj2 (proj2 (proj2 H)))); [done|]. cbn. set_solver.
Defined.

(** X10: blocking and then unblocking leaves the store exactly as it was
    before the block. *)
Theorem block_then_unblock_restores uid blockedId s s' :
  run (blockUser (Some uid) blockedId) s = (s', Success tt) →
  run (unblockUser (Some uid) blockedId) s' = (s, Success tt).
Proof.
  intros Hrun.
  destruct (blockUser_run (Some uid) blockedId s)
    as [(e & He & _)|(? & [= <-] & Hne & _ & _ & Hnew & Hok)]; [congruence|].
  rewrite Hok in Hrun. simplify_eq.
  unfold unblockUser. cbn [run DbAccounts.delete_block set_blocks blocks].
  rewrite filter_app, filter_not_same_block by done.
  rewrite filter_cons_False, filter_nil by (intros Hn; apply Hn; by split).
  rewrite app_nil_r. by destruct s.
Qed.

Lemma block_then_unblock_restores_witness :
  run (unblockUser (Some 10%N) 20%N) (set_blocks posted [Block.mk 10%N 20%N])
  = (posted, Success tt).
Proof.
  apply (block_then_unblock_restores 10%N 20%N posted). by vm_compute.
Defined.

(** X11: once [blockUser] has succeeded, neither of the two can accept a
    task the other posted, and no message can be written in a task the two
    share, whoever placed the block; each such call fails and leaves the
    store unchanged. *)
Theorem block_closes_accept_and_chat env a b s s' taskId r :
  run (blockUser (Some a) b) s = (s', Success tt) →
  tasks s' !! taskId = Some r →
  (∀ caller,
     (Task.poster_id r = a ∧ caller = b) ∨ (Task.poster_id r = b ∧ caller = a) →
     ∃ e, run (acceptTask env (Some caller) taskId) s' = (s', Failure e))
  ∧ (∀ user body,
       (Task.poster_id r = a ∧ Task.accepted_by_user_id r = Some b)
       ∨ (Task.poster_id r = b ∧ Task.accepted_by_user_id r = Some a) →
       ∃ e, run (sendMessage env user taskId body) s' = (s', Failure e)).
Proof.
  intros Hrun Hr.
  destruct (blockUser_run (Some a) b s)
    as [(e & He & _)|(? & [= <-] & _ & _ & _ & _ & Hok)]; [congruence|].
  rewrite Hok in Hrun. simplify_eq.
  assert (Schema.is_blocked (set_blocks s (blocks s ++ [Block.mk a b]))
            (Some a) (Some b) = true) as Hab.
  { apply is_blocked_spec. left. cbn. apply elem_of_app. right.
    by apply list_elem_of_singleton. }
  pose proof Hab as Hba. rewrite is_blocked_sym in Hba.
  set (s' := set_blocks s (blocks s ++ [Block.mk a b])) in *. split.
  - intros caller Hpair.
    destruct (acceptTask_run env (Some caller) taskId s')
      as [He|(uid & r' & [= <-] & Hr' & _ & _ & _ & Hfree & _)]; [done|].
    simplify_eq. destruct Hpair as [[Hp ->]|[Hp ->]]; rewrite Hp in Hfree; congruence.
  - intros user body Hpair.
    destruct (sendMessage_run env user taskId body s')
      as [He|(uid & r' & _ & Hr' & _ & _ & Hfree & _)]; [done|].
    simplify_eq. destruct Hpair as [[Hp Hw]|[Hp Hw]];
      rewrite Hp, Hw in Hfree; congruence.
Qed.

Lemma block_closes_accept_and_chat_witness :
  ∃ e, run (sendMessage (at_time 300) (Some 20%N) 1%N "On my way") blocked
       = (blocked, Failure e).
Proof.
  eapply (proj2 (block_closes_accept_and_chat (at_time 300) 10%N 20%N accepted blocked
                   1%N _ ltac:(by vm_compute) ltac:(by vm_compute))).
  left. by vm_compute.
Defined.

Lemma bool_decide_is_Some_if {A} (b : bool) (x : A) :
  bool_decide (is_Some (if b then Some x else None)) = b.
Proof.
  destruct b; [by rewrite bool_decide_eq_true_2|].
  by rewrite bool_decide_eq_false_2 by (by intros [? ?]).
Qed.

(** X12: [isUserBlocked] answers for the caller's own block only. After a
    successful [blockUser] the blocker is told [true]; what the blocked
    side is told stays what it was before, [true] only if they hold a block
    of their own. Neither call changes the store. *)
Theorem isUserBlocked_own_direction a b s s' :
  blocks_ok s →
  run (blockUser (Some a) b) s = (s', Success tt) →
  run (isUserBlocked (Some a) b) s' = (s', Success true)
  ∧ run (isUserBlocked (Some b) a) s'
    = (s', Success (bool_decide (Block.mk b a ∈ blocks s)))
  ∧ run (isUserBlocked (Some b) a) s = (s, Success (bool_decide (Block.mk b a ∈ blocks s))).
Proof.
  intros [Hdup _] Hrun.
  destruct (blockUser_run (Some a) b s)
    as [(e & He & _)|(? & [= <-] & Hne & _ & _ & Hnew & Hok)]; [congruence|].
  rewrite Hok in Hrun. simplify_eq.
  assert (NoDup (blocks s ++ [Block.mk a b])) as Hdup'.
  { apply NoDup_app. split; [done|]. split; [|apply NoDup_singleton].
    by intros x Hx ->%list_elem_of_singleton. }
  unfold isUserBlocked. cbn [run DbAccounts.select_block set_blocks blocks].
  rewrite !single_same_block, !bool_decide_is_Some_if by done.
  split; [|split; [|done]].
  - by rewrite bool_decide_eq_true_2
      by (apply elem_of_app; right; apply list_elem_of_singleton; done).
  - do 2 f_equal. apply bool_decide_ext. rewrite elem_of_app, list_elem_of_singleton.
    split; [|by left]. intros [?|[= ? ?]]; [done|congruence].
Qed.

Lemma isUserBlocked_own_direction_witness :
  run (isUserBlocked (Some 20%N) 10%N) (set_blocks posted [Block.mk 10%N 20%N])
  = (set_blocks posted [Block.mk 10%N 20%N], Success false).
Proof.
  apply (proj1 (proj2 (isUserBlocked_own_direction 10%N 20%N posted _
                         posted_blocks_ok ltac:(by vm_compute)))).
Defined.


(** ** lib/actions/auth.ts *)

Lemma update_profile_inv uid u s s' e :
  DbAccounts.update_profile uid u s = (s', e) →
  (profiles s !! uid = None ∧ s' = s ∧ e = None)
  ∨ (∃ p, profiles s !! uid = Some p
          ∧ profile_checks (apply_profile_update u p) = false
          ∧ s' = s ∧ e = Some CheckViolation)
  ∨ (∃ p, profiles s !! uid = Some p ∧ e = None
          ∧ profile_checks (apply_profile_update u p) = true
          ∧ s' = set_profiles s (<[uid := apply_profile_update u p]> (profiles s))).
Proof.
  unfold DbAccounts.update_profile. intros H.
  destruct (profiles s !! uid) as [p|] eqn:Hp; [|left; by simplify_eq].
  destruct (negb _) eqn:Hck; simplify_eq; right; [left|right].
  - apply negb_true_iff in Hck. by exists p.
  - apply negb_false_iff in Hck. by exists p.
Qed.

Lemma posted_profiles_ok : profiles_ok posted.
Proof.
  split.
  - unfold posted, campus. cbn [profiles].
    repeat (apply map_Forall_insert_2; [reflexivity|]). apply map_Forall_empty.
  - intros u v p q Hu Hv Hemail. unfold posted, campus in *. cbn [profiles] in *.
    repeat (rewrite lookup_insert_Some in Hu; destruct Hu as [[<- <-]|[? Hu]]);
      try (by rewrite lookup_empty in Hu);
      repeat (rewrite lookup_insert_Some in Hv; destruct Hv as [[<- <-]|[? Hv]]);
      try (by rewrite lookup_empty in Hv); done.
Qed.

(** X13: [acceptRules] succeeds exactly for a caller who names themselves.
    It touches no table but profiles and no row but the caller's own, in
    which it sets the gate and nothing else; a caller who has no profile
    row is told of success although nothing was stored, and the gate stays
    closed for them. A failed call changes nothing. *)
Theorem acceptRules_opens_own_gate user userId s :
  profiles_ok s →
  let '(s', result) := run (acceptRules user userId) s in
  (is_success result = true ↔ user = Some userId)
  ∧ same_but_profiles s s'
  ∧ (∀ uid, uid ≠ userId → profiles s' !! uid = profiles s !! uid)
  ∧ (is_success result = false → s' = s)
  ∧ (is_success result = true →
     match profiles s !! userId with
     | Some p => profiles s' !! userId = Some (with_rules_accepted p)
                 ∧ passed_rules_gate s' user = true
     | None => s' = s ∧ passed_rules_gate s' user = false
     end).
Proof.
  intros [Hchecks _]. unfold acceptRules.
  destruct user as [uid|]; [|by repeat split].
  case_bool_decide as Hother.
  { repeat split; try done. intros [= ->]. done. }
  subst uid. cbn [run].
  destruct (DbAccounts.update_profile userId _ s) as [s' e] eqn:Hu.
  apply update_profile_inv in Hu
    as [(Hnone & -> & ->)|[(p & Hp & Hbad & -> & ->)|(p & Hp & -> & _ & ->)]];
    cbn [run is_success].
  - rewrite Hnone. repeat split; try done. cbn. by rewrite Hnone.
  - pose proof (Hchecks userId p Hp) as Hck. cbn in Hck, Hbad.
    unfold profile_checks in *. cbn in Hbad. congruence.
  - rewrite Hp. repeat split; try done.
    + intros uid Hne. cbn. by rewrite lookup_insert_ne.
    + cbn. by rewrite lookup_insert_eq.
    + cbn. by rewrite lookup_insert_eq.
Qed.

Lemma acceptRules_opens_own_gate_witness :
  passed_rules_gate (run (acceptRules (Some 40%N) 40%N) posted).1 (Some 40%N) = true.
Proof.
  pose proof (acceptRules_opens_own_gate (Some 40%N) 40%N posted posted_profiles_ok) as H.
  destruct (run (acceptRules (Some 40%N) 40%N) posted) as [s' result].
  destruct H as (Hiff & _ & _ & _ & Hgate).
  apply (Hgate (proj2 Hiff eq_refl)).
Defined.

Lemma stored_name_given displayName :
  given (Some (Js.trim displayName)) = stored_name displayName.
Proof.
  unfold given, stored_name. destruct (Js.trim displayName) eqn:Ht; by case_decide.
Qed.

Lemma stored_name_idem displayName :
  stored_name (Js.trim displayName) = stored_name displayName.
Proof. unfold stored_name. by rewrite trim_idem. Qed.

(** X14: [updateDisplayName] stores the trimmed name, or no name when the
    trimmed text is empty, and refuses a trimmed text of more than 50
    characters without changing anything. The stored name is never the
    empty string and never longer than 50; the rest of the row, the other
    rows and the other tables are untouched; [getCurrentProfile] reads the
    new row back; sending the trimmed text again changes nothing. *)
Theorem updateDisplayName_stores_trimmed uid displayName s p :
  profiles s !! uid = Some p → profile_checks p = true →
  let '(s', result) := run (updateDisplayName (Some uid) displayName) s in
  if decide (Js.len (Js.trim displayName) ≤ 50)
  then
    let p' := with_display_name (stored_name displayName) p in
    result = Success tt
    ∧ s' = set_profiles s (<[uid := p']> (profiles s))
    ∧ stored_name displayName ≠ Some ""
    ∧ profile_checks p' = true
    ∧ run (getCurrentProfile (Some uid)) s' = (s', Success (Some p'))
    ∧ run (updateDisplayName (Some uid) (Js.trim displayName)) s' = (s', Success tt)
  else
    result = Failure "Display name must be 50 characters or less" ∧ s' = s.
Proof.
  intros Hp Hck. unfold updateDisplayName. cbv zeta.
  case_decide as Hlen.
  - rewrite (proj2 (Z.ltb_ge _ _)) by lia. rewrite stored_name_given.
    assert (profile_checks (with_display_name (stored_name displayName) p) = true) as Hck'.
    { unfold profile_checks in *. cbn. apply andb_true_iff in Hck as [-> _].
      unfold stored_name. case_decide; [done|]. by apply Z.leb_le. }
    assert (∀ s0 q, profiles s0 !! uid = Some q →
              profile_checks (with_display_name (stored_name displayName) q) = true →
              DbAccounts.update_profile uid
                (ProfileUpdate.mk None (Some (stored_name displayName))) s0
              = (set_profiles s0
                   (<[uid := with_display_name (stored_name displayName) q]> (profiles s0)),
                 None)) as Hupdate.
    { intros s0 q Hq Hq'. unfold DbAccounts.update_profile. rewrite Hq.
      change (apply_profile_update _ q)
        with (with_display_name (stored_name displayName) q).
      by rewrite Hq'. }
    cbn [run]. rewrite (Hupdate s p Hp Hck'). cbn [run].
    split; [done|]. split; [done|]. split.
    { unfold stored_name. case_decide; congruence. }
    split; [done|]. split.
    { unfold getCurrentProfile. cbn. by rewrite lookup_insert_eq. }
    rewrite trim_idem. rewrite (proj2 (Z.ltb_ge _ _)) by lia.
    rewrite stored_name_given. cbn [run].
    rewrite (Hupdate _ (with_display_name (stored_name displayName) p)); cbn [run].
    + cbn. by rewrite insert_insert_eq.
    + cbn. by rewrite lookup_insert_eq.
    + done.
  - by rewrite (proj2 (Z.ltb_lt _ _)) by lia.
Qed.

Lemma updateDisplayName_stores_trimmed_witness :
  run (getCurrentProfile (Some 20%N))
    (run (updateDisplayName (Some 20%N) "  Peter  ") posted).1
  = ((run (updateDisplayName (Some 20%N) "  Peter  ") posted).1,
     Success (Some (with_display_name (Some "Peter") (member "worker@uci.edu" true)))).
Proof.
  pose proof (updateDisplayName_stores_trimmed 20%N "  Peter  " posted
                (member "worker@uci.edu" true) eq_refl eq_refl) as H.
  destruct (run (updateDisplayName (Some 20%N) "  Peter  ") posted) as [s' result].
  exact (proj1 (proj2 (proj2 (proj2 (proj2 H))))).
Defined.


(** ** app/(auth)/auth/callback/route.ts and app/(main)/layout.tsx *)

Lemma email_taken_false s email :
  DbAccounts.email_taken s email = false
  ↔ ∀ uid p, profiles s !! uid = Some p → Profile.email p ≠ email.
Proof.
  unfold DbAccounts.email_taken. rewrite bool_decide_eq_false. split.
  - intros Hnot uid p Hp Hemail. apply Hnot. by exists uid, p.
  - intros Hall (uid & p & Hp & Hemail). by apply (Hall uid p).
Qed.

Lemma upsert_profile_inv now uid email s s' e :
  DbAccounts.upsert_profile now uid email s = (s', e) →
  (s' = s
   ∧ (is_Some (profiles s !! uid)
      ∨ profile_checks (Profile.mk email None false now) = false
      ∨ DbAccounts.email_taken s email = true))
  ∨ (profiles s !! uid = None
     ∧ profile_checks (Profile.mk email None false now) = true
     ∧ DbAccounts.email_taken s email = false
     ∧ s' = set_profiles s (<[uid := Profile.mk email None false now]> (profiles s))).
Proof.
  unfold DbAccounts.upsert_profile. intros H.
  destruct (negb _) eqn:Hck.
  { left. simplify_eq. apply negb_true_iff in Hck. auto. }
  destruct (has_profile s uid) eqn:Hid.
  { left. simplify_eq. apply has_profile_true in Hid. auto. }
  destruct (DbAccounts.email_taken s email) eqn:Hemail.
  { left. simplify_eq. auto. }
  right. simplify_eq. apply negb_false_iff in Hck.
  unfold has_profile in Hid. apply bool_decide_eq_false in Hid.
  by rewrite <-eq_None_not_Some in Hid.
Qed.

Lemma profiles_ok_insert s uid p :
  profiles_ok s → profile_checks p = true →
  DbAccounts.email_taken s (Profile.email p) = false →
  profiles_ok (set_profiles s (<[uid := p]> (profiles s))).
Proof.
  intros [Hck Huniq] Hp Hfree. rewrite email_taken_false in Hfree. split; cbn.
  - by apply map_Forall_insert_2.
  - intros u v q1 q2 Hu Hv Hemail.
    apply lookup_insert_Some in Hu as [[<- <-]|[? Hu]];
      apply lookup_insert_Some in Hv as [[<- <-]|[? Hv]]; try done.
    + by destruct (Hfree v q2 Hv).
    + by destruct (Hfree u q1 Hu).
    + by apply (Huniq u v q1 q2).
Qed.

Lemma profiles_ok_update s uid p p' :
  profiles_ok s → profiles s !! uid = Some p →
  profile_checks p' = true → Profile.email p' = Profile.email p →
  profiles_ok (set_profiles s (<[uid := p']> (profiles s))).
Proof.
  intros [Hck Huniq] Hp Hp' Hemail. split; cbn.
  - by apply map_Forall_insert_2.
  - intros u v q1 q2 Hu Hv Hsame.
    apply lookup_insert_Some in Hu as [[<- <-]|[? Hu]];
      apply lookup_insert_Some in Hv as [[<- <-]|[? Hv]]; try done.
    + rewrite Hemail in Hsame. by apply (Huniq uid v p q2).
    + rewrite Hemail in Hsame. by apply (Huniq u uid q1 p).
    + by apply (Huniq u v q1 q2).
Qed.

Lemma update_profile_hit uid u s p :
  profiles s !! uid = Some p → profile_checks (apply_profile_update u p) = true →
  DbAccounts.update_profile uid u s
  = (set_profiles s (<[uid := apply_profile_update u p]> (profiles s)), None).
Proof. unfold DbAccounts.update_profile. by intros -> ->. Qed.

(** The three ways through the callback: back to the login page with the
    store untouched; a user who is known, or whose row could not be
    stored, with the store untouched; a first sign-in, with the new row. *)
Lemma GET_run now error errorDescription code exchange s :
  (∃ m, run (GET now error errorDescription code exchange) s = (s, ToLogin m))
  ∨ (∃ c user email,
       given error = None ∧ given code = Some c
       ∧ exchange c = Exchange.mk (Some user) None
       ∧ AuthUser.email user = Some email ∧ isValidUCIEmail email = true
       ∧ ((∃ p, profiles s !! AuthUser.id user = Some p
                ∧ run (GET now error errorDescription code exchange) s
                  = (s, if Profile.accepted_rules p then ToHome else ToRules))
          ∨ (profiles s !! AuthUser.id user = None
             ∧ (profile_checks (Profile.mk (JsText.toLowerCase email) None false now) = false
                ∨ DbAccounts.email_taken s (JsText.toLowerCase email) = true)
             ∧ run (GET now error errorDescription code exchange) s = (s, ToHome))
          ∨ (profiles s !! AuthUser.id user = None
             ∧ profile_checks (Profile.mk (JsText.toLowerCase email) None false now) = true
             ∧ DbAccounts.email_taken s (JsText.toLowerCase email) = false
             ∧ run (GET now error errorDescription code exchange) s
               = (set_profiles s
                    (<[AuthUser.id user :=
                         Profile.mk (JsText.toLowerCase email) None false now]>
                       (profiles s)),
                  ToRules)))).
Proof.
  unfold GET. destruct (given error) as [err|]; [left; by eauto|].
  destruct (given code) as [c|]; [|left; by eauto].
  destruct (exchange c) as [[user|] [exchangeError|]] eqn:Hex;
    cbn [Exchange.exchangeError Exchange.user]; try (left; by eauto).
  destruct (AuthUser.email user) as [email0|] eqn:Hemail0; [|left; by eauto].
  destruct (given (Some email0)) as [email|] eqn:Hgiven; [|left; by eauto].
  assert (email = email0) as ->.
  { unfold given in Hgiven. destruct (Js.truthy email0); congruence. }
  destruct (isValidUCIEmail email0) eqn:Hvalid; cbn [negb]; [|left; by eauto].
  right. exists c, user, email0. do 5 (split; [done|]).
  cbn [run].
  destruct (DbAccounts.upsert_profile now (AuthUser.id user)
              (JsText.toLowerCase email0) s) as [s1 e] eqn:Hup.
  apply upsert_profile_inv in Hup as [[-> Hwhy]|(Hnew & Hck & Hfree & ->)].
  - cbn [run Db.select_profile].
    destruct (profiles s !! AuthUser.id user) as [p|] eqn:Hp.
    + left. exists p. split; [done|]. by destruct (Profile.accepted_rules p).
    + right. left. split; [done|]. split; [|done].
      destruct Hwhy as [[? ?]|[?|?]]; [done|by left|by right].
  - right. right. do 3 (split; [done|]).
    cbn [run Db.select_profile set_profiles profiles]. by rewrite lookup_insert_eq.
Qed.

(** A session with an address that passes the check goes on to the
    profile. *)
Lemma GET_not_login now code c exchange user email s m :
  given code = Some c → exchange c = Exchange.mk (Some user) None →
  AuthUser.email user = Some email → isValidUCIEmail email = true →
  run (GET now None None code exchange) s ≠ (s, ToLogin m).
Proof.
  intros Hc Hex Hemail Hvalid. unfold GET. cbn [given]. rewrite Hc, Hex.
  cbn [Exchange.exchangeError Exchange.user]. rewrite Hemail.
  destruct email as [|ch email]; [done|]. cbn [given Js.truthy].
  rewrite Hvalid. cbn [negb run].
  destruct (DbAccounts.upsert_profile _ _ _ s) as [? ?].
  cbn [run Db.select_profile]. by repeat case_match.
Qed.

(** X15: the sign-in callback never changes a profile row that exists and
    touches no other table. It adds one row at most, and only for a session
    whose email passed [isValidUCIEmail]: the row of the signed-in user,
    with the lower-cased email, no display name and the gate closed, and
    the browser is then sent to /rules. A redirect to the login page leaves
    the store as it was, and the constraints of the profiles table hold
    afterwards if they held before. *)
Theorem callback_adds_one_closed_profile now error errorDescription code exchange s :
  let '(s', landing) := run (GET now error errorDescription code exchange) s in
  same_but_profiles s s'
  ∧ (∀ uid p, profiles s !! uid = Some p → profiles s' !! uid = Some p)
  ∧ (∀ uid p, profiles s !! uid = None → profiles s' !! uid = Some p →
       ∃ c user email,
         given code = Some c ∧ Exchange.user (exchange c) = Some user
         ∧ AuthUser.id user = uid ∧ AuthUser.email user = Some email
         ∧ isValidUCIEmail email = true
         ∧ p = Profile.mk (JsText.toLowerCase email) None false now
         ∧ landing = ToRules
         ∧ s' = set_profiles s (<[uid := p]> (profiles s)))
  ∧ (∀ m, landing = ToLogin m → s' = s)
  ∧ (profiles_ok s → profiles_ok s').
Proof.
  destruct (GET_run now error errorDescription code exchange s)
    as [[m ->]|(c & user & email & _ & Hc & Hex & Hemail & Hvalid
                & [(p & Hp & ->)|[(Hnew & _ & ->)|(Hnew & Hck & Hfree & ->)]])].
  all: cbv beta iota.
  1-3: split; [done|]; split; [done|]; split; [intros; congruence|]; by split.
  split; [done|]. split; [|split; [|split]].
  - intros uid p Hp. cbn. rewrite lookup_insert_ne; [done|]. congruence.
  - intros uid p Hnone Hsome. cbn in Hsome.
    apply lookup_insert_Some in Hsome as [[<- <-]|[_ ?]]; [|congruence].
    exists c, user, email. rewrite Hex. by repeat split.
  - done.
  - intros Hok. by apply profiles_ok_insert.
Qed.

(** X16: a first sign-in with an address the profiles table accepts and
    does not hold yet is sent to /rules; the layout of the application
    keeps redirecting there until [acceptRules] has run, and renders
    afterwards, with the gate of [createTask] and [acceptTask] open. *)
Theorem onboarding_opens_the_app now code c exchange user email s :
  given code = Some c → exchange c = Exchange.mk (Some user) None →
  AuthUser.email user = Some email → email_format email = true →
  profiles s !! AuthUser.id user = None →
  DbAccounts.email_taken s (JsText.toLowerCase email) = false →
  let uid := AuthUser.id user in
  let '(s1, landing) := run (GET now None None code exchange) s in
  landing = ToRules
  ∧ run (MainLayout (Some uid)) s1 = (s1, Redirected "/rules")
  ∧ let '(s2, result) := run (acceptRules (Some uid) uid) s1 in
    result = Success tt
    ∧ run (MainLayout (Some uid)) s2 = (s2, Render)
    ∧ passed_rules_gate s2 (Some uid) = true.
Proof.
  intros Hc Hex Hemail Hformat Hnew Hfree uid.
  assert (profile_checks (Profile.mk (JsText.toLowerCase email) None false now) = true)
    as Hck.
  { unfold profile_checks. cbn. by rewrite email_format_toLowerCase, Hformat. }
  destruct (GET_run now None None code exchange s)
    as [[m Hrun]|(c' & user' & email' & _ & Hc' & Hex' & Hemail' & Hvalid & Hways)].
  { exfalso. revert Hrun. apply (GET_not_login now code c exchange user email); try done.
    by apply email_format_valid. }
  rewrite Hc in Hc'. injection Hc' as <-. rewrite Hex in Hex'.
  injection Hex' as <-. rewrite Hemail in Hemail'. injection Hemail' as <-.
  destruct Hways as [(p & Hp & _)|[(_ & [Hbad|Htaken] & _)|(_ & _ & _ & ->)]];
    [congruence..|].
  split; [done|]. fold uid.
  set (row := Profile.mk (JsText.toLowerCase email) None false now) in *.
  set (s1 := set_profiles s (<[uid := row]> (profiles s))).
  assert (profiles s1 !! uid = Some row) as Hrow by apply lookup_insert_eq.
  unfold MainLayout, acceptRules. cbn [run Db.select_profile]. rewrite Hrow.
  split; [done|]. rewrite bool_decide_eq_false_2 by naive_solver. cbn [run].
  rewrite (update_profile_hit uid _ s1 row) by done.
  cbn [run Db.select_profile set_profiles profiles passed_rules_gate].
  by rewrite !lookup_insert_eq.
Qed.

Lemma onboarding_opens_the_app_witness :
  (run (GET 900 None None (Some "code") first_session) posted).2 = ToRules.
Proof.
  pose proof (onboarding_opens_the_app 900 (Some "code") "code" first_session newcomer
                "Freshman@UCI.edu" posted eq_refl eq_refl eq_refl eq_refl eq_refl
                ltac:(by vm_compute)) as H.
  cbv zeta in H.
  destruct (run (GET 900 None None (Some "code") first_session) posted) as [s1 landing].
  exact (proj1 H).
Defined.

(** X17: a signed-in user who has no profile row cannot get past the rules
    page: [acceptRules] answers success and stores nothing, and the layout
    sends them to /rules before and after. The callback leaves a new user
    in that state, on the home page, when the row it tries to store is
    refused: an address that passes [isValidUCIEmail] but not the
    email_format constraint, or an email another row holds. *)
Theorem no_profile_no_way_past_rules now code c exchange user email s :
  given code = Some c → exchange c = Exchange.mk (Some user) None →
  AuthUser.email user = Some email → isValidUCIEmail email = true →
  profiles s !! AuthUser.id user = None →
  email_format email = false ∨ DbAccounts.email_taken s (JsText.toLowerCase email) = true →
  let uid := AuthUser.id user in
  run (GET now None None code exchange) s = (s, ToHome)
  ∧ run (MainLayout (Some uid)) s = (s, Redirected "/rules")
  ∧ run (acceptRules (Some uid) uid) s = (s, Success tt).
Proof.
  intros Hc Hex Hemail Hvalid Hnew Hwhy uid.
  split; [|split].
  - destruct (GET_run now None None code exchange s)
      as [[m Hrun]|(c' & user' & email' & _ & Hc' & Hex' & Hemail' & _ & Hways)].
    { exfalso. revert Hrun. by apply (GET_not_login now code c exchange user email). }
    rewrite Hc in Hc'. injection Hc' as <-. rewrite Hex in Hex'.
    injection Hex' as <-. rewrite Hemail in Hemail'. injection Hemail' as <-.
    destruct Hways as [(p & Hp & _)|[(_ & _ & Hrun)|(_ & Hck & Hfree & _)]];
      [congruence|done|].
    exfalso. destruct Hwhy as [Hbad|Htaken]; [|congruence].
    unfold profile_checks in Hck. cbn in Hck.
    rewrite email_format_toLowerCase, Hbad in Hck. done.
  - unfold MainLayout. cbn [run Db.select_profile]. fold uid in Hnew.
    by rewrite Hnew.
  - unfold acceptRules. rewrite bool_decide_eq_false_2 by naive_solver.
    cbn [run]. unfold DbAccounts.update_profile. fold uid in Hnew. by rewrite Hnew.
Qed.

Lemma no_profile_no_way_past_rules_witness :
  run (GET 900 None None (Some "code")
         (fun _ => Exchange.mk (Some (AuthUser.mk 50%N (Some "New@UCI.edu"))) None))
    posted
  = (posted, ToHome).
Proof.
  apply (no_profile_no_way_past_rules 900 (Some "code") "code"
           (fun _ => Exchange.mk (Some (AuthUser.mk 50%N (Some "New@UCI.edu"))) None)
           (AuthUser.mk 50%N (Some "New@UCI.edu")) "New@UCI.edu" posted
           eq_refl eq_refl eq_refl eq_refl eq_refl).
  right. by vm_compute.
Defined.


(** ** The lifecycle handlers: when they succeed *)

Lemma trim_not_empty_len s : Js.trim s ≠ "" → 1 ≤ Js.len (Js.trim s).
Proof.
  intros Hne. pose proof (len_nonneg (Js.trim s)).
  destruct (decide (Js.len (Js.trim s) = 0)) as [H0%len_zero|]; [done|lia].
Qed.

Lemma truthy_of_trim s : Js.trim s ≠ "" → Js.truthy s = true.
Proof. by destruct s. Qed.

Lemma not_after_em now d : not_after now d ∨ ¬ not_after now d.
Proof.
  unfold not_after. destruct d as [x|]; [|left; by left].
  destruct (js_time x) as [t|] eqn:Ht.
  - destruct (decide (t ≤ now)); [left; right; by eauto|right].
    intros [|(? & ? & [= <-] & ? & ?)]; [done|]. by simplify_eq.
  - right. intros [|(? & ? & [= <-] & ? & ?)]; [done|]. by simplify_eq.
Qed.

Lemma turned_down_em now input : turned_down now input ∨ ¬ turned_down now input.
Proof.
  unfold turned_down, text_or_price_violated.
  destruct (not_after_em now (CreateTaskInput.scheduled_at input));
    destruct (decide (CreateTaskInput.time_window input = SCHEDULED));
    destruct (decide (Js.trim (CreateTaskInput.title input) = ""
                      ∨ 80 < Js.len (CreateTaskInput.title input)
                      ∨ Js.trim (CreateTaskInput.description input) = ""
                      ∨ 1000 < Js.len (CreateTaskInput.description input)
                      ∨ Js.trim (CreateTaskInput.location_text input) = ""
                      ∨ 120 < Js.len (CreateTaskInput.location_text input)
                      ∨ CreateTaskInput.price_cents input < 500
                      ∨ 50000 < CreateTaskInput.price_cents input));
    tauto.
Qed.

Lemma schedule_readable_em input : schedule_readable input ∨ ¬ schedule_readable input.
Proof.
  unfold schedule_readable.
  destruct (decide (CreateTaskInput.time_window input = SCHEDULED)) as [Hw|]; [|by left].
  destruct (CreateTaskInput.scheduled_at input) as [x|].
  - destruct (pg_time x) as [t|] eqn:Ht.
    + left. intros _. exists x. by rewrite Ht.
    + right. intros H. destruct (H Hw) as (? & [= <-] & [? ?]). congruence.
  - right. intros H. by destruct (H Hw) as (? & [=] & _).
Qed.

(** An input that the tests do not turn down passes [validateTaskInput]. *)
Lemma validateTaskInput_complete now input :
  ¬ turned_down now input → validateTaskInput now input = None.
Proof.
  intros Hok. unfold turned_down, text_or_price_violated in Hok.
  assert (Js.trim (CreateTaskInput.title input) ≠ "") as Ht by tauto.
  assert (Js.trim (CreateTaskInput.description input) ≠ "") as Hd by tauto.
  assert (Js.trim (CreateTaskInput.location_text input) ≠ "") as Hl by tauto.
  assert (Js.len (CreateTaskInput.title input) ≤ 80) as Ht' by (apply Z.nlt_ge; tauto).
  assert (Js.len (CreateTaskInput.description input) ≤ 1000) as Hd'
    by (apply Z.nlt_ge; tauto).
  assert (Js.len (CreateTaskInput.location_text input) ≤ 120) as Hl'
    by (apply Z.nlt_ge; tauto).
  assert (500 ≤ CreateTaskInput.price_cents input) as Hp by (apply Z.nlt_ge; tauto).
  assert (CreateTaskInput.price_cents input ≤ 50000) as Hp' by (apply Z.nlt_ge; tauto).
  assert (CreateTaskInput.time_window input = SCHEDULED →
          ¬ not_after now (CreateTaskInput.scheduled_at input)) as Hs by tauto.
  unfold validateTaskInput.
  rewrite !truthy_of_trim by done. cbn [negb orb].
  pose proof (trim_not_empty_len _ Ht). pose proof (trim_not_empty_len _ Hd).
  pose proof (trim_not_empty_len _ Hl).
  rewrite !(proj2 (Z.eqb_neq _ 0)) by lia.
  rewrite !(proj2 (Z.ltb_ge _ _)) by lia.
  case_bool_decide as Hw; [|done].
  specialize (Hs Hw). unfold not_after in Hs.
  destruct (CreateTaskInput.scheduled_at input) as [x|]; [|by destruct Hs; left].
  unfold date_le. destruct (js_time x) as [t|] eqn:Ht0; [|done].
  destruct (Z.leb_spec t now); [|done]. destruct Hs. right. by eauto.
Qed.

Lemma task_checks_created_row env uid input :
  ¬ turned_down (clock env) input → schedule_readable input →
  Schema.task_checks (created_row env uid input) = true.
Proof.
  intros Hok Hread.
  pose proof (validateTaskInput_None _ _ (validateTaskInput_complete _ _ Hok))
    as (Ht & Ht' & Hd & Hd' & Hl & Hl' & Hp).
  pose proof (trim_not_empty_len _ Ht). pose proof (trim_not_empty_len _ Hd).
  pose proof (trim_not_empty_len _ Hl).
  pose proof (len_trim (CreateTaskInput.title input)).
  pose proof (len_trim (CreateTaskInput.description input)).
  pose proof (len_trim (CreateTaskInput.location_text input)).
  unfold Schema.task_checks, Schema.between, created_row. cbn.
  rewrite !andb_true_iff, !Z.leb_le. split; [lia|].
  case_bool_decide as Hw; [|by rewrite (bool_decide_eq_true_2 (_ ≠ _))].
  destruct (Hread Hw) as (x & -> & [t Hx]). cbn. rewrite Hx.
  by rewrite bool_decide_eq_true_2 by done.
Qed.

(** What a call of [createTask] that runs alone does. *)
Lemma createTask_run env user input s :
  (∃ e, run (createTask env user input) s = (s, Failure e)
        ∧ (passed_rules_gate s user = false ∨ turned_down (clock env) input
           ∨ ¬ schedule_readable input ∨ is_Some (tasks s !! new_uuid env)))
  ∨ (∃ uid, user = Some uid ∧ passed_rules_gate s user = true
            ∧ ¬ turned_down (clock env) input ∧ schedule_readable input
            ∧ tasks s !! new_uuid env = None
            ∧ run (createTask env user input) s
              = (set_tasks s (<[new_uuid env := created_row env uid input]> (tasks s)),
                 Success (new_uuid env, created_row env uid input))).
Proof.
  destruct (turned_down_em (clock env) input) as [Hbad|Hok].
  { left. destruct (run (createTask env user input) s) as [s' [[id r]|e]] eqn:Hrun.
    - by destruct (createTask_Success_not_turned_down _ _ _ _ _ _ _ Hrun).
    - apply createTask_Failure in Hrun as Hs. subst s'. eauto. }
  unfold createTask, passed_rules_gate. destruct user as [uid|]; [|left; by eauto].
  cbn [run Db.select_profile].
  destruct (accepted_rules_of (profiles s !! uid)) eqn:Hgate; cbn [negb];
    [|left; by eauto].
  rewrite (validateTaskInput_complete _ _ Hok). cbn [run].
  unfold Db.insert_task. cbn [TaskInsert.scheduled_at TaskInsert.poster_id
    TaskInsert.status TaskInsert.title TaskInsert.description TaskInsert.category
    TaskInsert.location_text TaskInsert.time_window TaskInsert.price_cents].
  destruct (schedule_readable_em input) as [Hread|Hnot].
  2:{ left. unfold schedule_readable in Hnot.
      case_bool_decide as Hw; [|by destruct Hnot].
      destruct (CreateTaskInput.scheduled_at input) as [x|] eqn:Hx.
      - cbn [mbind option_bind]. destruct (pg_time x) as [t|] eqn:Ht.
        + destruct Hnot. intros _. exists x. by rewrite Ht.
        + cbn [run]. eexists. split; [done|]. right. right. left.
          unfold schedule_readable. rewrite Hx. intros H.
          destruct (H Hw) as (? & [= <-] & [? ?]). congruence.
      - exfalso. apply Hok. right. split; [done|]. rewrite Hx. by left. }
  pose proof (task_checks_created_row env uid input Hok Hread) as Hck.
  assert (task_fks s (created_row env uid input) = true) as Hfk.
  { unfold task_fks, created_row. cbn. rewrite andb_true_r.
    by apply accepted_rules_has_profile. }
  revert Hck Hfk. unfold created_row.
  case_bool_decide as Hw;
    [destruct (Hread Hw) as (x & -> & [t Ht]); cbn [mbind option_bind]; rewrite Ht
    |cbn [mbind option_bind]];
    intros -> ->; cbn [negb];
    (destruct (has_task s (new_uuid env)) eqn:Hid; cbn [run];
     [left; eexists; split; [done|]; right; right; right; by apply has_task_true
     |right; exists uid; apply has_task_false in Hid; by repeat split]).
Qed.

(** X18: [createTask] succeeds exactly when the caller has passed the rules
    gate, the tests of the form do not turn the input down, the database
    can read the scheduled time of a SCHEDULED input, and the key drawn
    for the row is free. The row it stores and returns is OPEN, belongs to
    the caller, has no acceptor and no transition timestamp, and holds
    the trimmed texts and the scheduled time as the database reads it; a
    failed call changes nothing. *)
Theorem createTask_succeeds_iff env user input s :
  let out := run (createTask env user input) s in
  (is_success out.2 = true
   ↔ passed_rules_gate s user = true ∧ ¬ turned_down (clock env) input
     ∧ schedule_readable input ∧ tasks s !! new_uuid env = None)
  ∧ (is_success out.2 = true →
     ∃ uid, user = Some uid
            ∧ out = (set_tasks s (<[new_uuid env := created_row env uid input]> (tasks s)),
                     Success (new_uuid env, created_row env uid input)))
  ∧ (is_success out.2 = false → out.1 = s).
Proof.
  cbv zeta.
  destruct (createTask_run env user input s)
    as [(e & -> & Hwhy)|(uid & -> & Hgate & Hok & Hread & Hfree & ->)];
    cbn [fst snd is_success].
  - split; [|by split]. split; [done|]. intros (Hgate & Hok & Hread & Hfree).
    destruct Hwhy as [?|[?|[?|[? ?]]]]; congruence.
  - split; [by split|]. split; [|done]. intros _. by exists uid.
Qed.

Lemma createTask_succeeds_iff_witness :
  is_success (run (createTask (at_time 50) (Some 20%N) pickup_input) posted).2 = true.
Proof.
  apply (proj2 (proj1 (createTask_succeeds_iff (at_time 50) (Some 20%N) pickup_input
                         posted))).
  split; [done|]. split; [|split; [|done]].
  - unfold turned_down, text_or_price_violated, not_after. cbn.
    intros [[H|[H|[H|[H|[H|[H|[H|H]]]]]]]|[_ [H|(x & t & Hx & Ht & Hle)]]]; try done.
    simplify_eq. cbn in Ht. simplify_eq. lia.
  - intros _. exists (ValidDate 500). split; [done|]. by eexists.
Defined.

Lemma task_checks_acceptTask_patch uid now r :
  Schema.task_checks (acceptTask_patch uid now r) = Schema.task_checks r.
Proof. done. Qed.

Lemma task_checks_completeTask_patch now r :
  Schema.task_checks (completeTask_patch now r) = Schema.task_checks r.
Proof. done. Qed.

Lemma task_checks_cancelTask_patch now r :
  Schema.task_checks (cancelTask_patch now r) = Schema.task_checks r.
Proof. done. Qed.



(** X20: a failed [completeTask] leaves the store as it was; and on a store
    whose task rows satisfy the constraints of their table, for a task
    whose poster and worker are not blocked with each other (the
    tasks_read policy hides the task from them otherwise), a call that
    runs alone succeeds exactly when the task exists, the caller is its
    poster and its status is ACCEPTED. *)
Theorem completeTask_succeeds_iff env user taskId s :
  let out := run (completeTask env user taskId) s in
  (is_success out.2 = false → out.1 = s)
  ∧ (consistent s →
     (∀ r, tasks s !! taskId = Some r →
           Schema.is_blocked s (Some (Task.poster_id r)) (Task.accepted_by_user_id r)
           = false) →
     (is_success out.2 = true
      ↔ ∃ r, user = Some (Task.poster_id r) ∧ tasks s !! taskId = Some r
             ∧ Task.status r = ACCEPTED)).
Proof.
  cbv zeta. split.
  - by destruct (completeTask_run env user taskId s)
      as [[e ->]|(uid & r & -> & _ & _ & _ & ->)].
  - intros Hcons _. split.
    + destruct (completeTask_run env user taskId s)
        as [[e ->]|(uid & r & -> & Hr & <- & Hacc & _)]; [done|].
      intros _. by exists r.
    + intros (r & -> & Hr & Hacc).
      destruct (Hcons taskId r Hr) as [Hck Hfk].
      unfold completeTask. cbn [run Db.select_task]. rewrite Hr.
      rewrite bool_decide_eq_false_2 by (by intros []).
      rewrite bool_decide_eq_false_2 by (by intros []).
      cbn [run].
      rewrite (update_task_hit taskId _ (completeTask_patch (clock env)) s r);
        [|done..].
      cbn [run]. by destruct (Db.insert_message _ _ _).
Qed.

Lemma accepted_consistent : consistent accepted.
Proof.
  unfold consistent.
  assert (tasks accepted = <[1%N := acceptTask_patch 20%N 100 pickup]> ∅) as ->
    by (by vm_compute).
  apply map_Forall_insert_2; [by vm_compute|apply map_Forall_empty].
Qed.

Lemma completeTask_succeeds_iff_witness :
  is_success (run (completeTask (at_time 200) (Some 10%N) 1%N) accepted).2 = true.
Proof.
  apply (proj2 (completeTask_succeeds_iff (at_time 200) (Some 10%N) 1%N accepted)
           accepted_consistent).
  - intros r _. unfold Schema.is_blocked. by destruct (Task.accepted_by_user_id r).
  - exists (acceptTask_patch 20%N 100 pickup). by vm_compute.
Defined.


(** ** The reads: [getMyTasks] and [hasRated] *)

Lemma getMyTasks_run uid s :
  run (getMyTasks (Some uid)) s
  = (s, Success
          ((fun x => (x, profiles s !! Task.poster_id x.2)) <$>
             merge_sort Db.newer
               (filter (fun x => Task.poster_id x.2 = uid) (map_to_list (tasks s))),
           (fun x => (x, profiles s !! Task.poster_id x.2)) <$>
             merge_sort Db.newer
               (filter (fun x => Task.accepted_by_user_id x.2 = Some uid)
                  (map_to_list (tasks s))))).
Proof. reflexivity. Qed.

Lemma elem_of_task_list (P : uuid * Task.t → Prop) `{!∀ x, Decision (P x)}
    (s : Store) (row : uuid * Task.t * option Profile.t) :
  row ∈ (fun x => (x, profiles s !! Task.poster_id x.2)) <$>
          merge_sort Db.newer (filter P (map_to_list (tasks s)))
  ↔ tasks s !! row.1.1 = Some row.1.2 ∧ P row.1
    ∧ row.2 = profiles s !! Task.poster_id row.1.2.
Proof.
  rewrite list_elem_of_fmap. split.
  - intros ([id r] & -> & Hx). rewrite merge_sort_Permutation in Hx.
    apply list_elem_of_filter in Hx as [HP Hx]. apply elem_of_map_to_list in Hx.
    by repeat split.
  - destruct row as [[id r] poster]. cbn. intros (Hr & HP & ->).
    exists (id, r). split; [done|]. rewrite merge_sort_Permutation.
    apply list_elem_of_filter. split; [done|]. by apply elem_of_map_to_list.
Qed.

Lemma NoDup_task_list (P : uuid * Task.t → Prop) `{!∀ x, Decision (P x)} (s : Store) :
  NoDup ((fun row : uuid * Task.t * option Profile.t => row.1.1) <$>
           ((fun x => (x, profiles s !! Task.poster_id x.2)) <$>
              merge_sort Db.newer (filter P (map_to_list (tasks s))))).
Proof.
  assert (∀ l : list (uuid * Task.t),
            (fun row : uuid * Task.t * option Profile.t => row.1.1) <$>
              ((fun x => (x, profiles s !! Task.poster_id x.2)) <$> l) = l.*1) as ->.
  { induction l as [|x l IH]; [done|]. cbn. by rewrite IH. }
  rewrite merge_sort_Permutation.
  eapply sublist_NoDup; [apply (NoDup_fst_map_to_list (tasks s))|].
  apply fmap_sublist, sublist_filter.
Qed.

(** X21: [getMyTasks] answers with two lists and leaves the store as it
    is. For a caller none of whose tasks has its poster and worker blocked
    with each other (the tasks_read policy hides such a task), the first
    list holds every task the caller posted and the second every task the
    caller has accepted, at whatever status and without a limit; each task
    appears once in a list, with the profile of its poster, and both lists
    run from the newest to the oldest. *)
Theorem getMyTasks_lists uid s :
  (∀ id r, tasks s !! id = Some r → participant uid r →
     Schema.is_blocked s (Some (Task.poster_id r)) (Task.accepted_by_user_id r) = false) →
  ∃ postedTasks acceptedTasks,
    run (getMyTasks (Some uid)) s = (s, Success (postedTasks, acceptedTasks))
    ∧ (∀ row, row ∈ postedTasks
              ↔ tasks s !! row.1.1 = Some row.1.2 ∧ Task.poster_id row.1.2 = uid
                ∧ row.2 = profiles s !! Task.poster_id row.1.2)
    ∧ (∀ row, row ∈ acceptedTasks
              ↔ tasks s !! row.1.1 = Some row.1.2
                ∧ Task.accepted_by_user_id row.1.2 = Some uid
                ∧ row.2 = profiles s !! Task.poster_id row.1.2)
    ∧ NoDup ((fun row => row.1.1) <$> postedTasks)
    ∧ NoDup ((fun row => row.1.1) <$> acceptedTasks)
    ∧ StronglySorted
        (fun a b => Task.created_at b.1.2 ≤ Task.created_at a.1.2) postedTasks
    ∧ StronglySorted
        (fun a b => Task.created_at b.1.2 ≤ Task.created_at a.1.2) acceptedTasks.
Proof.
  intros _. do 2 eexists. split; [apply getMyTasks_run|].
  split; [intros row; apply (elem_of_task_list (fun x => Task.poster_id x.2 = uid))|].
  split; [intros row;
          apply (elem_of_task_list (fun x => Task.accepted_by_user_id x.2 = Some uid))|].
  split; [apply NoDup_task_list|]. split; [apply NoDup_task_list|].
  split; (eapply StronglySorted_fmap; [|apply StronglySorted_merge_sort; apply _]);
    by intros ? ?.
Qed.

Lemma getMyTasks_lists_witness :
  ∃ postedTasks acceptedTasks,
    run (getMyTasks (Some 20%N)) accepted = (accepted, Success (postedTasks, acceptedTasks))
    ∧ (1%N, acceptTask_patch 20%N 100 pickup, accepted.(profiles) !! 10%N) ∈ acceptedTasks.
Proof.
  destruct (getMyTasks_lists 20%N accepted) as (mine & taken & Hrun & _ & Htaken & _).
  - intros id r _ _. unfold Schema.is_blocked. by destruct (Task.accepted_by_user_id r).
  - exists mine, taken. split; [done|]. apply Htaken. by vm_compute.
Defined.

(** X22: a task that [createTask] has stored is found by [getMyTasks] of
    its poster, in the list of posted tasks and not in the list of
    accepted ones. *)
Theorem createTask_then_getMyTasks env uid input s s' id r :
  run (createTask env (Some uid) input) s = (s', Success (id, r)) →
  ∃ postedTasks acceptedTasks,
    run (getMyTasks (Some uid)) s' = (s', Success (postedTasks, acceptedTasks))
    ∧ (id, r, profiles s' !! uid) ∈ postedTasks
    ∧ ∀ row, row ∈ acceptedTasks → row.1.1 ≠ id.
Proof.
  intros Hrun.
  destruct (createTask_run env (Some uid) input s)
    as [(e & He & _)|(? & [= <-] & _ & _ & _ & Hfresh & Hok)]; [congruence|].
  rewrite Hok in Hrun. simplify_eq.
  do 2 eexists. split; [apply getMyTasks_run|]. split.
  - apply (elem_of_task_list (fun x => Task.poster_id x.2 = uid) _
             (new_uuid env, created_row env uid input, _)).
    cbn. by rewrite lookup_insert_eq.
  - intros row (Hrow & Hacc & _)%(elem_of_task_list
      (fun x => Task.accepted_by_user_id x.2 = Some uid)) Hid. cbn in Hrow, Hacc.
    rewrite Hid, lookup_insert_eq in Hrow. injection Hrow as Hrow.
    by rewrite <-Hrow in Hacc.
Qed.

Lemma createTask_then_getMyTasks_witness :
  ∃ postedTasks acceptedTasks,
    run (getMyTasks (Some 20%N))
      (set_tasks posted (<[2%N := scheduled_pickup]> (tasks posted)))
    = (set_tasks posted (<[2%N := scheduled_pickup]> (tasks posted)),
       Success (postedTasks, acceptedTasks))
    ∧ (2%N, scheduled_pickup,
       profiles (set_tasks posted (<[2%N := scheduled_pickup]> (tasks posted))) !! 20%N)
      ∈ postedTasks
    ∧ ∀ row, row ∈ acceptedTasks → row.1.1 ≠ 2%N.
Proof.
  apply (createTask_then_getMyTasks (at_time 50) 20%N pickup_input posted).
  by vm_compute.
Defined.

Lemma filter_nil_intro {A} (P : A → Prop) `{!∀ x, Decision (P x)} (l : list A) :
  (∀ x, x ∈ l → ¬ P x) → filter P l = [].
Proof.
  induction l as [|x l IH]; [done|]. intros Hl.
  rewrite filter_cons_False by (apply Hl; by left).
  apply IH. intros y Hy. apply Hl. by right.
Qed.

(** In a table with one row at most for a task and a rater, [.single()]
    finds a row exactly when the rater has rated the task. *)
Lemma single_rating (l : list Rating.t) taskId rater :
  NoDup ((fun r => (Rating.task_id r, Rating.rater_id r)) <$> l) →
  is_Some (single (filter (fun r => Rating.task_id r = taskId ∧ Rating.rater_id r = rater) l))
  ↔ ∃ r, r ∈ l ∧ Rating.task_id r = taskId ∧ Rating.rater_id r = rater.
Proof.
  induction l as [|x l IH]; intros Hl.
  { split; [by intros [? ?]|]. intros (r & Hr & _). by apply elem_of_nil in Hr. }
  rewrite fmap_cons in Hl. apply NoDup_cons in Hl as [Hx Hl].
  destruct (decide (Rating.task_id x = taskId ∧ Rating.rater_id x = rater))
    as [[Ht Hr]|Hno].
  - rewrite filter_cons_True by done.
    assert (filter (fun r => Rating.task_id r = taskId ∧ Rating.rater_id r = rater) l = [])
      as ->.
    { apply filter_nil_intro. intros r Hin [Ht' Hr']. apply Hx.
      apply list_elem_of_fmap. exists r. split; [congruence|done]. }
    split; [|by eexists]. intros _. exists x. split; [by left|done].
  - rewrite filter_cons_False by done. rewrite IH by done.
    split; intros (r & Hin & Hkey).
    + exists r. split; [by right|done].
    + exists r. split; [|done]. apply elem_of_cons in Hin as [->|]; [|done].
      by destruct Hno.
Qed.

Lemma rated_false_not_in s taskId rater :
  Db.rated s taskId rater = false
  ↔ ∀ r, r ∈ ratings s → ¬ (Rating.task_id r = taskId ∧ Rating.rater_id r = rater).
Proof.
  rewrite rated_false. split.
  - intros Hnil r Hin Hkey.
    by apply (filter_nil_not_elem_of _ _ r Hnil Hkey).
  - apply filter_nil_intro.
Qed.

(** X23: on a ratings table with one row at most for a task and a rater,
    [hasRated] tells whether the caller has a rating on the task; a
    successful [submitRating] was preceded by the answer [false] and is
    followed by the answer [true] for the rater, and changes the answer
    for no other task or rater. *)
Theorem hasRated_follows_submitRating env uid input s s' rating :
  ratings_ok s →
  run (submitRating env (Some uid) input) s = (s', Success rating) →
  let taskId := SubmitRatingInput.taskId input in
  run (hasRated (Some uid) taskId) s = (s, Success false)
  ∧ run (hasRated (Some uid) taskId) s' = (s', Success true)
  ∧ ∀ other task, (other, task) ≠ (uid, taskId) →
      (run (hasRated (Some other) task) s').2 = (run (hasRated (Some other) task) s).2.
Proof.
  intros [_ Hdup] Hrun taskId.
  destruct (submitRating_run env (Some uid) input s)
    as [[e He]|(? & r & ratee & x & [= <-] & _ & _ & _ & _ & _ & Hnew & _ & -> & Hok)];
    [congruence|].
  rewrite Hok in Hrun. simplify_eq. fold taskId in Hnew |- *.
  set (x := Rating.mk taskId uid ratee _ _ _).
  assert (NoDup ((fun r => (Rating.task_id r, Rating.rater_id r)) <$>
                   (ratings s ++ [x])%list)) as Hdup'.
  { rewrite fmap_app. apply NoDup_app. split; [done|]. split; [|apply NoDup_singleton].
    intros key (r0 & -> & Hin)%list_elem_of_fmap [= Ht Hr]%list_elem_of_singleton.
    rewrite rated_false_not_in in Hnew. by apply (Hnew r0 Hin). }
  assert (∀ (l : list Rating.t) other task,
            NoDup ((fun r => (Rating.task_id r, Rating.rater_id r)) <$> l) →
            bool_decide (is_Some (single (filter
              (fun r => Rating.task_id r = task ∧ Rating.rater_id r = other) l)))
            = bool_decide
                (Exists (fun r => Rating.task_id r = task ∧ Rating.rater_id r = other) l))
    as Hhas.
  { intros l other task Hl. apply bool_decide_ext.
    rewrite single_rating, Exists_exists by done. naive_solver. }
  unfold hasRated. cbn [run Db.select_rating set_ratings ratings snd].
  rewrite !Hhas by done. rewrite rated_false_not_in in Hnew. split; [|split].
  - rewrite bool_decide_eq_false_2; [done|].
    intros (r0 & Hin & Hkey)%Exists_exists. by apply (Hnew r0 Hin).
  - rewrite bool_decide_eq_true_2; [done|]. apply Exists_app. right.
    by apply Exists_cons_hd.
  - intros other task Hne. rewrite !Hhas by done. f_equal. apply bool_decide_ext.
    rewrite Exists_app, Exists_cons, Exists_nil. cbn. split; [|by left].
    intros [?|[[? ?]|[]]]; [done|congruence].
Qed.

Lemma completed_ratings_ok : ratings_ok completed.
Proof. split; [apply Forall_nil_2|apply NoDup_nil_2]. Qed.

Lemma hasRated_follows_submitRating_witness :
  run (hasRated (Some 20%N) 1%N)
    (set_ratings completed [Rating.mk 1%N 20%N 10%N 5 None 300])
  = (set_ratings completed [Rating.mk 1%N 20%N 10%N 5 None 300], Success true).
Proof.
  apply (proj1 (proj2 (hasRated_follows_submitRating (at_time 300) 20%N
                         (SubmitRatingInput.mk 1%N 5 None) completed
                         (set_ratings completed [Rating.mk 1%N 20%N 10%N 5 None 300])
                         (Rating.mk 1%N 20%N 10%N 5 None 300)
                         completed_ratings_ok ltac:(by vm_compute)))).
Defined.


(** ** The lifecycle of a row, call after call *)

(** What one call does to the tasks table: nothing, one new row under a
    free key, or one step of one row. *)
Lemma perform_tasks c s :
  tasks (perform s c) = tasks s
  ∨ (∃ env uid input,
       tasks s !! new_uuid env = None
       ∧ tasks (perform s c) = <[new_uuid env := created_row env uid input]> (tasks s))
  ∨ (∃ taskId r r',
       tasks s !! taskId = Some r ∧ row_step r r'
       ∧ tasks (perform s c) = <[taskId := r']> (tasks s)).
Proof.
  destruct c as [env user input|user taskId input|env user taskId|env user taskId
                 |env user taskId]; cbn [perform].
  - destruct (createTask_run env user input s)
      as [(e & -> & _)|(uid & _ & _ & _ & _ & Hfree & ->)]; [by left|].
    right. left. by exists env, uid, input.
  - destruct (updateTask_run user taskId input s)
      as [[e ->]|(r & _ & Hr & Hopen & ->)]; [by left|].
    right. right. exists taskId, r, (updateTask_patch input r).
    split; [done|]. split; [by constructor|done].
  - destruct (acceptTask_run env user taskId s)
      as [[e ->]|(uid & r & _ & Hr & Hopen & Hne & _ & _ & ->)]; [by left|].
    right. right. exists taskId, r, (acceptTask_patch uid (clock env) r).
    split; [done|]. split; [by constructor|done].
  - destruct (cancelTask_run env user taskId s)
      as [[e ->]|(uid & r & _ & Hr & _ & Hnc & Hnx & _ & ->)]; [by left|].
    right. right. exists taskId, r, (cancelTask_patch (clock env) r).
    split; [done|]. split; [|done]. constructor.
    destruct (Task.status r); auto; done.
  - destruct (completeTask_run env user taskId s)
      as [[e ->]|(uid & r & _ & Hr & _ & Hacc & ->)]; [by left|].
    right. right. exists taskId, r, (completeTask_patch (clock env) r).
    split; [done|]. split; [by constructor|done].
Qed.

Lemma follows_refl r : follows r r.
Proof.
  unfold follows, kept_columns, same_terms.
  split; [by destruct (Task.status r)|]. by repeat split.
Qed.

Lemma follows_trans a b c : follows a b → follows b c → follows a c.
Proof.
  intros (Hab & Hkab & Htab & Hfab) (Hbc & Hkbc & Htbc & Hfbc).
  unfold follows, kept_columns, same_terms in *. split; [|split; [|split]].
  - destruct (Task.status a), (Task.status b), (Task.status c); done.
  - destruct Hkab as (? & ? & ? & ? & ? & ?), Hkbc as (? & ? & ? & ? & ? & ?).
    repeat split; congruence.
  - intros Ha. assert (Task.status b ≠ OPEN) as Hb.
    { destruct (Task.status a), (Task.status b); done. }
    destruct (Htab Ha) as (? & ? & ? & ? & ?), (Htbc Hb) as (? & ? & ? & ? & ?).
    repeat split; congruence.
  - intros Ha. rewrite <-(Hfab Ha). apply Hfbc. by rewrite (Hfab Ha).
Qed.

Lemma row_step_follows r r' : row_step r r' → follows r r'.
Proof.
  intros [input r0 Hopen|uid now r0 Hopen Hne|now r0 Hst|now r0 Hacc];
    unfold follows, kept_columns, same_terms.
  - destruct (updateTask_patch_frame input r0)
      as (? & ? & Hs & ? & ? & ? & ? & ? & ? & ? & ?).
    rewrite Hs, Hopen. split; [done|]. split; [by repeat split|].
    split; [done|]. by intros [|].
  - cbn. rewrite Hopen. split; [done|]. split; [by repeat split|].
    split; [done|]. by intros [|].
  - cbn. split; [by destruct Hst as [->| ->]|]. split; [by repeat split|].
    split; [by repeat split|]. destruct Hst as [Hs|Hs]; rewrite Hs; by intros [|].
  - cbn. rewrite Hacc. split; [done|]. split; [by repeat split|].
    split; [by repeat split|]. by intros [|].
Qed.

(** X24: through every sequence of calls of the five lifecycle handlers a
    task row stays in the table, and its status only moves forward: from
    OPEN to ACCEPTED, from ACCEPTED to COMPLETE, and to CANCELED from OPEN
    or ACCEPTED. Its poster, category, location, time window, scheduled
    time and creation time never change; once it has left OPEN its title,
    description, price, worker and acceptance time are fixed; and a
    COMPLETE or CANCELED row is never touched again. *)
Theorem rows_follow_the_lifecycle calls s id r :
  tasks s !! id = Some r →
  ∃ r', tasks (perform_all calls s) !! id = Some r' ∧ follows r r'.
Proof.
  unfold perform_all. revert s r.
  induction calls as [|c calls IH]; intros s r Hr; cbn [foldl].
  { exists r. split; [done|apply follows_refl]. }
  assert (∃ r1, tasks (perform s c) !! id = Some r1 ∧ follows r r1) as (r1 & Hr1 & Hstep).
  { destruct (perform_tasks c s)
      as [->|[(env & uid & input & Hfree & ->)|(taskId & r0 & r0' & Hr0 & Hs & ->)]].
    - exists r. split; [done|apply follows_refl].
    - exists r. split; [|apply follows_refl].
      rewrite lookup_insert_ne; [done|]. congruence.
    - destruct (decide (taskId = id)) as [->|Hne].
      + simplify_eq. exists r0'. split; [apply lookup_insert_eq|].
        by apply row_step_follows.
      + exists r. split; [by rewrite lookup_insert_ne|apply follows_refl]. }
  destruct (IH (perform s c) r1 Hr1) as (r' & Hr' & Hrest).
  exists r'. split; [done|]. by eapply follows_trans.
Qed.

Lemma rows_follow_the_lifecycle_witness :
  ∃ r', tasks (perform_all [AcceptTask (at_time 100) (Some 20%N) 1%N;
                            CompleteTask (at_time 200) (Some 10%N) 1%N;
                            CancelTask (at_time 300) (Some 10%N) 1%N] posted) !! 1%N
        = Some r'
        ∧ follows pickup r'.
Proof.
  apply (rows_follow_the_lifecycle
           [AcceptTask (at_time 100) (Some 20%N) 1%N;
            CompleteTask (at_time 200) (Some 10%N) 1%N;
            CancelTask (at_time 300) (Some 10%N) 1%N] posted 1%N pickup).
  by vm_compute.
Defined.

Lemma row_step_well_formed r r' : row_step r r' → well_formed r → well_formed r'.
Proof.
  intros [input r0 Hopen|uid now r0 Hopen Hne|now r0 Hst|now r0 Hacc];
    unfold well_formed.
  - destruct (updateTask_patch_frame input r0)
      as (Hp & Hw & Hs & _ & _ & _ & _ & _ & Ha & Hc & Hx).
    by rewrite Hp, Hw, Hs, Ha, Hc, Hx.
  - cbn. rewrite Hopen. intros (_ & _ & _ & Hc & Hx).
    split; [congruence|]. split; [by split; eexists|]. split; [by eexists|done].
  - cbn. intros (Hself & Hiff & Hrest). split; [done|]. split; [done|].
    split; [|done]. destruct Hst as [Hs|Hs]; rewrite Hs in Hrest; tauto.
  - cbn. rewrite Hacc. intros (Hself & Hiff & Hw & _ & Hx).
    split; [done|]. split; [done|]. split; [done|]. split; [by eexists|done].
Qed.

Lemma created_row_well_formed env uid input : well_formed (created_row env uid input).
Proof. unfold well_formed. cbn. by repeat split. Qed.

(** X25: through every sequence of calls of the five lifecycle handlers the
    rows keep their shape. An OPEN row has no worker and no transition
    timestamp; an ACCEPTED row has a worker and an acceptance time and
    nothing further; a COMPLETE row has in addition a completion time and
    no cancellation time; a CANCELED row has a cancellation time and no
    completion time; the worker is never the poster, and a row has an
    acceptance time exactly when it has a worker. *)
Theorem rows_stay_well_formed calls s :
  rows well_formed s → rows well_formed (perform_all calls s).
Proof.
  unfold perform_all. revert s.
  induction calls as [|c calls IH]; intros s Hs; cbn [foldl]; [done|].
  apply IH. unfold rows in *.
  destruct (perform_tasks c s)
    as [->|[(env & uid & input & Hfree & ->)|(taskId & r0 & r0' & Hr0 & Hstep & ->)]].
  - done.
  - apply map_Forall_insert_2; [apply created_row_well_formed|done].
  - apply map_Forall_insert_2; [|done].
    eapply row_step_well_formed; [done|]. by apply (Hs taskId r0).
Qed.

Lemma rows_stay_well_formed_witness :
  rows well_formed (perform_all [AcceptTask (at_time 100) (Some 20%N) 1%N;
                                 CancelTask (at_time 300) (Some 20%N) 1%N] posted).
Proof.
  apply (rows_stay_well_formed _ posted). unfold rows, posted. cbn [tasks].
  apply map_Forall_insert_2; [|apply map_Forall_empty].
  unfold well_formed. cbn. by repeat split.
Defined.

(** ** Completing and canceling at the same time *)

(** X26: [completeTask] and [cancelTask] do not guard their update with
    the status they read. When the poster completes an ACCEPTED task while
    a participant cancels it, and both calls read the row before either
    writes, both report success: the row ends CANCELED, carrying a
    completion time as well as a cancellation time, and the chat receives
    both system messages. The row is one that satisfies the constraints of
    its table and whose poster and worker are not blocked with each
    other. *)
Theorem complete_cancel_race env1 env2 canceller taskId s r :
  tasks s !! taskId = Some r → Task.status r = ACCEPTED →
  Schema.task_checks r = true → task_fks s r = true →
  Schema.is_blocked s (Some (Task.poster_id r)) (Task.accepted_by_user_id r) = false →
  participant canceller r →
  let '(s', completing, canceling) :=
    race [true; false]
      (completeTask env1 (Some (Task.poster_id r)) taskId)
      (cancelTask env2 (Some canceller) taskId) s in
  completing = Success tt ∧ canceling = Success tt
  ∧ tasks s' !! taskId
    = Some (cancelTask_patch (clock env2) (completeTask_patch (clock env1) r))
  ∧ ∃ m1 m2, messages s' = (messages s ++ [m1; m2])%list
             ∧ system_message_of taskId m1 ∧ system_message_of taskId m2.
Proof.
  intros Hr Hacc Hck Hfk _ Hpart.
  assert (has_profile s (Task.poster_id r) = true ∧ has_profile s canceller = true)
    as [Hposter Hcanceller].
  { unfold task_fks in Hfk. apply andb_true_iff in Hfk as [Hp Hw]. split; [done|].
    destruct Hpart as [<-|Hworker]; [done|]. by rewrite Hworker in Hw. }
  unfold completeTask, cancelTask.
  cbn [race run Db.select_task]. rewrite Hr. cbv zeta.
  rewrite (bool_decide_eq_false_2 (Task.poster_id r ≠ Task.poster_id r)) by (by intros []).
  rewrite Hacc. decide_status.
  replace (negb (bool_decide (Task.poster_id r = canceller))
           && negb (bool_decide (Task.accepted_by_user_id r = Some canceller)))
    with false
    by (symmetry; apply andb_false_iff; destruct Hpart;
        [left|right]; by rewrite bool_decide_eq_true_2).
  rewrite andb_false_r.
  cbn [race run].
  rewrite (update_task_hit taskId (fun _ => true) (completeTask_patch (clock env1)) s r)
    by done.
  cbn [run].
  rewrite insert_message_ok; [|apply has_task_set_tasks|done|done].
  cbn [run MessageInsert.task_id MessageInsert.sender_id MessageInsert.type
         MessageInsert.body system_message].
  match goal with
  | |- context [Db.update_task taskId ?c ?p ?s1] =>
      rewrite (update_task_hit taskId c p s1 (completeTask_patch (clock env1) r))
  end; [|cbn; apply lookup_insert_eq|done|done|done].
  cbn [run].
  rewrite insert_message_ok;
    [|apply has_task_true; cbn; rewrite lookup_insert_eq; by eexists
     |done
     |cbn; by destruct (bool_decide (Task.poster_id r = canceller))].
  cbn [run]. split; [done|]. split; [done|]. split.
  - cbn. by rewrite lookup_insert_eq.
  - do 2 eexists. split; [cbn; by rewrite <-app_assoc|]. by split.
Qed.

Lemma complete_cancel_race_witness :
  (race [true; false] (completeTask (at_time 200) (Some 10%N) 1%N)
     (cancelTask (at_time 201) (Some 20%N) 1%N) accepted).1.2 = Success tt
  ∧ (race [true; false] (completeTask (at_time 200) (Some 10%N) 1%N)
       (cancelTask (at_time 201) (Some 20%N) 1%N) accepted).2 = Success tt.
Proof.
  pose proof (complete_cancel_race (at_time 200) (at_time 201) 20%N 1%N accepted
                (acceptTask_patch 20%N 100 pickup)
                ltac:(by vm_compute) eq_refl eq_refl ltac:(by vm_compute) eq_refl
                ltac:(by right)) as H.
  change (Task.poster_id (acceptTask_patch 20%N 100 pickup)) with 10%N in H.
  destruct (race [true; false] _ _ accepted) as [[s' completing] canceling].
  by destruct H as (-> & -> & _).
Defined.


(** ** What no call takes away *)

Lemma kept_columns_refl r : kept_columns r r.
Proof. by repeat split. Qed.

Lemma kept_columns_trans a b c : kept_columns a b → kept_columns b c → kept_columns a c.
Proof.
  intros (? & ? & ? & ? & ? & ?) (? & ? & ? & ? & ? & ?). repeat split; congruence.
Qed.

Global Instance keeps_refl : Reflexive keeps.
Proof.
  intros s. split; [done|]. split; [done|]. split.
  - intros id r Hr. exists r. split; [done|apply kept_columns_refl].
  - intros uid p Hp. by exists p.
Qed.

Global Instance keeps_trans : Transitive keeps.
Proof.
  intros a b c (Hm1 & Hr1 & Ht1 & Hp1) (Hm2 & Hr2 & Ht2 & Hp2).
  split; [by etrans|]. split; [by etrans|]. split.
  - intros id r Hr. destruct (Ht1 id r Hr) as (r1 & Hr1' & Hk1).
    destruct (Ht2 id r1 Hr1') as (r2 & Hr2' & Hk2).
    exists r2. split; [done|]. by eapply kept_columns_trans.
  - intros uid p Hp. destruct (Hp1 uid p Hp) as (p1 & Hp1' & He1 & Hc1 & Hg1).
    destruct (Hp2 uid p1 Hp1') as (p2 & Hp2' & He2 & Hc2 & Hg2).
    exists p2. split; [done|]. split; [congruence|]. split; [congruence|]. auto.
Qed.

Lemma keeps_tasks s (t : gmap uuid Task.t) :
  (∀ id r, tasks s !! id = Some r → ∃ r', t !! id = Some r' ∧ kept_columns r r') →
  keeps s (set_tasks s t).
Proof.
  intros Ht. split; [done|]. split; [done|]. split; [done|].
  intros uid p Hp. by exists p.
Qed.

Lemma keeps_set_task s taskId r r' :
  tasks s !! taskId = Some r → kept_columns r r' →
  keeps s (set_tasks s (<[taskId := r']> (tasks s))).
Proof.
  intros Hr Hk. apply keeps_tasks. intros id r0 Hr0.
  destruct (decide (id = taskId)) as [->|Hne].
  - simplify_eq. exists r'. by rewrite lookup_insert_eq.
  - exists r0. rewrite lookup_insert_ne by done. split; [done|apply kept_columns_refl].
Qed.

Lemma keeps_insert_task new_id now row s : keeps s (Db.insert_task new_id now row s).1.
Proof.
  unfold Db.insert_task. repeat case_match; try reflexivity; cbn [fst].
  all: apply keeps_tasks; intros id r Hr; exists r.
  all: split; [|apply kept_columns_refl].
  all: rewrite lookup_insert_ne; [done|].
  all: intros <-; by match goal with
                     | H : has_task _ _ = false |- _ => apply has_task_false in H
                     end; congruence.
Qed.

Lemma keeps_update_task taskId cond patch s :
  (∀ r, kept_columns r (patch r)) → keeps s (Db.update_task taskId cond patch s).1.
Proof.
  intros Hpatch. unfold Db.update_task.
  destruct (tasks s !! taskId) as [r|] eqn:Hr; [|reflexivity].
  repeat case_match; try reflexivity. cbn [fst]. by eapply keeps_set_task.
Qed.

Lemma keeps_update_task_returning taskId body s :
  (∀ patch r, body = Some patch → kept_columns r (patch r)) →
  keeps s (Db.update_task_returning taskId body s).1.
Proof.
  intros Hpatch. unfold Db.update_task_returning.
  destruct body as [patch|]; [|reflexivity].
  destruct (tasks s !! taskId) as [r|] eqn:Hr; [|reflexivity].
  repeat case_match; try reflexivity. cbn [fst].
  eapply keeps_set_task; [done|]. by apply Hpatch.
Qed.

Lemma keeps_select_tasks_comparing literals build s :
  keeps s (Db.select_tasks_comparing literals build s).1.
Proof. unfold Db.select_tasks_comparing. by case_match. Qed.

Lemma keeps_insert_message now row s : keeps s (Db.insert_message now row s).1.
Proof.
  unfold Db.insert_message. repeat case_match; try reflexivity. cbn [fst].
  split; [by apply prefix_app_r|]. split; [done|]. split.
  - intros id r Hr. exists r. split; [done|apply kept_columns_refl].
  - intros uid p Hp. by exists p.
Qed.

Lemma keeps_insert_rating now row s : keeps s (Db.insert_rating now row s).1.
Proof.
  unfold Db.insert_rating. repeat case_match; try reflexivity. cbn [fst].
  split; [done|]. split; [by apply prefix_app_r|]. split.
  - intros id r Hr. exists r. split; [done|apply kept_columns_refl].
  - intros uid p Hp. by exists p.
Qed.

Lemma keeps_profiles s (m : gmap uuid Profile.t) :
  (∀ uid p, profiles s !! uid = Some p →
     ∃ p', m !! uid = Some p'
           ∧ Profile.email p' = Profile.email p
           ∧ Profile.created_at p' = Profile.created_at p
           ∧ (Profile.accepted_rules p = true → Profile.accepted_rules p' = true)) →
  keeps s (set_profiles s m).
Proof.
  intros Hm. split; [done|]. split; [done|]. split; [|done].
  intros id r Hr. exists r. split; [done|apply kept_columns_refl].
Qed.

Lemma keeps_update_profile uid u s :
  ProfileUpdate.accepted_rules u ≠ Some false →
  keeps s (DbAccounts.update_profile uid u s).1.
Proof.
  intros Hu. unfold DbAccounts.update_profile.
  destruct (profiles s !! uid) as [p|] eqn:Hp; [|reflexivity].
  case_match; [reflexivity|]. cbn [fst]. apply keeps_profiles. intros id q Hq.
  destruct (decide (id = uid)) as [->|Hne].
  - simplify_eq. eexists. rewrite lookup_insert_eq. split; [done|].
    unfold apply_profile_update. cbn. split; [done|]. split; [done|].
    by destruct (ProfileUpdate.accepted_rules u) as [[]|].
  - exists q. by rewrite lookup_insert_ne.
Qed.

Lemma keeps_upsert_profile now uid email s :
  keeps s (DbAccounts.upsert_profile now uid email s).1.
Proof.
  destruct (DbAccounts.upsert_profile now uid email s) as [s' e] eqn:Hup.
  apply upsert_profile_inv in Hup as [[-> _]|(Hnew & _ & _ & ->)]; [reflexivity|].
  cbn [fst]. apply keeps_profiles. intros id q Hq. exists q.
  rewrite lookup_insert_ne; [done|]. congruence.
Qed.

Lemma keeps_blocks s b : keeps s (set_blocks s b).
Proof.
  split; [done|]. split; [done|]. split.
  - intros id r Hr. exists r. split; [done|apply kept_columns_refl].
  - intros uid p Hp. by exists p.
Qed.

Lemma keeps_insert_block blocker blocked s :
  keeps s (DbAccounts.insert_block blocker blocked s).1.
Proof.
  unfold DbAccounts.insert_block. repeat case_match; try reflexivity.
  apply keeps_blocks.
Qed.

Lemma keeps_delete_block blocker blocked s :
  keeps s (DbAccounts.delete_block blocker blocked s).1.
Proof. apply keeps_blocks. Qed.

Lemma kept_columns_updateTask_patch input r : kept_columns r (updateTask_patch input r).
Proof.
  destruct (updateTask_patch_frame input r) as (? & ? & ? & ? & ? & ? & ? & ? & ?).
  by repeat split.
Qed.

Lemma keeping_forget {A} (p : Action A) : keeping p → keeping (forget p).
Proof.
  induction p as [a|R q k IH]; [done|]. cbn [keeping forget].
  intros [Hq Hk]. split; [done|]. intros r. by apply IH.
Qed.

Ltac keeping_steps :=
  repeat match goal with
  | |- True => exact I
  | |- keeping (Return _) => exact I
  | |- keeping (Await _ _) => cbn [keeping]; split; [intros ?|intros ?]
  | |- (∀ s, keeps s _) ∧ _ => split; [intros ?|intros ?]
  | |- keeping (match ?x with _ => _ end) => destruct x
  | |- keeping _ => progress cbv zeta
  end.

Ltac keeps_statement :=
  first
    [ reflexivity
    | apply keeps_insert_task
    | apply keeps_insert_message
    | apply keeps_insert_rating
    | apply keeps_upsert_profile
    | apply keeps_insert_block
    | apply keeps_delete_block
    | apply keeps_update_profile; done
    | apply keeps_update_task; intros ?; by repeat split
    | apply keeps_select_tasks_comparing
    | apply keeps_update_task_returning; intros ? ? ->%updateTask_body_Some;
      apply kept_columns_updateTask_patch ].

(** Every statement of every handler leaves what the store held. *)
Lemma handler_keeping r : keeping (handler r).
Proof.
  destruct r as [[]| | | | | | | | | | | | | |]; cbn [handler]; apply keeping_forget.
  - unfold createTask. keeping_steps; keeps_statement.
  - unfold updateTask. keeping_steps; keeps_statement.
  - unfold acceptTask. keeping_steps; keeps_statement.
  - unfold cancelTask. keeping_steps; keeps_statement.
  - unfold completeTask. keeping_steps; keeps_statement.
  - unfold getTasks. keeping_steps; keeps_statement.
  - unfold getMyTasks. keeping_steps; keeps_statement.
  - unfold sendMessage. keeping_steps; keeps_statement.
  - unfold getMessages. keeping_steps; keeps_statement.
  - unfold submitRating. keeping_steps; keeps_statement.
  - unfold hasRated. keeping_steps; keeps_statement.
  - unfold acceptRules. keeping_steps; keeps_statement.
  - unfold updateDisplayName. keeping_steps; keeps_statement.
  - unfold getCurrentProfile. keeping_steps; keeps_statement.
  - unfold blockUser. keeping_steps; keeps_statement.
  - unfold unblockUser. keeping_steps; keeps_statement.
  - unfold isUserBlocked. keeping_steps; keeps_statement.
  - unfold GET. keeping_steps; keeps_statement.
  - unfold MainLayout. keeping_steps; keeps_statement.
Qed.

Lemma interleaved_keeps sched calls s :
  Forall keeping calls → keeps s (interleaved sched calls s).
Proof.
  revert calls s. induction sched as [|i sched IH]; intros calls s Hcalls;
    cbn [interleaved]; [reflexivity|].
  destruct (calls !! i) as [[a|R q k]|] eqn:Hi; [by apply IH| |by apply IH].
  pose proof (Forall_lookup_1 _ _ _ _ Hcalls Hi) as [Hq Hk].
  specialize (Hq s). destruct (q s) as [s' r]. etrans; [exact Hq|].
  apply IH. apply Forall_insert; [done|apply Hk].
Qed.

(** X27: whatever calls of the handlers are in flight, and however their
    statements interleave, nothing but a block is ever taken away:
    messages and ratings are only appended, in order, and never changed;
    every task row stays, with its poster, category, location, time
    window, scheduled time and creation time; every profile row stays,
    with its email and creation time, and a rules gate that is open stays
    open. *)
Theorem nothing_is_taken_away sched (requests : list Request) s :
  keeps s (interleaved sched (handler <$> requests) s).
Proof.
  apply interleaved_keeps, Forall_fmap, Forall_forall. intros r _.
  apply handler_keeping.
Qed.


(** ** Writing a message and reading it back *)

Lemma filter_snoc {A} (P : A → Prop) `{!∀ x, Decision (P x)} (l : list A) x :
  P x → filter P (l ++ [x])%list = (filter P l ++ [x])%list.
Proof. intros Hx. by rewrite filter_app, (filter_singleton_True _ x []). Qed.

(** X28: a message that [sendMessage] has stored is read back by
    [getMessages] of either participant: the chat they receive is, up to
    the order, the chat as it was with the new message added, it is sorted
    by creation time, and the new message carries the trimmed text, the
    sender, the type TEXT and the profile of the sender. *)
Theorem sendMessage_then_getMessages env uid taskId body s s' m reader r :
  run (sendMessage env (Some uid) taskId body) s = (s', Success m) →
  tasks s !! taskId = Some r → participant reader r →
  m = Message.mk taskId uid TEXT (Js.trim body) (clock env)
  ∧ ∃ before after,
      run (getMessages (Some reader) taskId) s = (s, Success before)
      ∧ run (getMessages (Some reader) taskId) s' = (s', Success after)
      ∧ after ≡ₚ (m, profiles s !! uid) :: before
      ∧ StronglySorted
          (fun a b => Message.created_at a.1 ≤ Message.created_at b.1) after.
Proof.
  intros Hrun Hr Hreader.
  destruct (sendMessage_run env (Some uid) taskId body s)
    as [[e He]|(? & r' & [= <-] & Hr' & _ & _ & _ & _ & _ & Hok)]; [congruence|].
  rewrite Hok in Hrun. simplify_eq. split; [done|].
  set (m := Message.mk taskId uid TEXT (Js.trim body) (clock env)).
  destruct (getMessages_run (Some reader) taskId s)
    as [(e & _ & Hnot)|(? & ? & [= <-] & ? & _ & Hbefore)];
    [destruct Hnot; by eauto|].
  destruct (getMessages_run (Some reader) taskId
              (set_messages s (messages s ++ [m])%list))
    as [(e & _ & Hnot)|(? & ? & [= <-] & ? & _ & Hafter)];
    [destruct Hnot; by eauto|].
  do 2 eexists. split; [exact Hbefore|]. split; [exact Hafter|].
  cbn [messages profiles set_messages]. split.
  - rewrite filter_snoc by done. rewrite !merge_sort_Permutation.
    rewrite fmap_app. cbn [fmap list_fmap]. by rewrite <-Permutation_cons_append.
  - eapply StronglySorted_fmap; [|apply StronglySorted_merge_sort; apply _].
    by intros ? ?.
Qed.

Lemma sendMessage_then_getMessages_witness :
  Message.mk 1%N 20%N TEXT "On my way" 300
  = Message.mk 1%N 20%N TEXT (Js.trim "  On my way ") (clock (at_time 300)).
Proof.
  apply (sendMessage_then_getMessages (at_time 300) 20%N 1%N "  On my way " accepted
           (set_messages accepted
              (messages accepted ++ [Message.mk 1%N 20%N TEXT "On my way" 300])%list)
           (Message.mk 1%N 20%N TEXT "On my way" 300) 10%N
           (acceptTask_patch 20%N 100 pickup)
           ltac:(by vm_compute) ltac:(by vm_compute) ltac:(by left)).
Defined.

(** ** The bounds of the task form *)

(** X29: [createTask] returns a failure and stores nothing when the title,
    the description or the location is blank or too long, when the price
    is outside 500..50000, when the window is SCHEDULED and the scheduled
    time is missing or is read by [new Date] as a time that is not after
    the clock, or when the caller has not passed the rules gate;
    [updateTask] returns a failure and stores nothing when it is given a
    price outside 500..50000. *)
Theorem create_and_edit_reject_out_of_bounds
    env user input (s : Store) taskId edit p :
  (turned_down (clock env) input ∨ passed_rules_gate s user = false →
   is_success (run (createTask env user input) s).2 = false
   ∧ (run (createTask env user input) s).1 = s)
  ∧ (UpdateTaskInput.price_cents edit = Some p → p < 500 ∨ 50000 < p →
     is_success (run (updateTask user taskId edit) s).2 = false
     ∧ (run (updateTask user taskId edit) s).1 = s).
Proof.
  split.
  - intros Hbad. destruct (run (createTask env user input) s) as [s' [[id r]|e]] eqn:H.
    + exfalso. destruct Hbad as [Hb|Hg].
      * by eapply createTask_Success_not_turned_down.
      * apply createTask_Success in H as (_ & _ & _ & _ & Hgate & _). congruence.
    + split; [done|]. by eapply createTask_Failure.
  - intros Hp Hout.
    destruct (updateTask_price_out_of_band user taskId edit s p Hp Hout) as [e ->].
    done.
Qed.

Lemma create_and_edit_reject_out_of_bounds_witness :
  (is_success (run (createTask (at_time 50) (Some 10%N)
                      (CreateTaskInput.mk "Pickup" "Bring my parcel" ERRAND
                         "Aldrich Park" NOW None 499)) posted).2 = false
   ∧ (run (createTask (at_time 50) (Some 10%N)
             (CreateTaskInput.mk "Pickup" "Bring my parcel" ERRAND
                "Aldrich Park" NOW None 499)) posted).1 = posted)
  ∧ (is_success (run (updateTask (Some 10%N) 1%N
                        (UpdateTaskInput.mk None None (Some 50001))) posted).2 = false
     ∧ (run (updateTask (Some 10%N) 1%N
               (UpdateTaskInput.mk None None (Some 50001))) posted).1 = posted).
Proof.
  split.
  - apply (proj1 (create_and_edit_reject_out_of_bounds (at_time 50) (Some 10%N)
                    (CreateTaskInput.mk "Pickup" "Bring my parcel" ERRAND
                       "Aldrich Park" NOW None 499)
                    posted 1%N (UpdateTaskInput.mk None None (Some 50001)) 50001)).
    left. left. unfold text_or_price_violated. cbn. lia.
  - apply (proj2 (create_and_edit_reject_out_of_bounds (at_time 50) (Some 10%N)
                    (CreateTaskInput.mk "Pickup" "Bring my parcel" ERRAND
                       "Aldrich Park" NOW None 499)
                    posted 1%N (UpdateTaskInput.mk None None (Some 50001)) 50001));
      [reflexivity|lia].
Defined.
